(** * Swedbank ISO 20022 pain.001.001.03 credit transfer: model and properties

    A shallow embedding of the document generation pipeline of the
    [account_iso20022_swedbank] Odoo module:

    - [models/account_journal.py]: sanitizers, payment validation, grouping,
      the element tree of the pain.001.001.03 document, schema validation;
    - [models/res_partner_bank.py]: account classification;
    - [models/account_payment.py]: the end-to-end ID constraint and [create];
    - [models/account_batch_payment.py]: batch validation.

    Python [str] values are lists of Unicode code points, amounts are
    Python floats (IEEE 754 binary64), records are Rocq records, an Odoo
    field that may be [False] is an [option], a raised exception is the
    left injection of a sum, and reads of the clock and of the random
    source thread a [world]. *)

From Stdlib Require Import List NArith ZArith Bool Ascii String Lia.
From Stdlib Require Import Permutation DecimalString DecimalN DecimalPos.
From Stdlib Require SpecFloat.
Import ListNotations.

Open Scope string_scope.
Open Scope list_scope.
Open Scope N_scope.

(* ================================================================== *)
(** * Python strings *)

(** A Python [str] is a sequence of Unicode code points. *)
Definition char := N.
Definition str := list char.

(** An ASCII literal of the source as a [str]. *)
Definition u (s : string) : str := map N_of_ascii (list_ascii_of_string s).

Definition slash : char := 47.
Definition dquote : char := 34.
Definition newline : char := 10.

(** [c in s] for a one-character [c]. *)
Definition in_set (c : char) (s : list char) : bool := existsb (N.eqb c) s.

Fixpoint str_eqb (a b : str) : bool :=
  match a, b with
  | [], [] => true
  | x :: a', y :: b' => (x =? y) && str_eqb a' b'
  | _, _ => false
  end.

Fixpoint startswith (p s : str) : bool :=
  match p, s with
  | [], _ => true
  | x :: p', y :: s' => (x =? y) && startswith p' s'
  | _ :: _, [] => false
  end.

Definition endswith (p s : str) : bool := startswith (rev p) (rev s).

(** [needle in hay] for strings. *)
Fixpoint contains (needle hay : str) : bool :=
  startswith needle hay ||
  match hay with
  | [] => false
  | _ :: hay' => contains needle hay'
  end.

(** [s.replace(a, '')] and [s.replace(a, b)] for a one-character [a]. *)
Definition remove_char (a : char) (s : str) : str :=
  filter (fun c => negb (c =? a)) s.

(** Truthiness of a field that holds a string or [False]. *)
Definition truthy (o : option str) : bool :=
  match o with
  | Some (_ :: _) => true
  | _ => false
  end.

(** [a or b] on such fields, and ['%s' % a]. *)
Definition or_else (a : option str) (b : str) : str :=
  match a with
  | Some (c :: s) => c :: s
  | _ => b
  end.

Definition fmt_s (a : option str) : str :=
  match a with
  | Some s => s
  | None => u "False"
  end.

(** [str(n)] for a non-negative integer. *)
Definition str_of_N (n : N) : str :=
  u (NilEmpty.string_of_uint (N.to_uint n)).

Definition str_of_nat (n : nat) : str := str_of_N (N.of_nat n).

Definition digit (n : N) : char := 48 + n.

(* ================================================================== *)
(** * Python floats

    A Python [float] is an IEEE 754 binary64 number.  The operations are
    those of the Standard Library's specification of binary floating-point
    arithmetic at precision 53 and maximal exponent 1024. *)

Definition float : Type := SpecFloat.spec_float.

Definition prec : Z := 53.
Definition emax : Z := 1024.

(** [float(z)] for an integer [z]. *)
Definition float_of_Z (z : Z) : float :=
  SpecFloat.binary_normalize prec emax z 0 false.

(** The float literal with the digits [n] and [k] decimals: the float
    nearest to [n / 10^k]. *)
Definition decimal (n : Z) (k : nat) : float :=
  SpecFloat.SFdiv prec emax (float_of_Z n) (float_of_Z (10 ^ Z.of_nat k)).

Definition float_add (x y : float) : float := SpecFloat.SFadd prec emax x y.

(** [x <= 0]: false for a NaN. *)
Definition le_zero (x : float) : bool :=
  SpecFloat.SFleb x (SpecFloat.S754_zero false).

(** [sum(l)]: the floats are added from left to right, starting from 0. *)
Definition float_sum (l : list float) : float :=
  fold_left float_add l (SpecFloat.S754_zero false).

(** From CPython 3.12 on, [sum] adds floats with a compensation term
    (Neumaier's summation): after [0 + x] for the first float, every step
    adds to [c] the rounding error of [f_result + x], and [c] is added at
    the end when it is finite and not zero.  The two sums are the same
    for one float and wherever no addition rounds, which is the case in
    the evaluated batches. *)
Definition float_sub (x y : float) : float := SpecFloat.SFsub prec emax x y.

Definition compensated_step (state : float * float) (x : float) : float * float :=
  let '(f_result, c) := state in
  let t := float_add f_result x in
  if SpecFloat.SFleb (SpecFloat.SFabs x) (SpecFloat.SFabs f_result)
  then (t, float_add c (float_add (float_sub f_result t) x))
  else (t, float_add c (float_add (float_sub x t) f_result)).

Definition float_sum_compensated (l : list float) : float :=
  match l with
  | [] => SpecFloat.S754_zero false
  | x :: rest =>
      let '(f_result, c) :=
        fold_left compensated_step rest
          (float_add (SpecFloat.S754_zero false) x, SpecFloat.S754_zero false) in
      match c with
      | SpecFloat.S754_finite _ _ _ => float_add f_result c
      | _ => f_result
      end
  end.

(** [n / d] rounded to the nearest integer, a tie to the even one. *)
Definition round_half_even (n d : N) : N :=
  let q := n / d in
  let r := n mod d in
  if 2 * r <? d then q
  else if d <? 2 * r then q + 1
  else if N.even q then q else q + 1.

(** The value [m * 2^e] in hundredths, rounded. *)
Definition hundredths (m : positive) (e : Z) : N :=
  match e with
  | Z0 => N.pos m * 100
  | Zpos p => N.pos m * 100 * 2 ^ N.pos p
  | Zneg p => round_half_even (N.pos m * 100) (2 ^ N.pos p)
  end.

Definition fmt_hundredths (h : N) : str :=
  str_of_N (h / 100) ++ u "." ++ [digit ((h mod 100) / 10); digit (h mod 10)].

(** ['%.2f' % x]: the exact value of the float, correctly rounded to two
    decimals. *)
Definition fmt2 (x : float) : str :=
  match x with
  | SpecFloat.S754_zero s => (if s then u "-" else []) ++ u "0.00"
  | SpecFloat.S754_infinity s => (if s then u "-" else []) ++ u "inf"
  | SpecFloat.S754_nan => u "nan"
  | SpecFloat.S754_finite s m e =>
      (if s then u "-" else []) ++ fmt_hundredths (hundredths m e)
  end.

(** Reading the text of an amount back, in hundredths: the integer part,
    a dot, two digits. *)
Definition is_ascii_digit (c : char) : bool := (48 <=? c) && (c <=? 57).

Definition str_to_string (s : str) : string :=
  string_of_list_ascii (map ascii_of_N s).

Definition N_of_str (s : str) : option N :=
  match s with
  | [] => None
  | _ => option_map N.of_uint (NilEmpty.uint_of_string (str_to_string s))
  end.

Definition parse2_unsigned (s : str) : option Z :=
  match rev s with
  | d0 :: d1 :: dot :: ip =>
      if (dot =? 46) && is_ascii_digit d1 && is_ascii_digit d0 then
        match N_of_str (rev ip) with
        | Some q => Some (Z.of_N (q * 100 + (d1 - 48) * 10 + (d0 - 48)))
        | None => None
        end
      else None
  | _ => None
  end.

Definition parse2 (s : str) : option Z :=
  match s with
  | c :: s' =>
      if c =? 45 then option_map Z.opp (parse2_unsigned s')
      else parse2_unsigned s
  | [] => None
  end.

(* ================================================================== *)
(** * The Python runtime and the libraries the module calls

    The Unicode tables behind [str.lower], [str.upper], [str.isupper] and
    [str.isdigit] outside ASCII, the clock, the random source, and lxml's
    serializer, parser and schema engine are parameters of the model. *)

#[local] Unset Elimination Schemes.
Inductive element : Type :=
  Element (tag : string)
          (nsmap : list (option string * string))
          (attrib : list (string * str))
          (text : option str)
          (children : list element).
#[local] Set Elimination Schemes.

Definition tag (e : element) : string :=
  match e with Element t _ _ _ _ => t end.
Definition nsmap (e : element) : list (option string * string) :=
  match e with Element _ n _ _ _ => n end.
Definition attrib (e : element) : list (string * str) :=
  match e with Element _ _ a _ _ => a end.
Definition text (e : element) : option str :=
  match e with Element _ _ _ x _ => x end.
Definition children (e : element) : list element :=
  match e with Element _ _ _ _ c => c end.

Definition bytes := list N.

Record Runtime : Type := {
  (** [c.lower()], [c.upper()], [c.isupper()], [c.isdigit()] for a code
      point [c >= 128] *)
  unicode_lower : char -> str;
  unicode_upper : char -> str;
  unicode_isupper : char -> bool;
  unicode_isdigit : char -> bool;
  (** the k-th [datetime.now()] of the process, as
      [strftime('%Y%m%d%H%M%S%f')] and as [strftime('%Y-%m-%dT%H:%M:%S')] *)
  now_compact : nat -> str;
  now_iso : nat -> str;
  (** [str(fields.Date.today())], the same for every reading of one call *)
  today : str;
  (** the k-th [uuid.uuid4()] of the process, as its 128-bit integer *)
  uuid4 : nat -> N;
  (** [etree.tostring(root, pretty_print=True, xml_declaration=False,
      encoding='UTF-8')] *)
  tostring : element -> bytes;
  (** [etree.fromstring]; [None] is [XMLSyntaxError] *)
  fromstring : bytes -> option element;
  syntax_error : bytes -> str;
  (** [etree.XMLSchema(etree.parse(f))]; [None] is any exception *)
  schema : Type;
  load_schema : bytes -> option schema;
  schema_validate : schema -> element -> bool;
  error_log : schema -> element -> list str
}.

Section PythonStr.
Variable rt : Runtime.

Definition is_ascii_upper (c : char) : bool := (65 <=? c) && (c <=? 90).
Definition is_ascii_lower (c : char) : bool := (97 <=? c) && (c <=? 122).

Definition is_ascii_letter (c : char) : bool :=
  is_ascii_upper c || is_ascii_lower c.

(** [c.lower()] of a one-character string. *)
Definition lower (c : char) : str :=
  if is_ascii_upper c then [c + 32]
  else if c <? 128 then [c]
  else unicode_lower rt c.

Definition upper (c : char) : str :=
  if is_ascii_lower c then [c - 32]
  else if c <? 128 then [c]
  else unicode_upper rt c.

Definition isupper (c : char) : bool :=
  if c <? 128 then is_ascii_upper c else unicode_isupper rt c.

Definition isdigit_char (c : char) : bool :=
  if c <? 128 then is_ascii_digit c else unicode_isdigit rt c.

(** [s.upper()] and [s.isdigit()]. *)
Definition str_upper (s : str) : str := flat_map upper s.

Definition isdigit (s : str) : bool :=
  match s with
  | [] => false
  | _ => forallb isdigit_char s
  end.
End PythonStr.

(* ================================================================== *)
(** * account_journal.py: character sets *)

Definition SWEDBANK_LATIN_CHARS : list char :=
  u "abcdefghijklmnopqrstuvwxyz" ++
  u "ABCDEFGHIJKLMNOPQRSTUVWXYZ" ++
  u "0123456789" ++
  u "/-?:().,'+ ".

(** U+00E5, U+00C5, U+00E4, U+00C4, U+00F6, U+00D6. *)
Definition SWEDISH_LOCAL_CHARS : list char := [229; 197; 228; 196; 246; 214].

(** The keys are the code points of the source's accented letters, in the
    order of the source: U+00E0 .. U+0153, then U+00C0 .. U+0152. *)
Definition CHAR_REPLACEMENT_MAP : list (char * str) :=
  [ (224, u "a"); (225, u "a"); (226, u "a"); (227, u "a"); (228, u "a");
    (230, u "ae");
    (231, u "c"); (232, u "e"); (233, u "e"); (234, u "e"); (235, u "e");
    (236, u "i"); (237, u "i"); (238, u "i"); (239, u "i");
    (241, u "n"); (242, u "o"); (243, u "o"); (244, u "o"); (245, u "o");
    (246, u "o"); (248, u "o");
    (249, u "u"); (250, u "u"); (251, u "u"); (252, u "u"); (253, u "y");
    (255, u "y");
    (223, u "ss"); (339, u "oe");
    (192, u "A"); (193, u "A"); (194, u "A"); (195, u "A"); (196, u "A");
    (198, u "AE");
    (199, u "C"); (200, u "E"); (201, u "E"); (202, u "E"); (203, u "E");
    (204, u "I"); (205, u "I"); (206, u "I"); (207, u "I");
    (209, u "N"); (210, u "O"); (211, u "O"); (212, u "O"); (213, u "O");
    (214, u "O"); (216, u "O");
    (217, u "U"); (218, u "U"); (219, u "U"); (220, u "U"); (221, u "Y");
    (338, u "OE") ].

Fixpoint dict_get (k : char) (d : list (char * str)) : option str :=
  match d with
  | [] => None
  | (k', v) :: d' => if k =? k' then Some v else dict_get k d'
  end.

(** [s in d] and [d[s]] for a string key [s]: the keys of the table are
    one-character strings. *)
Definition dict_get_str (s : str) (d : list (char * str)) : option str :=
  match s with
  | [k] => dict_get k d
  | _ => None
  end.

(* ================================================================== *)
(** * account_journal.py: sanitizers *)

(** ['//' in s]. *)
Fixpoint has_dslash (s : str) : bool :=
  match s with
  | a :: ((b :: _) as tl) => ((a =? slash) && (b =? slash)) || has_dslash tl
  | _ => false
  end.

(** [s.replace('//', '/')]: one left-to-right pass over non-overlapping
    occurrences. *)
Fixpoint replace_dslash (s : str) : str :=
  match s with
  | a :: ((b :: rest) as tl) =>
      if (a =? slash) && (b =? slash) then slash :: replace_dslash rest
      else a :: replace_dslash tl
  | _ => s
  end.

(** [while '//' in s: s = s.replace('//', '/')], with the number of
    iterations bounded by [fuel]. *)
Fixpoint collapse_loop (fuel : nat) (s : str) : str :=
  match fuel with
  | O => s
  | S fuel' =>
      if has_dslash s then collapse_loop fuel' (replace_dslash s) else s
  end.

(** Every pass that runs shortens the string, so [length s] passes are
    enough (lemma [collapse_no_dslash]). *)
Definition collapse (s : str) : str := collapse_loop (List.length s) s.

(** Whether a string starts with [/]. *)
Definition starts_slash (s : str) : bool :=
  match s with
  | c :: _ => c =? slash
  | [] => false
  end.

Fixpoint lstrip_slash (s : str) : str :=
  match s with
  | c :: s' => if c =? slash then lstrip_slash s' else s
  | [] => []
  end.

(** [s.strip('/')]. *)
Definition strip_slash (s : str) : str :=
  rev (lstrip_slash (rev (lstrip_slash s))).

Section Sanitizer.
Variable rt : Runtime.

(** The body of the loop [for char in text] of [_swedbank_sanitize_text]:
    what one character appends to [result]. *)
Definition sanitize_char (allow_swedish : bool) (c : char) : str :=
  let allowed_chars :=
    if allow_swedish then SWEDBANK_LATIN_CHARS ++ SWEDISH_LOCAL_CHARS
    else SWEDBANK_LATIN_CHARS in
  if in_set c allowed_chars then [c]
  else
    match dict_get c CHAR_REPLACEMENT_MAP with
    | Some replacement => replacement
    | None =>
        match dict_get_str (lower rt c) CHAR_REPLACEMENT_MAP with
        | Some replacement =>
            if isupper rt c then str_upper rt replacement else replacement
        | None => []
        end
    end.

(** [max_length] is a length, a natural number: the call sites pass 140,
    70, 35 and 16, and [s[:max_length]] is then the prefix of that
    length. *)
Definition _swedbank_sanitize_text
    (text : option str) (max_length : nat) (allow_swedish : bool) : str :=
  match text with
  | Some ((_ :: _) as t) =>
      let sanitized := collapse (flat_map (sanitize_char allow_swedish) t) in
      firstn max_length sanitized
  | _ => []
  end.

Definition _swedbank_sanitize_id (text : option str) (max_length : nat) : str :=
  match text with
  | Some (_ :: _) =>
      let sanitized := _swedbank_sanitize_text text max_length false in
      let sanitized := strip_slash sanitized in
      let sanitized := collapse sanitized in
      firstn max_length sanitized
  | _ => []
  end.
End Sanitizer.

(* ================================================================== *)
(** * Odoo records read by the module

    A many2one field is an [option] of the record it points to ([None] is
    the empty recordset), a [Char] field is an [option str] ([None] is
    [False]), a [Selection] field an [option] of its enumeration.  Only the
    fields the module reads are kept. *)

Inductive service_level := NURG | SEPA | URGP | SDVA.
Inductive category_purpose := SUPP | CORT | TREA | INTC.
Inductive charge_bearer := SHAR | SLEV | DEBT | CRED.

Definition service_level_code (s : service_level) : str :=
  match s with
  | NURG => u "NURG" | SEPA => u "SEPA" | URGP => u "URGP" | SDVA => u "SDVA"
  end.

Definition category_purpose_code (c : category_purpose) : str :=
  match c with
  | SUPP => u "SUPP" | CORT => u "CORT" | TREA => u "TREA" | INTC => u "INTC"
  end.

Definition charge_bearer_code (c : charge_bearer) : str :=
  match c with
  | SHAR => u "SHAR" | SLEV => u "SLEV" | DEBT => u "DEBT" | CRED => u "CRED"
  end.

Definition is_SEPA (s : option service_level) : bool :=
  match s with
  | Some SEPA => true
  | _ => false
  end.

(** [acc_type] of [res.partner.bank]: ['bank'] or, with [base_iban],
    ['iban']. *)
Inductive acc_type_t := acc_bank | acc_iban.

Definition is_iban (t : acc_type_t) : bool :=
  match t with
  | acc_iban => true
  | acc_bank => false
  end.

(** The values of [swedbank_account_type]. *)
Inductive swedbank_account_type_t := iban | bban | bankgiro | plusgiro.

Module Currency.
Record t := { name : str }.
End Currency.

Module Country.
Record t := { code : str }.
End Country.

Module Bank.
Record t := { bic : option str; country : option Country.t }.
End Bank.

Module Partner.
Record t := {
  name : option str;
  street : option str;
  zip : option str;
  city : option str;
  country_id : option Country.t
}.
End Partner.

Module Company.
Record t := {
  id : N;
  name : option str;
  street : option str;
  city : option str;
  zip : option str;
  country_id : option Country.t;
  currency_id : Currency.t
}.
End Company.

(** [swedbank_account_type] is a stored field: it holds what was written
    to it when the record was created, or what
    [_compute_swedbank_account_type] assigned when it last ran. *)
Module PartnerBank.
Record t := {
  id : N;
  acc_number : option str;
  acc_type : acc_type_t;
  swedbank_account_type : option swedbank_account_type_t;
  swedbank_clearing_code : option str;
  bank_id : option Bank.t;
  currency_id : option Currency.t
}.
End PartnerBank.

Module Payment.
Record t := {
  id : N;
  name : option str;
  partner_id : option Partner.t;
  amount : float;
  currency_id : Currency.t;
  partner_bank_id : option PartnerBank.t;
  ref : option str;
  memo : option str;
  date : option str;
  swedbank_end_to_end_id : option str;
  swedbank_instruction_id : option str;
  swedbank_service_level : option service_level;
  swedbank_category_purpose : option category_purpose;
  swedbank_charge_bearer : option charge_bearer
}.
End Payment.

Module Journal.
Record t := {
  id : N;
  name : option str;
  code : option str;
  company_id : Company.t;
  currency_id : option Currency.t;
  bank_account_id : option PartnerBank.t;
  swedbank_agreement_id : option str;
  swedbank_service_level : option service_level;
  swedbank_category_purpose : option category_purpose;
  swedbank_charge_bearer : option charge_bearer
}.
End Journal.

Module Batch.
Record t := {
  journal_id : option Journal.t;
  payment_ids : list Payment.t;
  payment_method_code : str
}.
End Batch.

(** A field of a many2one that may be empty. *)
Definition field {R A : Type} (f : R -> option A) (o : option R) : option A :=
  match o with
  | Some r => f r
  | None => None
  end.

(* ================================================================== *)
(** * Exceptions and the world *)

Inductive exception :=
| UserError (msg : str)
| ValidationError (msg : str)
| IndexError
| ValueError
| TypeError.

(** A value or a raised exception, for code that touches no state. *)
Definition E (A : Type) : Type := (exception + A)%type.

Definition ebind {A B : Type} (m : E A) (f : A -> E B) : E B :=
  match m with
  | inl e => inl e
  | inr a => f a
  end.

Notation "x <~ c1 ;; c2" := (ebind c1 (fun x => c2))
  (at level 61, c1 at next level, right associativity).

(** The bundled file [schemas/pain.001.001.03.xsd]. *)
Inductive xsd_resource :=
| xsd_missing
| xsd_unreadable
| xsd_content (b : bytes).

Record world := {
  clock_reads : nat;
  uuid_draws : nat;
  xsd_file : xsd_resource;
  payment_table : list Payment.t
}.

(** A computation reads and advances the world and returns a value or
    raises. *)
Definition M (A : Type) : Type := world -> (exception + A) * world.

Definition ret {A : Type} (a : A) : M A := fun w => (inr a, w).

Definition raise {A : Type} (e : exception) : M A := fun w => (inl e, w).

Definition bind {A B : Type} (m : M A) (f : A -> M B) : M B :=
  fun w =>
    match m w with
    | (inl e, w') => (inl e, w')
    | (inr a, w') => f a w'
    end.

Notation "x <- c1 ;; c2" := (bind c1 (fun x => c2))
  (at level 61, c1 at next level, right associativity).

Definition lift {A : Type} (r : exception + A) : M A := fun w => (r, w).

(** [for x in l: ys.append(f(x))]. *)
Fixpoint for_each {A B : Type} (f : A -> M B) (l : list A) : M (list B) :=
  match l with
  | [] => ret []
  | x :: l' => y <- f x ;; ys <- for_each f l' ;; ret (y :: ys)
  end.

(** [datetime.now()]: the index of the reading. *)
Definition datetime_now : M nat :=
  fun w =>
    (inr (clock_reads w),
     {| clock_reads := S (clock_reads w); uuid_draws := uuid_draws w;
        xsd_file := xsd_file w; payment_table := payment_table w |}).

(** [str(uuid)]: 32 lowercase hexadecimal digits in groups of
    8-4-4-4-12. *)
Definition hex_digit (d : N) : char := if d <? 10 then 48 + d else 87 + d.

Fixpoint hex_digits (k : nat) (n : N) : str :=
  match k with
  | O => []
  | S k' => hex_digits k' (n / 16) ++ [hex_digit (n mod 16)]
  end.

Definition uuid_str (n : N) : str :=
  let h := hex_digits 32 n in
  firstn 8 h ++ u "-" ++ firstn 4 (skipn 8 h) ++ u "-" ++
  firstn 4 (skipn 12 h) ++ u "-" ++ firstn 4 (skipn 16 h) ++ u "-" ++
  skipn 20 h.

Section Random.
Variable rt : Runtime.

(** [str(uuid.uuid4())]. *)
Definition uuid4_str : M str :=
  fun w =>
    (inr (uuid_str (uuid4 rt (uuid_draws w))),
     {| clock_reads := clock_reads w; uuid_draws := S (uuid_draws w);
        xsd_file := xsd_file w; payment_table := payment_table w |}).
End Random.

(** ['\n'.join(l)] and friends. *)
Fixpoint join (sep : str) (l : list str) : str :=
  match l with
  | [] => []
  | [x] => x
  | x :: l' => x ++ sep ++ join sep l'
  end.

(** ['"%s"' % name]. *)
Definition quoted (name : option str) : str :=
  [dquote] ++ fmt_s name ++ [dquote].

(* ================================================================== *)
(** * XML trees *)

Definition Leaf (t : string) (x : str) : element := Element t [] [] (Some x) [].
Definition Node (t : string) (c : list element) : element := Element t [] [] None c.

(** An element that is appended only when it is not [None]. *)
Definition opt_elem (o : option element) : list element :=
  match o with
  | Some e => [e]
  | None => []
  end.

(** lxml checks every string it is given as a text or as the value of
    an attribute: a string with a NULL byte, with a control character
    other than tab, newline and carriage return, with a surrogate, or with
    U+FFFE or U+FFFF raises [ValueError] (All strings must be XML
    compatible); a value that is not a string raises [TypeError]. *)
Definition xml_char (c : char) : bool :=
  if c <? 32 then (c =? 9) || (c =? 10) || (c =? 13)
  else negb ((55296 <=? c) && (c <=? 57343)) &&
       negb (c =? 65534) && negb (c =? 65535).

Definition xml_compatible (s : str) : bool := forallb xml_char s.

(** [etree.SubElement(parent, t).text = x]. *)
Definition Text (t : string) (x : str) : E element :=
  if xml_compatible x then inr (Leaf t x) else inl ValueError.

(** The same for the value of a field, which may be [False]. *)
Definition TextField (t : string) (x : option str) : E element :=
  match x with
  | Some s => Text t s
  | None => inl TypeError
  end.

(** [etree.SubElement(parent, t, k=v).text = x]. *)
Definition TextAttr (t k : string) (v x : str) : E element :=
  if xml_compatible v then
    if xml_compatible x then inr (Element t [] [(k, v)] (Some x) [])
    else inl ValueError
  else inl ValueError.

(** A child that is written under a condition. *)
Definition when (b : bool) (child : E element) : E (list element) :=
  if b then e <~ child ;; inr [e] else inr [].

(** The elements reached from [e] by a path of child tags. *)
Fixpoint select (path : list string) (e : element) : list element :=
  match path with
  | [] => [e]
  | t :: path' =>
      flat_map (select path')
               (filter (fun c => String.eqb (tag c) t) (children e))
  end.

Definition texts (path : list string) (e : element) : list (option str) :=
  map text (select path e).



(* ================================================================== *)
(** * res_partner_bank.py *)

(** [acc_number.replace(' ', '').replace('-', '')]. *)
Definition normalize_acc (acc_number : str) : str :=
  remove_char 45 (remove_char 32 acc_number).

(** [re.match(r'^[0-9]{lo,hi}$', s)]: [$] also matches before a final
    newline. *)
Definition re_match_digits (lo hi : nat) (s : str) : bool :=
  let body := match rev s with
              | 10 :: r => rev r
              | _ => s
              end in
  forallb is_ascii_digit body &&
  (lo <=? List.length body)%nat && (List.length body <=? hi)%nat.

(** The value that [_compute_swedbank_account_type] assigns to
    [bank.swedbank_account_type].  The method runs when [acc_number] or
    [acc_type] is written ([@api.depends]), not when the clearing code
    is. *)
Definition _compute_swedbank_account_type (bank : PartnerBank.t)
  : option swedbank_account_type_t :=
  if is_iban (PartnerBank.acc_type bank) then Some iban
  else
    match PartnerBank.acc_number bank with
    | Some ((_ :: _) as acc_number) =>
        let acc := normalize_acc acc_number in
        if re_match_digits 7 8 acc
           && negb (truthy (PartnerBank.swedbank_clearing_code bank))
        then Some bankgiro
        else if re_match_digits 1 10 acc
                && match PartnerBank.swedbank_clearing_code bank with
                   | Some c => str_eqb c (u "9960")
                   | None => false
                   end
        then Some plusgiro
        else Some bban
    | _ => None
    end.

Definition _check_swedbank_clearing_code (bank : PartnerBank.t)
  : exception + unit :=
  match PartnerBank.swedbank_clearing_code bank with
  | Some ((_ :: _) as c) =>
      if re_match_digits 4 5 c then inr tt
      else inl (ValidationError (u "Clearing code must be 4 or 5 digits."))
  | _ => inr tt
  end.

Definition _get_swedbank_creditor_agent_clearing (bank : PartnerBank.t)
  : option str * option str :=
  match PartnerBank.swedbank_account_type bank with
  | Some bankgiro => (Some (u "SESBA"), Some (u "9900"))
  | Some plusgiro => (Some (u "SESBA"), Some (u "9960"))
  | _ =>
      if truthy (PartnerBank.swedbank_clearing_code bank)
      then (Some (u "SESBA"), PartnerBank.swedbank_clearing_code bank)
      else (None, None)
  end.

(* ================================================================== *)
(** * account_journal.py: validation and grouping *)

(** [re.match(r'^[0-9]{12}[A-Z][0-9]{3}$', s)]. *)
Definition re_match_agreement_id (s : str) : bool :=
  let body := match rev s with
              | 10 :: r => rev r
              | _ => s
              end in
  (List.length body =? 16)%nat &&
  forallb is_ascii_digit (firstn 12 body) &&
  forallb is_ascii_upper (firstn 1 (skipn 12 body)) &&
  forallb is_ascii_digit (skipn 13 body).

Definition _check_swedbank_agreement_id (journal : Journal.t) : exception + unit :=
  match Journal.swedbank_agreement_id journal with
  | Some ((_ :: _) as a) =>
      if re_match_agreement_id a then inr tt
      else inl (ValidationError
                  (u "Invalid Swedbank Agreement ID format. " ++
                   u "Expected format: nnnnnnnnnnnnAnnn (e.g., 123456789123B001)"))
  | _ => inr tt
  end.

Definition msg_no_partner (name : option str) : str :=
  u "Payment " ++ quoted name ++ u " has no partner defined.".

Definition msg_invalid_amount (name : option str) : str :=
  u "Payment " ++ quoted name ++ u " has invalid amount. Amount must be positive.".

Definition msg_sepa_currency (name : option str) (currency : str) : str :=
  u "SEPA Credit Transfer requires EUR currency. " ++
  u "Payment " ++ quoted name ++ u " uses " ++ currency ++ u ".".

(** The body of the loop of [_swedbank_validate_payments]. *)
Definition validate_payment (self : Journal.t) (payment : Payment.t)
  : exception + unit :=
  match Payment.partner_id payment with
  | None => inl (UserError (msg_no_partner (Payment.name payment)))
  | Some _ =>
      if le_zero (Payment.amount payment) then
        inl (UserError (msg_invalid_amount (Payment.name payment)))
      else if is_SEPA (Journal.swedbank_service_level self)
              && negb (str_eqb (Currency.name (Payment.currency_id payment)) (u "EUR"))
      then
        inl (UserError (msg_sepa_currency
                          (Payment.name payment)
                          (Currency.name (Payment.currency_id payment))))
      else inr tt
  end.

Fixpoint _swedbank_validate_payments (self : Journal.t) (payments : list Payment.t)
  : exception + unit :=
  match payments with
  | [] => inr tt
  | payment :: rest =>
      match validate_payment self payment with
      | inl e => inl e
      | inr _ => _swedbank_validate_payments self rest
      end
  end.

(** Recordsets: [a | b] keeps the first occurrence of every record. *)
Definition mem_id (i : N) (l : list Payment.t) : bool :=
  existsb (fun p => Payment.id p =? i) l.

Fixpoint recordset_union (a b : list Payment.t) : list Payment.t :=
  match b with
  | [] => a
  | p :: b' =>
      if mem_id (Payment.id p) a then recordset_union a b'
      else recordset_union (a ++ [p]) b'
  end.

(** [(self.bank_account_id.id, str(exec_date))]. *)
Definition group_key : Type := option N * str.

Definition group_key_eqb (k1 k2 : group_key) : bool :=
  match fst k1, fst k2 with
  | Some a, Some b => a =? b
  | None, None => true
  | _, _ => false
  end && str_eqb (snd k1) (snd k2).

(** [if key not in groups: groups[key] = empty; groups[key] |= payment]
    on a dict that keeps the order of insertion. *)
Fixpoint groups_add (key : group_key) (payment : Payment.t)
    (groups : list (group_key * list Payment.t))
  : list (group_key * list Payment.t) :=
  match groups with
  | [] => [(key, recordset_union [] [payment])]
  | (k, g) :: rest =>
      if group_key_eqb key k then (k, recordset_union g [payment]) :: rest
      else (k, g) :: groups_add key payment rest
  end.

Section JournalMethods.
Variable rt : Runtime.

Definition payment_key (self : Journal.t) (payment : Payment.t) : group_key :=
  let exec_date := match Payment.date payment with
                   | Some d => d
                   | None => today rt
                   end in
  (option_map PartnerBank.id (Journal.bank_account_id self), exec_date).

Definition _swedbank_group_payments (self : Journal.t) (payments : list Payment.t)
  : list (group_key * list Payment.t) :=
  fold_left (fun groups payment =>
               groups_add (payment_key self payment) payment groups)
            payments [].

(** [sum(payments.mapped('amount'))]. *)
Definition sum_amounts (payments : list Payment.t) : float :=
  float_sum (map Payment.amount payments).

(* ---------------------------------------------------------------- *)
(** ** The element tree

    Every function builds its element child by child, in the order of the
    source; every text goes through lxml's check. *)

Definition _swedbank_get_grp_hdr (self : Journal.t) (payments : list Payment.t)
  : M element :=
  k1 <- datetime_now ;;
  let msg_id :=
    _swedbank_sanitize_id rt
      (Some (u "MSG-" ++ str_of_N (Company.id (Journal.company_id self)) ++
             u "-" ++ now_compact rt k1)) 35 in
  msg_id <- lift (Text "MsgId" msg_id) ;;
  k2 <- datetime_now ;;
  lift (cre_dt_tm <~ Text "CreDtTm" (now_iso rt k2) ;;
        nb_of_txs <~ Text "NbOfTxs" (str_of_nat (List.length payments)) ;;
        let ctrl_sum := sum_amounts payments in
        ctrl_sum <~ Text "CtrlSum" (fmt2 ctrl_sum) ;;
        id <~ TextField "Id" (Journal.swedbank_agreement_id self) ;;
        cd <~ Text "Cd" (u "BANK") ;;
        inr (Node "GrpHdr"
               [ msg_id; cre_dt_tm; nb_of_txs; ctrl_sum;
                 Node "InitgPty"
                   [ Node "Id"
                       [ Node "OrgId"
                           [ Node "Othr" [ id; Node "SchmeNm" [ cd ] ] ] ] ] ])).

(** The argument [payment] is not read. *)
Definition _swedbank_get_pmt_tp_inf (self : Journal.t) (payment : Payment.t)
  : E element :=
  let service_level :=
    match Journal.swedbank_service_level self with
    | Some s => service_level_code s
    | None => u "NURG"
    end in
  svc_lvl_cd <~ Text "Cd" service_level ;;
  let category_purpose :=
    match Journal.swedbank_category_purpose self with
    | Some c => category_purpose_code c
    | None => u "SUPP"
    end in
  ctgy_purp_cd <~ Text "Cd" category_purpose ;;
  inr (Node "PmtTpInf"
         [ Node "SvcLvl" [ svc_lvl_cd ];
           Node "CtgyPurp" [ ctgy_purp_cd ] ]).

Definition _swedbank_get_dbtr (self : Journal.t) : E element :=
  let company := Journal.company_id self in
  let name := _swedbank_sanitize_text rt (Company.name company) 140 true in
  nm <~ Text "Nm" name ;;
  ctry <~ match Company.country_id company with
          | Some country => ctry <~ Text "Ctry" (Country.code country) ;; inr [ ctry ]
          | None => inr []
          end ;;
  adr_line <~ when (truthy (Company.street company))
                (Text "AdrLine"
                   (_swedbank_sanitize_text rt (Company.street company) 70 true)) ;;
  twn_nm <~ when (truthy (Company.city company))
              (Text "TwnNm"
                 (_swedbank_sanitize_text rt (Company.city company) 35 true)) ;;
  pst_cd <~ when (truthy (Company.zip company))
              (Text "PstCd"
                 (_swedbank_sanitize_text rt (Company.zip company) 16 true)) ;;
  inr (Node "Dbtr"
         [ nm; Node "PstlAdr" (ctry ++ adr_line ++ twn_nm ++ pst_cd) ]).

Definition _swedbank_get_dbtr_acct (self : Journal.t) : E element :=
  let bank_account := Journal.bank_account_id self in
  let acc_number := field PartnerBank.acc_number bank_account in
  acct_id <~
    (if match bank_account with
        | Some b => is_iban (PartnerBank.acc_type b)
        | None => false
        end && truthy acc_number
     then
       let iban := str_upper rt (remove_char 32 (or_else acc_number [])) in
       iban <~ Text "IBAN" iban ;;
       inr (Node "Id" [ iban ])
     else
       let acc_number := normalize_acc (or_else acc_number []) in
       id <~ Text "Id" acc_number ;;
       schme <~ (if (List.length acc_number <=? 8)%nat && isdigit rt acc_number
                 then Text "Prtry" (u "BGNR")
                 else Text "Cd" (u "BBAN")) ;;
       inr (Node "Id" [ Node "Othr" [ id; Node "SchmeNm" [ schme ] ] ])) ;;
  let ccy :=
    match field PartnerBank.currency_id bank_account with
    | Some c => Currency.name c
    | None =>
        match Journal.currency_id self with
        | Some c => Currency.name c
        | None => Currency.name (Company.currency_id (Journal.company_id self))
        end
    end in
  ccy <~ Text "Ccy" ccy ;;
  inr (Node "DbtrAcct" [ acct_id; ccy ]).

Definition _swedbank_get_dbtr_agt (self : Journal.t) : E element :=
  bic <~ Text "BIC" (u "SWEDSESS") ;;
  ctry <~ Text "Ctry" (u "SE") ;;
  inr (Node "DbtrAgt"
         [ Node "FinInstnId" [ bic; Node "PstlAdr" [ ctry ] ] ]).

(** [hasattr(partner_bank, '_get_swedbank_creditor_agent_clearing')] holds
    for every bank account once the module is loaded: the [else] branch,
    which repeats the same three cases, is not reached. *)
Definition _swedbank_get_cdtr_agt (self : Journal.t) (payment : Payment.t)
  : E (option element) :=
  match Payment.partner_bank_id payment with
  | None => inr None
  | Some partner_bank =>
      let bic := field Bank.bic (PartnerBank.bank_id partner_bank) in
      bic_el <~ when (truthy bic) (Text "BIC" (or_else bic [])) ;;
      let '(clearing_system, clearing_member) :=
        _get_swedbank_creditor_agent_clearing partner_bank in
      clr_sys_mmb_id <~
        (if truthy clearing_member then
           cd <~ Text "Cd" (or_else clearing_system (u "SESBA")) ;;
           mmb_id <~ Text "MmbId" (or_else clearing_member []) ;;
           inr [ Node "ClrSysMmbId" [ Node "ClrSysId" [ cd ]; mmb_id ] ]
         else inr []) ;;
      let country :=
        match field Bank.country (PartnerBank.bank_id partner_bank) with
        | Some c => Country.code c
        | None =>
            match field Partner.country_id (Payment.partner_id payment) with
            | Some c => Country.code c
            | None => u "SE"
            end
        end in
      ctry <~ Text "Ctry" country ;;
      inr (Some (Node "CdtrAgt"
                   [ Node "FinInstnId"
                       ( bic_el ++ clr_sys_mmb_id ++
                         [ Node "PstlAdr" [ ctry ] ] ) ]))
  end.

Definition _swedbank_get_cdtr (self : Journal.t) (payment : Payment.t) : E element :=
  let partner := Payment.partner_id payment in
  let name := _swedbank_sanitize_text rt (field Partner.name partner) 70 true in
  nm <~ Text "Nm" name ;;
  strt_nm <~ when (truthy (field Partner.street partner))
               (Text "StrtNm"
                  (_swedbank_sanitize_text rt (field Partner.street partner) 35 true)) ;;
  pst_cd <~ when (truthy (field Partner.zip partner))
              (Text "PstCd"
                 (_swedbank_sanitize_text rt (field Partner.zip partner) 16 true)) ;;
  twn_nm <~ when (truthy (field Partner.city partner))
              (Text "TwnNm"
                 (_swedbank_sanitize_text rt (field Partner.city partner) 35 true)) ;;
  ctry <~ match field Partner.country_id partner with
          | Some country => ctry <~ Text "Ctry" (Country.code country) ;; inr [ ctry ]
          | None => inr []
          end ;;
  inr (Node "Cdtr"
         [ nm; Node "PstlAdr" (strt_nm ++ pst_cd ++ twn_nm ++ ctry) ]).

Definition _swedbank_get_cdtr_acct (self : Journal.t) (payment : Payment.t)
  : E (option element) :=
  match Payment.partner_bank_id payment with
  | None => inr None
  | Some partner_bank =>
      match PartnerBank.acc_number partner_bank with
      | Some ((_ :: _) as acc_number) =>
          let acc_number := normalize_acc acc_number in
          acct_id <~
            (if is_iban (PartnerBank.acc_type partner_bank)
             then Text "IBAN" (str_upper rt acc_number)
             else
               id <~ Text "Id" acc_number ;;
               let account_type := PartnerBank.swedbank_account_type partner_bank in
               schme <~ match account_type with
                        | Some bankgiro => Text "Prtry" (u "BGNR")
                        | Some plusgiro => Text "Cd" (u "BBAN")
                        | _ => Text "Cd" (u "BBAN")
                        end ;;
               inr (Node "Othr" [ id; Node "SchmeNm" [ schme ] ])) ;;
          inr (Some (Node "CdtrAcct" [ Node "Id" [ acct_id ] ]))
      | _ => inr None
      end
  end.

Definition _swedbank_get_rmt_inf (self : Journal.t) (payment : Payment.t)
  : E (option element) :=
  let communication :=
    or_else (Payment.ref payment) (or_else (Payment.memo payment) []) in
  match communication with
  | [] => inr None
  | _ =>
      let ustrd := _swedbank_sanitize_text rt (Some communication) 140 true in
      ustrd <~ Text "Ustrd" ustrd ;;
      inr (Some (Node "RmtInf" [ ustrd ]))
  end.

Definition _swedbank_get_cdt_trf_tx_inf (self : Journal.t) (payment : Payment.t)
  : M element :=
  let instr_id :=
    _swedbank_sanitize_id rt
      (Some (or_else (Payment.name payment)
                     (u "PMT-" ++ str_of_N (Payment.id payment)))) 35 in
  instr_id <- lift (Text "InstrId" instr_id) ;;
  e2e <- (if truthy (Payment.ref payment) then ret (or_else (Payment.ref payment) [])
          else if truthy (Payment.name payment)
               then ret (or_else (Payment.name payment) [])
               else s <- uuid4_str rt ;; ret (firstn 35 s)) ;;
  let end_to_end_id := _swedbank_sanitize_id rt (Some e2e) 35 in
  lift (end_to_end_id <~ Text "EndToEndId" end_to_end_id ;;
        instd_amt <~ TextAttr "InstdAmt" "Ccy"
                       (Currency.name (Payment.currency_id payment))
                       (fmt2 (Payment.amount payment)) ;;
        cdtr_agt <~ _swedbank_get_cdtr_agt self payment ;;
        cdtr <~ _swedbank_get_cdtr self payment ;;
        cdtr_acct <~ _swedbank_get_cdtr_acct self payment ;;
        rmt_inf <~ _swedbank_get_rmt_inf self payment ;;
        inr (Node "CdtTrfTxInf"
               ( Node "PmtId" [ instr_id; end_to_end_id ] ::
                 Node "Amt" [ instd_amt ] ::
                 opt_elem cdtr_agt ++
                 cdtr ::
                 opt_elem cdtr_acct ++
                 opt_elem rmt_inf ))).

Definition _swedbank_get_pmt_inf (self : Journal.t) (payments : list Payment.t)
    (key : group_key) : M element :=
  let '(debtor_account_id, exec_date) := key in
  match payments with
  | [] => raise IndexError
  | first_payment :: _ =>
      k <- datetime_now ;;
      let pmt_inf_id :=
        _swedbank_sanitize_id rt
          (Some (u "PMTINF-" ++ str_of_N (Journal.id self) ++
                 u "-" ++ now_compact rt k)) 35 in
      head <- lift
        (pmt_inf_id <~ Text "PmtInfId" pmt_inf_id ;;
         pmt_mtd <~ Text "PmtMtd" (u "TRF") ;;
         btch_bookg <~ Text "BtchBookg" (u "true") ;;
         nb_of_txs <~ Text "NbOfTxs" (str_of_nat (List.length payments)) ;;
         let ctrl_sum := sum_amounts payments in
         ctrl_sum <~ Text "CtrlSum" (fmt2 ctrl_sum) ;;
         pmt_tp_inf <~ _swedbank_get_pmt_tp_inf self first_payment ;;
         reqd_exctn_dt <~ Text "ReqdExctnDt" exec_date ;;
         dbtr <~ _swedbank_get_dbtr self ;;
         dbtr_acct <~ _swedbank_get_dbtr_acct self ;;
         dbtr_agt <~ _swedbank_get_dbtr_agt self ;;
         let charge_bearer :=
           if is_SEPA (Journal.swedbank_service_level self) then u "SLEV"
           else match Journal.swedbank_charge_bearer self with
                | Some c => charge_bearer_code c
                | None => u "SHAR"
                end in
         chrg_br <~ Text "ChrgBr" charge_bearer ;;
         inr [ pmt_inf_id; pmt_mtd; btch_bookg; nb_of_txs; ctrl_sum;
               pmt_tp_inf; reqd_exctn_dt; dbtr; dbtr_acct; dbtr_agt;
               chrg_br ]) ;;
      txs <- for_each (_swedbank_get_cdt_trf_tx_inf self) payments ;;
      ret (Node "PmtInf" (head ++ txs))
  end.

(* ---------------------------------------------------------------- *)
(** ** The document *)

Definition pain_namespace : string := "urn:iso:std:iso:20022:tech:xsd:pain.001.001.03".

Definition document_nsmap : list (option string * string) :=
  [ (None, pain_namespace);
    (Some "xsi", "http://www.w3.org/2001/XMLSchema-instance") ].

Definition msg_no_agreement_id (name : option str) : str :=
  u "Please configure the Swedbank Agreement ID on journal " ++ quoted name ++ u ".".

Definition msg_no_bank_account (name : option str) : str :=
  u "Please configure a bank account on journal " ++ quoted name ++ u ".".

(** [create_swedbank_credit_transfer] up to the call of [etree.tostring]:
    the value of [root]. *)
Definition swedbank_root (self : Journal.t) (payments : list Payment.t)
  : M element :=
  if negb (truthy (Journal.swedbank_agreement_id self)) then
    raise (UserError (msg_no_agreement_id (Journal.name self)))
  else
    match Journal.bank_account_id self with
    | None => raise (UserError (msg_no_bank_account (Journal.name self)))
    | Some _ =>
        _ <- lift (_swedbank_validate_payments self payments) ;;
        grp_hdr <- _swedbank_get_grp_hdr self payments ;;
        let payment_groups := _swedbank_group_payments self payments in
        pmt_infs <- for_each (fun '(group_key, group_payments) =>
                                _swedbank_get_pmt_inf self group_payments group_key)
                             payment_groups ;;
        ret (Element "Document" document_nsmap [] None
               [ Node "CstmrCdtTrfInitn" (grp_hdr :: pmt_infs) ])
    end.

Definition xml_declaration : bytes :=
  u "<?xml version=" ++ [dquote] ++ u "1.0" ++ [dquote] ++
  u " encoding=" ++ [dquote] ++ u "UTF-8" ++ [dquote] ++ u "?>" ++ [newline].

Definition create_swedbank_credit_transfer (self : Journal.t)
    (payments : list Payment.t) : M bytes :=
  root <- swedbank_root self payments ;;
  ret (xml_declaration ++ tostring rt root).

(* ---------------------------------------------------------------- *)
(** ** Schema validation *)

(** The two warnings go to the log, which is not modelled. *)
Definition _swedbank_get_xsd_schema : M (option (schema rt)) :=
  fun w =>
    match xsd_file w with
    | xsd_missing => (inr None, w)
    | xsd_unreadable => (inr None, w)
    | xsd_content b => (inr (load_schema rt b), w)
    end.

Definition swedbank_validate_xml (self : Journal.t) (xml_content : bytes)
  : M (bool * list str) :=
  schema <- _swedbank_get_xsd_schema ;;
  match schema with
  | None => ret (true, [ u "Schema validation skipped - XSD not available" ])
  | Some schema =>
      match fromstring rt xml_content with
      | Some xml_doc =>
          if schema_validate rt schema xml_doc then ret (true, [])
          else ret (false, error_log rt schema xml_doc)
      | None =>
          ret (false, [ u "XML Syntax Error: " ++ syntax_error rt xml_content ])
      end
  end.

Definition msg_schema_errors (errors : list str) : str :=
  u "Generated XML failed Swedbank schema validation:" ++ [newline] ++
  join [newline] (firstn 10 errors) ++
  (if (10 <? List.length errors)%nat
   then [newline] ++ u "... and " ++ str_of_nat (List.length errors - 10) ++
        u " more errors"
   else []).

Definition create_swedbank_credit_transfer_validated (self : Journal.t)
    (payments : list Payment.t) : M bytes :=
  xml_content <- create_swedbank_credit_transfer self payments ;;
  r <- swedbank_validate_xml self xml_content ;;
  let '(is_valid, errors) := r in
  if negb is_valid then raise (UserError (msg_schema_errors errors))
  else ret xml_content.

End JournalMethods.

(* ================================================================== *)
(** * account_batch_payment.py *)

Definition _compute_is_swedbank (batch : Batch.t) : bool :=
  truthy (field Journal.swedbank_agreement_id (Batch.journal_id batch)).

Definition msg_batch_no_agreement_id (name : option str) : str :=
  u "Swedbank Agreement ID is not configured on journal " ++ quoted name ++ u ".".

Definition msg_batch_no_bank_account (name : option str) : str :=
  u "Bank account is not configured on journal " ++ quoted name ++ u ".".

Definition msg_batch_no_partner (name : option str) : str :=
  u "Payment " ++ quoted name ++
  u " has no partner. All Swedbank payments require a partner.".

Definition msg_sepa_iban (name : option str) : str :=
  u "SEPA Credit Transfer requires IBAN. " ++
  u "Partner bank account for payment " ++ quoted name ++ u " is not an IBAN.".

(** The body of the loop of [_swedbank_validate_batch]. *)
Definition validate_batch_payment (journal : option Journal.t) (payment : Payment.t)
  : exception + unit :=
  match Payment.partner_id payment with
  | None => inl (UserError (msg_batch_no_partner (Payment.name payment)))
  | Some _ =>
      if le_zero (Payment.amount payment) then
        inl (UserError (msg_invalid_amount (Payment.name payment)))
      else if is_SEPA (field Journal.swedbank_service_level journal) then
        if negb (str_eqb (Currency.name (Payment.currency_id payment)) (u "EUR"))
        then inl (UserError (msg_sepa_currency
                               (Payment.name payment)
                               (Currency.name (Payment.currency_id payment))))
        else
          match Payment.partner_bank_id payment with
          | Some partner_bank =>
              if negb (is_iban (PartnerBank.acc_type partner_bank))
              then inl (UserError (msg_sepa_iban (Payment.name payment)))
              else inr tt
          | None => inr tt
          end
      else inr tt
  end.

Fixpoint validate_batch_payments (journal : option Journal.t)
    (payments : list Payment.t) : exception + unit :=
  match payments with
  | [] => inr tt
  | payment :: rest =>
      match validate_batch_payment journal payment with
      | inl e => inl e
      | inr _ => validate_batch_payments journal rest
      end
  end.

Definition _swedbank_validate_batch (self : Batch.t) : exception + unit :=
  let journal := Batch.journal_id self in
  if negb (truthy (field Journal.swedbank_agreement_id journal)) then
    inl (UserError (msg_batch_no_agreement_id (field Journal.name journal)))
  else
    match field Journal.bank_account_id journal with
    | None => inl (UserError (msg_batch_no_bank_account (field Journal.name journal)))
    | Some _ => validate_batch_payments journal (Batch.payment_ids self)
    end.

(* ================================================================== *)
(** * account_payment.py *)

(** The set [allowed] of [_check_swedbank_end_to_end_id]. *)
Definition end_to_end_allowed : list char :=
  u "abcdefghijklmnopqrstuvwxyz" ++
  u "ABCDEFGHIJKLMNOPQRSTUVWXYZ" ++
  u "0123456789" ++
  u "/-?:().,'+ ".

Definition msg_e2e_edge : str :=
  u "End-to-End ID must not start or end with " ++
  [dquote] ++ u "/" ++ [dquote] ++ u ".".

Definition msg_e2e_double : str :=
  u "End-to-End ID must not contain " ++ [dquote] ++ u "//" ++ [dquote] ++ u ".".

Definition msg_e2e_chars : str := u "End-to-End ID contains invalid characters.".

(** The body of the loop of [_check_swedbank_end_to_end_id]. *)
Definition check_end_to_end_id (payment : Payment.t) : exception + unit :=
  match Payment.swedbank_end_to_end_id payment with
  | Some ((_ :: _) as e2e) =>
      if startswith (u "/") e2e || endswith (u "/") e2e then
        inl (ValidationError msg_e2e_edge)
      else if contains (u "//") e2e then
        inl (ValidationError msg_e2e_double)
      else if negb (forallb (fun c => in_set c end_to_end_allowed) e2e) then
        inl (ValidationError msg_e2e_chars)
      else inr tt
  | _ => inr tt
  end.

Fixpoint _check_swedbank_end_to_end_id (self : list Payment.t) : exception + unit :=
  match self with
  | [] => inr tt
  | payment :: rest =>
      match check_end_to_end_id payment with
      | inl e => inl e
      | inr _ => _check_swedbank_end_to_end_id rest
      end
  end.

Definition with_id (i : N) (p : Payment.t) : Payment.t :=
  {| Payment.id := i;
     Payment.name := Payment.name p;
     Payment.partner_id := Payment.partner_id p;
     Payment.amount := Payment.amount p;
     Payment.currency_id := Payment.currency_id p;
     Payment.partner_bank_id := Payment.partner_bank_id p;
     Payment.ref := Payment.ref p;
     Payment.memo := Payment.memo p;
     Payment.date := Payment.date p;
     Payment.swedbank_end_to_end_id := Payment.swedbank_end_to_end_id p;
     Payment.swedbank_instruction_id := Payment.swedbank_instruction_id p;
     Payment.swedbank_service_level := Payment.swedbank_service_level p;
     Payment.swedbank_category_purpose := Payment.swedbank_category_purpose p;
     Payment.swedbank_charge_bearer := Payment.swedbank_charge_bearer p |}.

(** [vals['swedbank_end_to_end_id'] = value]. *)
Definition with_end_to_end_id (value : option str) (p : Payment.t) : Payment.t :=
  {| Payment.id := Payment.id p;
     Payment.name := Payment.name p;
     Payment.partner_id := Payment.partner_id p;
     Payment.amount := Payment.amount p;
     Payment.currency_id := Payment.currency_id p;
     Payment.partner_bank_id := Payment.partner_bank_id p;
     Payment.ref := Payment.ref p;
     Payment.memo := Payment.memo p;
     Payment.date := Payment.date p;
     Payment.swedbank_end_to_end_id := value;
     Payment.swedbank_instruction_id := Payment.swedbank_instruction_id p;
     Payment.swedbank_service_level := Payment.swedbank_service_level p;
     Payment.swedbank_category_purpose := Payment.swedbank_category_purpose p;
     Payment.swedbank_charge_bearer := Payment.swedbank_charge_bearer p |}.

Definition with_payment_table (table : list Payment.t) (w : world) : world :=
  {| clock_reads := clock_reads w; uuid_draws := uuid_draws w;
     xsd_file := xsd_file w; payment_table := table |}.

(** The ORM under the module.  [super().create(vals_list)] gives every
    new record the next free id, runs the methods decorated with
    [@api.constrains] on the new records, and stores them; [write] changes
    the field on the records it is called on and runs the constraint on
    them.  A raised exception rolls the transaction back: the table is
    left as it was.  The dict [vals] is a record whose [id] is not read. *)
Definition next_id (table : list Payment.t) : N :=
  fold_right (fun p m => N.max (Payment.id p + 1) m) 1 table.

Fixpoint assign_ids (i : N) (vals_list : list Payment.t) : list Payment.t :=
  match vals_list with
  | [] => []
  | vals :: rest => with_id i vals :: assign_ids (i + 1) rest
  end.

Definition orm_create (vals_list : list Payment.t) : M (list Payment.t) :=
  fun w =>
    let records := assign_ids (next_id (payment_table w)) vals_list in
    match _check_swedbank_end_to_end_id records with
    | inl e => (inl e, w)
    | inr _ => (inr records, with_payment_table (payment_table w ++ records) w)
    end.

Definition orm_write_end_to_end_id (ids : list N) (value : option str) : M unit :=
  fun w =>
    let written p := existsb (N.eqb (Payment.id p)) ids in
    let table :=
      map (fun p => if written p then with_end_to_end_id value p else p)
          (payment_table w) in
    match _check_swedbank_end_to_end_id (filter written table) with
    | inl e => (inl e, w)
    | inr _ => (inr tt, with_payment_table table w)
    end.

Section PaymentMethods.
Variable rt : Runtime.

(** The loop of [create]. *)
Definition fill_end_to_end_id (vals : Payment.t) : M Payment.t :=
  if negb (truthy (Payment.swedbank_end_to_end_id vals)) then
    s <- uuid4_str rt ;;
    ret (with_end_to_end_id (Some (firstn 35 s)) vals)
  else ret vals.

Definition create (vals_list : list Payment.t) : M (list Payment.t) :=
  vals_list <- for_each fill_end_to_end_id vals_list ;;
  orm_create vals_list.

End PaymentMethods.

(** What the program does to the table of payments, one call at a time. *)
Inductive table_step (rt : Runtime) : world -> world -> Prop :=
| step_create (vals_list : list Payment.t) (w : world) :
    table_step rt w (snd (create rt vals_list w))
| step_write (ids : list N) (value : option str) (w : world) :
    table_step rt w (snd (orm_write_end_to_end_id ids value w)).

Inductive reachable (rt : Runtime) : world -> Prop :=
| reachable_empty (w : world) : payment_table w = [] -> reachable rt w
| reachable_step (w w' : world) :
    reachable rt w -> table_step rt w w' -> reachable rt w'.

(** The invariant on a stored end-to-end ID. *)
Definition end_to_end_id_ok (p : Payment.t) : Prop :=
  match Payment.swedbank_end_to_end_id p with
  | Some ((_ :: _) as e2e) =>
      startswith (u "/") e2e = false /\
      endswith (u "/") e2e = false /\
      contains (u "//") e2e = false /\
      Forall (fun c => In c SWEDBANK_LATIN_CHARS) e2e
  | _ => True
  end.

(* ================================================================== *)
(** * A runtime and records for the evaluated cases

    The Unicode tables of this runtime leave every code point outside
    ASCII as it is, its clock and random source are fixed, no schema can
    be loaded, and its serializer writes the tree without indentation.
    The records are those of [tests/test_swedbank_xml.py] and variants of
    them. *)

Definition xml_escape (s : str) : bytes :=
  flat_map (fun c => if c =? 38 then u "&amp;"
                     else if c =? 60 then u "&lt;"
                     else if c =? 62 then u "&gt;"
                     else [c]) s.

Definition print_nsmap (m : list (option string * string)) : bytes :=
  flat_map (fun '(p, uri) =>
              u " xmlns" ++
              match p with
              | Some q => u ":" ++ u q
              | None => []
              end ++ u "=" ++ [dquote] ++ u uri ++ [dquote]) m.

Definition print_attrib (a : list (string * str)) : bytes :=
  flat_map (fun '(k, v) =>
              u " " ++ u k ++ u "=" ++ [dquote] ++ xml_escape v ++ [dquote]) a.

Fixpoint print_element (e : element) : bytes :=
  match e with
  | Element t ns a x c =>
      let head := u "<" ++ u t ++ print_nsmap ns ++ print_attrib a in
      match x, c with
      | None, [] => head ++ u "/>"
      | _, _ =>
          head ++ u ">" ++
          match x with
          | Some s => xml_escape s
          | None => []
          end ++
          (fix print_all (l : list element) : bytes :=
             match l with
             | [] => []
             | e' :: l' => print_element e' ++ print_all l'
             end) c ++
          u "</" ++ u t ++ u ">"
      end
  end.

Definition plain_runtime : Runtime :=
  {| unicode_lower := fun c => [c];
     unicode_upper := fun c => [c];
     unicode_isupper := fun _ => false;
     unicode_isdigit := fun _ => false;
     now_compact := fun _ => u "20240115103000000000";
     now_iso := fun _ => u "2024-01-15T10:30:00";
     today := u "2024-01-15";
     uuid4 := fun k => N.of_nat k;
     tostring := print_element;
     fromstring := fun _ => None;
     syntax_error := fun _ => u "no parser";
     schema := Empty_set;
     load_schema := fun _ => None;
     schema_validate := fun s _ => match s with end;
     error_log := fun s _ => match s with end |}.

Definition world0 : world :=
  {| clock_reads := 0; uuid_draws := 0; xsd_file := xsd_missing;
     payment_table := [] |}.

Definition SE : Country.t := {| Country.code := u "SE" |}.
Definition SEK : Currency.t := {| Currency.name := u "SEK" |}.
Definition EUR : Currency.t := {| Currency.name := u "EUR" |}.

Definition test_company : Company.t :=
  {| Company.id := 1;
     Company.name := Some (u "Test Company AB");
     Company.street := Some (u "Testgatan 1");
     Company.city := Some (u "Stockholm");
     Company.zip := Some (u "11122");
     Company.country_id := Some SE;
     Company.currency_id := SEK |}.

Definition test_company_bank : PartnerBank.t :=
  {| PartnerBank.id := 1;
     PartnerBank.acc_number := Some (u "SE4550000000058398257466");
     PartnerBank.acc_type := acc_iban;
     PartnerBank.swedbank_account_type := Some iban;
     PartnerBank.swedbank_clearing_code := None;
     PartnerBank.bank_id := None;
     PartnerBank.currency_id := None |}.

Definition test_journal : Journal.t :=
  {| Journal.id := 1;
     Journal.name := Some (u "Swedbank");
     Journal.code := Some (u "SWE");
     Journal.company_id := test_company;
     Journal.currency_id := None;
     Journal.bank_account_id := Some test_company_bank;
     Journal.swedbank_agreement_id := Some (u "123456789012A001");
     Journal.swedbank_service_level := Some NURG;
     Journal.swedbank_category_purpose := Some SUPP;
     Journal.swedbank_charge_bearer := Some SHAR |}.

Definition with_service_level (s : option service_level) (j : Journal.t) : Journal.t :=
  {| Journal.id := Journal.id j;
     Journal.name := Journal.name j;
     Journal.code := Journal.code j;
     Journal.company_id := Journal.company_id j;
     Journal.currency_id := Journal.currency_id j;
     Journal.bank_account_id := Journal.bank_account_id j;
     Journal.swedbank_agreement_id := Journal.swedbank_agreement_id j;
     Journal.swedbank_service_level := s;
     Journal.swedbank_category_purpose := Journal.swedbank_category_purpose j;
     Journal.swedbank_charge_bearer := Journal.swedbank_charge_bearer j |}.

Definition test_partner : Partner.t :=
  {| Partner.name := Some (u "Test Supplier AB");
     Partner.street := Some (u "Leverantorsgatan 5");
     Partner.zip := Some (u "41101");
     Partner.city := Some (u "Goteborg");
     Partner.country_id := Some SE |}.

(** The Bankgiro account 12345678 with clearing code 9900, created with
    [swedbank_account_type = 'bankgiro']. *)
Definition test_partner_bank_bg : PartnerBank.t :=
  {| PartnerBank.id := 2;
     PartnerBank.acc_number := Some (u "12345678");
     PartnerBank.acc_type := acc_bank;
     PartnerBank.swedbank_account_type := Some bankgiro;
     PartnerBank.swedbank_clearing_code := Some (u "9900");
     PartnerBank.bank_id := None;
     PartnerBank.currency_id := None |}.

(** The same account number with no clearing code; its type is the one
    computed when it is created. *)
Definition test_partner_bank_plain : PartnerBank.t :=
  {| PartnerBank.id := 3;
     PartnerBank.acc_number := Some (u "12345678");
     PartnerBank.acc_type := acc_bank;
     PartnerBank.swedbank_account_type := Some bankgiro;
     PartnerBank.swedbank_clearing_code := None;
     PartnerBank.bank_id := None;
     PartnerBank.currency_id := None |}.

Definition test_payment (i : N) (name : string) (amount : float) (currency : Currency.t)
    (partner : option Partner.t) (bank : option PartnerBank.t) : Payment.t :=
  {| Payment.id := i;
     Payment.name := Some (u name);
     Payment.partner_id := partner;
     Payment.amount := amount;
     Payment.currency_id := currency;
     Payment.partner_bank_id := bank;
     Payment.ref := Some (u "INV-001");
     Payment.memo := None;
     Payment.date := Some (u "2024-01-15");
     Payment.swedbank_end_to_end_id := None;
     Payment.swedbank_instruction_id := None;
     Payment.swedbank_service_level := None;
     Payment.swedbank_category_purpose := None;
     Payment.swedbank_charge_bearer := None |}.

(** One payment of 1000.00 to the partner's account 12345678 / 9900. *)
Definition payment_1000 : Payment.t :=
  test_payment 1 "PAY1" (decimal 100000 2) SEK
    (Some test_partner) (Some test_partner_bank_bg).

(** The same account after the compute method has run: with its clearing
    code it is a BBAN account. *)
Definition test_partner_bank_bban : PartnerBank.t :=
  {| PartnerBank.id := 2;
     PartnerBank.acc_number := Some (u "12345678");
     PartnerBank.acc_type := acc_bank;
     PartnerBank.swedbank_account_type := Some bban;
     PartnerBank.swedbank_clearing_code := Some (u "9900");
     PartnerBank.bank_id := None;
     PartnerBank.currency_id := None |}.

Definition payment_to_bban : Payment.t :=
  test_payment 1 "PAY1" (decimal 100000 2) SEK
    (Some test_partner) (Some test_partner_bank_bban).

(** A payment of 1.005 Kuwaiti dinars, a currency with three decimals. *)
Definition KWD : Currency.t := {| Currency.name := u "KWD" |}.

Definition payment_1005 (i : N) (name : string) : Payment.t :=
  test_payment i name (decimal 1005 3) KWD
    (Some test_partner) (Some test_partner_bank_bg).

(** A journal with service level SEPA and a payment in EUR to an account
    that is not an IBAN. *)
Definition sepa_journal : Journal.t := with_service_level (Some SEPA) test_journal.

Definition payment_eur_not_iban : Payment.t :=
  test_payment 1 "PAY1" (decimal 50000 2) EUR
    (Some test_partner) (Some test_partner_bank_plain).

(** A payment that sets its own service level and category purpose. *)
Definition payment_urgent : Payment.t :=
  {| Payment.id := 1;
     Payment.name := Some (u "PAY1");
     Payment.partner_id := Some test_partner;
     Payment.amount := decimal 100000 2;
     Payment.currency_id := SEK;
     Payment.partner_bank_id := Some test_partner_bank_plain;
     Payment.ref := Some (u "INV-001");
     Payment.memo := None;
     Payment.date := Some (u "2024-01-15");
     Payment.swedbank_end_to_end_id := None;
     Payment.swedbank_instruction_id := None;
     Payment.swedbank_service_level := Some URGP;
     Payment.swedbank_category_purpose := Some CORT;
     Payment.swedbank_charge_bearer := None |}.

(** A payment without partner followed by a payment of amount 0. *)
Definition payment_no_partner : Payment.t :=
  test_payment 1 "PAY1" (decimal 5000 2) SEK None None.

Definition payment_zero : Payment.t :=
  test_payment 2 "PAY2" (float_of_Z 0) SEK (Some test_partner) None.

(** A payment to an account whose number ends with the control character
    U+0001. *)
Definition test_partner_bank_control : PartnerBank.t :=
  {| PartnerBank.id := 4;
     PartnerBank.acc_number := Some (u "1234567" ++ [1]);
     PartnerBank.acc_type := acc_bank;
     PartnerBank.swedbank_account_type := Some bban;
     PartnerBank.swedbank_clearing_code := None;
     PartnerBank.bank_id := None;
     PartnerBank.currency_id := None |}.

Definition payment_control : Payment.t :=
  test_payment 1 "PAY1" (decimal 100000 2) SEK
    (Some test_partner) (Some test_partner_bank_control).

(** A batch of the test journal. *)
Definition test_batch (payments : list Payment.t) : Batch.t :=
  {| Batch.journal_id := Some test_journal;
     Batch.payment_ids := payments;
     Batch.payment_method_code := u "swedbank_ct" |}.

(** Generation rejects the batch with an error that names [payment] and
    leaves the world as it was. *)
Definition rejected_naming (rt : Runtime) (self : Journal.t)
    (payments : list Payment.t) (w : world) (payment : Payment.t) : Prop :=
  exists msg,
    create_swedbank_credit_transfer rt self payments w = (inl (UserError msg), w) /\
    contains (fmt_s (Payment.name payment)) msg = true.

(** The paths of the document. *)
Definition path_grp_hdr_ctrl_sum : list string :=
  ["CstmrCdtTrfInitn"; "GrpHdr"; "CtrlSum"].
Definition path_pmt_inf : list string := ["CstmrCdtTrfInitn"; "PmtInf"].
Definition path_pmt_inf_ctrl_sum : list string := path_pmt_inf ++ ["CtrlSum"].
Definition path_cdt_trf_tx_inf : list string := path_pmt_inf ++ ["CdtTrfTxInf"].
Definition path_instd_amt : list string := path_cdt_trf_tx_inf ++ ["Amt"; "InstdAmt"].
Definition path_cdtr_acct_schme : list string :=
  path_cdt_trf_tx_inf ++ ["CdtrAcct"; "Id"; "Othr"; "SchmeNm"].
Definition path_svc_lvl : list string := path_pmt_inf ++ ["PmtTpInf"; "SvcLvl"; "Cd"].
Definition path_ctgy_purp : list string := path_pmt_inf ++ ["PmtTpInf"; "CtgyPurp"; "Cd"].


(** A computation that leaves the schema file as it is. *)
Definition keeps_xsd_file {A : Type} (m : M A) : Prop :=
  forall w, xsd_file (snd (m w)) = xsd_file w.

(** The schema file is absent, cannot be read, or does not load. *)
Definition schema_unavailable (rt : Runtime) (w : world) : Prop :=
  match xsd_file w with
  | xsd_missing => True
  | xsd_unreadable => True
  | xsd_content b => load_schema rt b = None
  end.

Definition advisory : str := u "Schema validation skipped - XSD not available".


(** How [create] fills the end-to-end ID of the record made from [vals]:
    a given ID is kept, a missing one is the first 35 characters of a
    UUID. *)
Definition created_from (rt : Runtime) (vals record : Payment.t) : Prop :=
  if truthy (Payment.swedbank_end_to_end_id vals) then
    Payment.swedbank_end_to_end_id record = Payment.swedbank_end_to_end_id vals
  else
    exists k,
      Payment.swedbank_end_to_end_id record =
      Some (firstn 35 (uuid_str (uuid4 rt k))).

(** A character of a UUID: allowed in an end-to-end ID and not [/]. *)
Definition plain_id_char (c : char) : bool :=
  in_set c end_to_end_allowed && negb (c =? slash).


(** The amounts written at a path of the document, read back. *)
Definition amounts_of (path : list string) (root : element) : list (option Z) :=
  map (fun t => match t with
                | Some s => parse2 s
                | None => None
                end) (texts path root).

Definition sum_Z (l : list Z) : Z := fold_right Z.add 0%Z l.

(** The payments of all groups, in the order of the groups. *)
Definition all_payments (groups : list (group_key * list Payment.t))
  : list Payment.t :=
  List.concat (map snd groups).


(** The set [allowed_chars] of [_swedbank_sanitize_text]. *)
Definition allowed_chars (allow_swedish : bool) : list char :=
  if allow_swedish then SWEDBANK_LATIN_CHARS ++ SWEDISH_LOCAL_CHARS
  else SWEDBANK_LATIN_CHARS.

(** The payments of a batch whose key is [k], in batch order. *)
Definition with_key (rt : Runtime) (self : Journal.t) (k : group_key)
    (payments : list Payment.t) : list Payment.t :=
  filter (fun p => group_key_eqb (payment_key rt self p) k) payments.

(** The state of the loop of [_swedbank_group_payments] after the
    payments [done]. *)
Definition grouped (rt : Runtime) (self : Journal.t) (done : list Payment.t)
    (groups : list (group_key * list Payment.t)) : Prop :=
  NoDup (map fst groups) /\
  (forall k g, In (k, g) groups -> g = with_key rt self k done /\ g <> []) /\
  (forall q, In q done -> In (payment_key rt self q) (map fst groups)).

(* ================================================================== *)
(** * The elements that the builders return

    The element that each builder returns when lxml accepts every text,
    and the texts that lxml has to accept for that: those that come from
    a record or from the clock without passing through a sanitizer. *)

Definition pmt_tp_inf_tree (self : Journal.t) : element :=
  Node "PmtTpInf"
    [ Node "SvcLvl"
        [ Leaf "Cd" match Journal.swedbank_service_level self with
                    | Some s => service_level_code s
                    | None => u "NURG"
                    end ];
      Node "CtgyPurp"
        [ Leaf "Cd" match Journal.swedbank_category_purpose self with
                    | Some c => category_purpose_code c
                    | None => u "SUPP"
                    end ] ].

Definition dbtr_tree (rt : Runtime) (self : Journal.t) : element :=
  let company := Journal.company_id self in
  Node "Dbtr"
    [ Leaf "Nm" (_swedbank_sanitize_text rt (Company.name company) 140 true);
      Node "PstlAdr"
        ( match Company.country_id company with
          | Some c => [ Leaf "Ctry" (Country.code c) ]
          | None => []
          end ++
          (if truthy (Company.street company)
           then [ Leaf "AdrLine"
                    (_swedbank_sanitize_text rt (Company.street company) 70 true) ]
           else []) ++
          (if truthy (Company.city company)
           then [ Leaf "TwnNm"
                    (_swedbank_sanitize_text rt (Company.city company) 35 true) ]
           else []) ++
          (if truthy (Company.zip company)
           then [ Leaf "PstCd"
                    (_swedbank_sanitize_text rt (Company.zip company) 16 true) ]
           else []) ) ].

Definition dbtr_ok (self : Journal.t) : bool :=
  match Company.country_id (Journal.company_id self) with
  | Some c => xml_compatible (Country.code c)
  | None => true
  end.

(** Whether the debtor account is written as an IBAN, the account number
    that is written, and the name of the currency. *)
Definition debtor_is_iban (self : Journal.t) : bool :=
  match Journal.bank_account_id self with
  | Some b => is_iban (PartnerBank.acc_type b)
  | None => false
  end && truthy (field PartnerBank.acc_number (Journal.bank_account_id self)).

Definition debtor_account (rt : Runtime) (self : Journal.t) : str :=
  let acc_number :=
    or_else (field PartnerBank.acc_number (Journal.bank_account_id self)) [] in
  if debtor_is_iban self then str_upper rt (remove_char 32 acc_number)
  else normalize_acc acc_number.

Definition debtor_currency (self : Journal.t) : str :=
  match field PartnerBank.currency_id (Journal.bank_account_id self) with
  | Some c => Currency.name c
  | None =>
      match Journal.currency_id self with
      | Some c => Currency.name c
      | None => Currency.name (Company.currency_id (Journal.company_id self))
      end
  end.

Definition dbtr_acct_tree (rt : Runtime) (self : Journal.t) : element :=
  let acc_number := debtor_account rt self in
  Node "DbtrAcct"
    [ (if debtor_is_iban self then Node "Id" [ Leaf "IBAN" acc_number ]
       else
         Node "Id"
           [ Node "Othr"
               [ Leaf "Id" acc_number;
                 Node "SchmeNm"
                   [ if (List.length acc_number <=? 8)%nat && isdigit rt acc_number
                     then Leaf "Prtry" (u "BGNR")
                     else Leaf "Cd" (u "BBAN") ] ] ]);
      Leaf "Ccy" (debtor_currency self) ].

Definition dbtr_acct_ok (rt : Runtime) (self : Journal.t) : bool :=
  xml_compatible (debtor_account rt self) &&
  xml_compatible (debtor_currency self).

Definition dbtr_agt_tree : element :=
  Node "DbtrAgt"
    [ Node "FinInstnId"
        [ Leaf "BIC" (u "SWEDSESS");
          Node "PstlAdr" [ Leaf "Ctry" (u "SE") ] ] ].

(** The country that [_swedbank_get_cdtr_agt] writes. *)
Definition creditor_agent_country (payment : Payment.t) (partner_bank : PartnerBank.t)
  : str :=
  match field Bank.country (PartnerBank.bank_id partner_bank) with
  | Some c => Country.code c
  | None =>
      match field Partner.country_id (Payment.partner_id payment) with
      | Some c => Country.code c
      | None => u "SE"
      end
  end.

Definition cdtr_agt_tree (payment : Payment.t) : option element :=
  match Payment.partner_bank_id payment with
  | None => None
  | Some partner_bank =>
      let bic := field Bank.bic (PartnerBank.bank_id partner_bank) in
      let clearing := _get_swedbank_creditor_agent_clearing partner_bank in
      Some (Node "CdtrAgt"
              [ Node "FinInstnId"
                  ( (if truthy bic then [ Leaf "BIC" (or_else bic []) ] else []) ++
                    (if truthy (snd clearing)
                     then [ Node "ClrSysMmbId"
                              [ Node "ClrSysId"
                                  [ Leaf "Cd" (or_else (fst clearing) (u "SESBA")) ];
                                Leaf "MmbId" (or_else (snd clearing) []) ] ]
                     else []) ++
                    [ Node "PstlAdr"
                        [ Leaf "Ctry"
                            (creditor_agent_country payment partner_bank) ] ] ) ])
  end.

Definition cdtr_agt_ok (payment : Payment.t) : bool :=
  match Payment.partner_bank_id payment with
  | None => true
  | Some partner_bank =>
      xml_compatible (or_else (field Bank.bic (PartnerBank.bank_id partner_bank)) []) &&
      xml_compatible
        (or_else (snd (_get_swedbank_creditor_agent_clearing partner_bank)) []) &&
      xml_compatible (creditor_agent_country payment partner_bank)
  end.

Definition cdtr_tree (rt : Runtime) (payment : Payment.t) : element :=
  let partner := Payment.partner_id payment in
  Node "Cdtr"
    [ Leaf "Nm" (_swedbank_sanitize_text rt (field Partner.name partner) 70 true);
      Node "PstlAdr"
        ( (if truthy (field Partner.street partner)
           then [ Leaf "StrtNm"
                    (_swedbank_sanitize_text rt (field Partner.street partner) 35 true) ]
           else []) ++
          (if truthy (field Partner.zip partner)
           then [ Leaf "PstCd"
                    (_swedbank_sanitize_text rt (field Partner.zip partner) 16 true) ]
           else []) ++
          (if truthy (field Partner.city partner)
           then [ Leaf "TwnNm"
                    (_swedbank_sanitize_text rt (field Partner.city partner) 35 true) ]
           else []) ++
          match field Partner.country_id partner with
          | Some c => [ Leaf "Ctry" (Country.code c) ]
          | None => []
          end ) ].

Definition cdtr_ok (payment : Payment.t) : bool :=
  match field Partner.country_id (Payment.partner_id payment) with
  | Some c => xml_compatible (Country.code c)
  | None => true
  end.

(** The account number that [_swedbank_get_cdtr_acct] writes. *)
Definition creditor_account (rt : Runtime) (partner_bank : PartnerBank.t) : str :=
  let acc_number := normalize_acc (or_else (PartnerBank.acc_number partner_bank) []) in
  if is_iban (PartnerBank.acc_type partner_bank) then str_upper rt acc_number
  else acc_number.

Definition cdtr_acct_tree (rt : Runtime) (payment : Payment.t) : option element :=
  match Payment.partner_bank_id payment with
  | None => None
  | Some partner_bank =>
      if truthy (PartnerBank.acc_number partner_bank) then
        Some (Node "CdtrAcct"
                [ Node "Id"
                    [ if is_iban (PartnerBank.acc_type partner_bank)
                      then Leaf "IBAN" (creditor_account rt partner_bank)
                      else
                        Node "Othr"
                          [ Leaf "Id" (creditor_account rt partner_bank);
                            Node "SchmeNm"
                              [ match PartnerBank.swedbank_account_type partner_bank with
                                | Some bankgiro => Leaf "Prtry" (u "BGNR")
                                | _ => Leaf "Cd" (u "BBAN")
                                end ] ] ] ])
      else None
  end.

Definition cdtr_acct_ok (rt : Runtime) (payment : Payment.t) : bool :=
  match Payment.partner_bank_id payment with
  | None => true
  | Some partner_bank =>
      if truthy (PartnerBank.acc_number partner_bank)
      then xml_compatible (creditor_account rt partner_bank)
      else true
  end.

Definition rmt_inf_tree (rt : Runtime) (payment : Payment.t) : option element :=
  match or_else (Payment.ref payment) (or_else (Payment.memo payment) []) with
  | [] => None
  | communication =>
      Some (Node "RmtInf"
              [ Leaf "Ustrd"
                  (_swedbank_sanitize_text rt (Some communication) 140 true) ])
  end.

(** The element that [_swedbank_get_cdt_trf_tx_inf] returns when the text
    given to the sanitizer for the end-to-end ID is [e2e]. *)
Definition tx_element (rt : Runtime) (self : Journal.t) (payment : Payment.t)
    (e2e : str) : element :=
  Node "CdtTrfTxInf"
    ( Node "PmtId"
        [ Leaf "InstrId"
            (_swedbank_sanitize_id rt
               (Some (or_else (Payment.name payment)
                              (u "PMT-" ++ str_of_N (Payment.id payment)))) 35);
          Leaf "EndToEndId" (_swedbank_sanitize_id rt (Some e2e) 35) ] ::
      Node "Amt"
        [ Element "InstdAmt" []
            [ ("Ccy", Currency.name (Payment.currency_id payment)) ]
            (Some (fmt2 (Payment.amount payment))) [] ] ::
      opt_elem (cdtr_agt_tree payment) ++
      cdtr_tree rt payment ::
      opt_elem (cdtr_acct_tree rt payment) ++
      opt_elem (rmt_inf_tree rt payment) ).

Definition tx_ok (rt : Runtime) (payment : Payment.t) : bool :=
  xml_compatible (Currency.name (Payment.currency_id payment)) &&
  cdtr_agt_ok payment && cdtr_ok payment && cdtr_acct_ok rt payment.

(** The text of [ChrgBr]. *)
Definition charge_bearer_text (self : Journal.t) : str :=
  if is_SEPA (Journal.swedbank_service_level self) then u "SLEV"
  else match Journal.swedbank_charge_bearer self with
       | Some c => charge_bearer_code c
       | None => u "SHAR"
       end.

(** The children of a [PmtInf] before its transactions, for the clock
    reading [k]. *)
Definition pmt_inf_head (rt : Runtime) (self : Journal.t)
    (payments : list Payment.t) (exec_date : str) (k : nat) : list element :=
  [ Leaf "PmtInfId"
      (_swedbank_sanitize_id rt
         (Some (u "PMTINF-" ++ str_of_N (Journal.id self) ++
                u "-" ++ now_compact rt k)) 35);
    Leaf "PmtMtd" (u "TRF");
    Leaf "BtchBookg" (u "true");
    Leaf "NbOfTxs" (str_of_nat (List.length payments));
    Leaf "CtrlSum" (fmt2 (sum_amounts payments));
    pmt_tp_inf_tree self;
    Leaf "ReqdExctnDt" exec_date;
    dbtr_tree rt self;
    dbtr_acct_tree rt self;
    dbtr_agt_tree;
    Leaf "ChrgBr" (charge_bearer_text self) ].

Definition pmt_inf_head_ok (rt : Runtime) (self : Journal.t) (exec_date : str) : bool :=
  xml_compatible exec_date && dbtr_ok self && dbtr_acct_ok rt self.

(** The group header for the clock readings [k1] and [k2] and the
    agreement ID [agreement_id]. *)
Definition grp_hdr_tree (rt : Runtime) (self : Journal.t)
    (payments : list Payment.t) (k1 k2 : nat) (agreement_id : str) : element :=
  Node "GrpHdr"
    [ Leaf "MsgId"
        (_swedbank_sanitize_id rt
           (Some (u "MSG-" ++ str_of_N (Company.id (Journal.company_id self)) ++
                  u "-" ++ now_compact rt k1)) 35);
      Leaf "CreDtTm" (now_iso rt k2);
      Leaf "NbOfTxs" (str_of_nat (List.length payments));
      Leaf "CtrlSum" (fmt2 (sum_amounts payments));
      Node "InitgPty"
        [ Node "Id"
            [ Node "OrgId"
                [ Node "Othr"
                    [ Leaf "Id" agreement_id;
                      Node "SchmeNm" [ Leaf "Cd" (u "BANK") ] ] ] ] ] ].

(** A transaction block of [payment], and a payment information block of
    the group [kg]. *)
Definition tx_of (rt : Runtime) (self : Journal.t) (payment : Payment.t)
    (e : element) : Prop :=
  exists e2e, e = tx_element rt self payment e2e.

Definition pmt_inf_of (rt : Runtime) (self : Journal.t)
    (kg : group_key * list Payment.t) (e : element) : Prop :=
  exists k txs,
    Forall2 (tx_of rt self) (snd kg) txs /\
    e = Node "PmtInf"
          (pmt_inf_head rt self (snd kg) (snd (fst kg)) k ++ txs).

(** An identifier as the bank takes it. *)
Definition well_formed_id (s : str) : Prop :=
  (List.length s <= 35)%nat /\
  startswith (u "/") s = false /\
  endswith (u "/") s = false /\
  contains (u "//") s = false /\
  Forall (fun c => In c SWEDBANK_LATIN_CHARS) s.

Definition path_grp_hdr : list string := ["CstmrCdtTrfInitn"; "GrpHdr"].

Definition path_msg_id : list string := path_grp_hdr ++ ["MsgId"].
Definition path_pmt_inf_id : list string := path_pmt_inf ++ ["PmtInfId"].
Definition path_instr_id : list string := path_cdt_trf_tx_inf ++ ["PmtId"; "InstrId"].
Definition path_end_to_end_id : list string :=
  path_cdt_trf_tx_inf ++ ["PmtId"; "EndToEndId"].

(** A text node that holds a well-formed identifier. *)
Definition holds_id (t : option str) : Prop :=
  exists s, t = Some s /\ well_formed_id s.

(** The tags of the children of the transaction block of [payment], in
    the order of the schema. *)
Definition tx_child_tags (payment : Payment.t) : list string :=
  ["PmtId"; "Amt"] ++
  match Payment.partner_bank_id payment with
  | Some _ => ["CdtrAgt"]
  | None => []
  end ++
  ["Cdtr"] ++
  (if truthy (field PartnerBank.acc_number (Payment.partner_bank_id payment))
   then ["CdtrAcct"] else []) ++
  (if truthy (Payment.ref payment) || truthy (Payment.memo payment)
   then ["RmtInf"] else []).

(** [str(exec_date)] of a payment: its date, or today's. *)
Definition exec_date_of (rt : Runtime) (payment : Payment.t) : str :=
  match Payment.date payment with
  | Some d => d
  | None => today rt
  end.

Definition path_reqd_exctn_dt : list string := path_pmt_inf ++ ["ReqdExctnDt"].

(** A runtime whose schema engine loads every schema file and accepts
    every document, and a journal without agreement ID, for the evaluated
    cases. *)
Definition accepting_runtime : Runtime :=
  {| unicode_lower := unicode_lower plain_runtime;
     unicode_upper := unicode_upper plain_runtime;
     unicode_isupper := unicode_isupper plain_runtime;
     unicode_isdigit := unicode_isdigit plain_runtime;
     now_compact := now_compact plain_runtime;
     now_iso := now_iso plain_runtime;
     today := today plain_runtime;
     uuid4 := uuid4 plain_runtime;
     tostring := print_element;
     fromstring := fun _ => Some (Node "Document" []);
     syntax_error := fun _ => [];
     schema := unit;
     load_schema := fun _ => Some tt;
     schema_validate := fun _ _ => true;
     error_log := fun _ _ => [] |}.

Definition world_with_schema : world :=
  {| clock_reads := 0; uuid_draws := 0; xsd_file := xsd_content [];
     payment_table := [] |}.

Definition journal_without_agreement_id : Journal.t :=
  {| Journal.id := 2;
     Journal.name := Some (u "Bank");
     Journal.code := Some (u "BNK");
     Journal.company_id := test_company;
     Journal.currency_id := None;
     Journal.bank_account_id := Some test_company_bank;
     Journal.swedbank_agreement_id := None;
     Journal.swedbank_service_level := Some NURG;
     Journal.swedbank_category_purpose := Some SUPP;
     Journal.swedbank_charge_bearer := Some SHAR |}.

(** The loop of [validate_batch]. *)
Fixpoint validate_swedbank_batches (self : list Batch.t) : exception + unit :=
  match self with
  | [] => inr tt
  | batch :: rest =>
      if _compute_is_swedbank batch then
        match _swedbank_validate_batch batch with
        | inl e => inl e
        | inr _ => validate_swedbank_batches rest
        end
      else validate_swedbank_batches rest
  end.

(** [validate_batch]: the loop, then [super().validate_batch()], the
    method of the parent class, whose result is returned.  The parent
    class belongs to the framework: its method is the parameter
    [super_validate_batch]. *)
Definition validate_batch {R : Type}
    (super_validate_batch : list Batch.t -> M R) (self : list Batch.t) : M R :=
  _ <- lift (validate_swedbank_batches self) ;;
  super_validate_batch self.

(** * res_partner_bank.py: the onchange and the formatted account *)

Definition with_clearing_code (c : option str) (bank : PartnerBank.t) : PartnerBank.t :=
  {| PartnerBank.id := PartnerBank.id bank;
     PartnerBank.acc_number := PartnerBank.acc_number bank;
     PartnerBank.acc_type := PartnerBank.acc_type bank;
     PartnerBank.swedbank_account_type := PartnerBank.swedbank_account_type bank;
     PartnerBank.swedbank_clearing_code := c;
     PartnerBank.bank_id := PartnerBank.bank_id bank;
     PartnerBank.currency_id := PartnerBank.currency_id bank |}.

(** [bank.swedbank_account_type = account_type]. *)
Definition with_account_type (account_type : option swedbank_account_type_t)
    (bank : PartnerBank.t) : PartnerBank.t :=
  {| PartnerBank.id := PartnerBank.id bank;
     PartnerBank.acc_number := PartnerBank.acc_number bank;
     PartnerBank.acc_type := PartnerBank.acc_type bank;
     PartnerBank.swedbank_account_type := account_type;
     PartnerBank.swedbank_clearing_code := PartnerBank.swedbank_clearing_code bank;
     PartnerBank.bank_id := PartnerBank.bank_id bank;
     PartnerBank.currency_id := PartnerBank.currency_id bank |}.

(** The record of the form after the onchange. *)
Definition _onchange_swedbank_account_type (self : PartnerBank.t) : PartnerBank.t :=
  match PartnerBank.swedbank_account_type self with
  | Some bankgiro => with_clearing_code (Some (u "9900")) self
  | Some plusgiro => with_clearing_code (Some (u "9960")) self
  | _ => self
  end.

(** [s.zfill(width)]: the zeros go after a leading sign. *)
Definition zfill (width : nat) (s : str) : str :=
  let pad := repeat 48 (width - List.length s) in
  match s with
  | c :: r => if (c =? 43) || (c =? 45) then c :: pad ++ r else pad ++ s
  | [] => pad
  end.

(** [s[-n:]] for a positive [n]. *)
Definition last_n (n : nat) (s : str) : str := skipn (List.length s - n) s.

Section PartnerBankMethods.
Variable rt : Runtime.

Definition _compute_swedbank_formatted_account (bank : PartnerBank.t) : str :=
  match PartnerBank.acc_number bank with
  | Some ((_ :: _) as acc_number) =>
      let acc := normalize_acc acc_number in
      let clearing := or_else (PartnerBank.swedbank_clearing_code bank) [] in
      match PartnerBank.swedbank_account_type bank with
      | Some iban => str_upper rt acc
      | Some bankgiro => last_n 8 (zfill 8 acc)
      | Some plusgiro => acc
      | _ =>
          if startswith (u "8") clearing then
            let clearing_5 := firstn 5 (zfill 5 clearing) in
            let acc_padded := last_n 10 (zfill 10 acc) in
            clearing_5 ++ acc_padded
          else if startswith (u "7") clearing then
            let clearing_4 := firstn 4 clearing in
            let acc_padded := last_n 7 (zfill 7 acc) in
            clearing_4 ++ acc_padded
          else clearing ++ acc
      end
  | _ => []
  end.

End PartnerBankMethods.

Definition path_cdtr_acct_othr_schme : list string := ["Id"; "Othr"; "SchmeNm"].

(** A text node that holds sanitized free text of at most [n]
    characters. *)
Definition holds_text (n : nat) (t : option str) : Prop :=
  exists s,
    t = Some s /\
    (List.length s <= n)%nat /\
    contains (u "//") s = false /\
    Forall (fun c => In c (allowed_chars true)) s.

Definition path_dbtr_nm : list string := path_pmt_inf ++ ["Dbtr"; "Nm"].
Definition path_cdtr_nm : list string := path_cdt_trf_tx_inf ++ ["Cdtr"; "Nm"].
Definition path_ustrd : list string := path_cdt_trf_tx_inf ++ ["RmtInf"; "Ustrd"].

(** The first 35 characters of the text of a UUID, from its value without
    the last four bits. *)
Definition uuid_prefix (q : N) : str :=
  let h := hex_digits 31 q in
  firstn 8 h ++ u "-" ++ firstn 4 (skipn 8 h) ++ u "-" ++
  firstn 4 (skipn 12 h) ++ u "-" ++ firstn 4 (skipn 16 h) ++ u "-" ++
  skipn 20 h.

(** The letters U+00E5 and U+00C5. *)
Definition is_a_ring (c : char) : bool := (c =? 229) || (c =? 197).

Definition path_mmb_id : list string := ["FinInstnId"; "ClrSysMmbId"; "MmbId"].
Definition path_clr_sys_cd : list string :=
  ["FinInstnId"; "ClrSysMmbId"; "ClrSysId"; "Cd"].

(** Every payment of a SEPA journal that names a bank account names an
    IBAN. *)
Definition sepa_accounts_are_iban (journal : Journal.t) (payments : list Payment.t)
  : Prop :=
  is_SEPA (Journal.swedbank_service_level journal) = true ->
  Forall (fun p => match Payment.partner_bank_id p with
                   | Some b => PartnerBank.acc_type b = acc_iban
                   | None => True
                   end) payments.

(** A payment with other values in its five Swedbank fields. *)
Definition with_swedbank_fields
    (end_to_end_id instruction_id : option str)
    (service : option service_level) (purpose : option category_purpose)
    (bearer : option charge_bearer) (p : Payment.t) : Payment.t :=
  {| Payment.id := Payment.id p;
     Payment.name := Payment.name p;
     Payment.partner_id := Payment.partner_id p;
     Payment.amount := Payment.amount p;
     Payment.currency_id := Payment.currency_id p;
     Payment.partner_bank_id := Payment.partner_bank_id p;
     Payment.ref := Payment.ref p;
     Payment.memo := Payment.memo p;
     Payment.date := Payment.date p;
     Payment.swedbank_end_to_end_id := end_to_end_id;
     Payment.swedbank_instruction_id := instruction_id;
     Payment.swedbank_service_level := service;
     Payment.swedbank_category_purpose := purpose;
     Payment.swedbank_charge_bearer := bearer |}.

(** The groups with a function applied to every payment. *)
Definition map_groups (f : Payment.t -> Payment.t)
    (groups : list (group_key * list Payment.t))
  : list (group_key * list Payment.t) :=
  map (fun kg => (fst kg, map f (snd kg))) groups.

(** The texts of a batch that lxml has to accept: the clock's, the
    journal's and those of every payment. *)
Definition batch_xml_compatible (rt : Runtime) (self : Journal.t)
    (payments : list Payment.t) : Prop :=
  (forall k, xml_compatible (now_iso rt k) = true) /\
  xml_compatible (or_else (Journal.swedbank_agreement_id self) []) = true /\
  dbtr_ok self = true /\
  dbtr_acct_ok rt self = true /\
  Forall (fun p => xml_compatible (exec_date_of rt p) = true /\
                   tx_ok rt p = true) payments.

(** A batch that is not a Swedbank batch, or that passes the Swedbank
    validation. *)
Definition passes (batch : Batch.t) : Prop :=
  _compute_is_swedbank batch = true -> _swedbank_validate_batch batch = inr tt.

(** A group header of the journal. *)
Definition is_grp_hdr (rt : Runtime) (self : Journal.t)
    (payments : list Payment.t) (h : element) : Prop :=
  exists k1 k2 agreement_id,
    h = grp_hdr_tree rt self payments k1 k2 agreement_id.

(* THEOREMS *)

(* ================================================================== *)
(** * Properties of the string primitives *)

Lemma has_dslash_cons2 (a b : char) (s : str) :
  has_dslash (a :: b :: s) = ((a =? slash) && (b =? slash)) || has_dslash (b :: s).
Proof. reflexivity. Qed.

Lemma replace_dslash_cons2 (a b : char) (s : str) :
  replace_dslash (a :: b :: s) =
  if (a =? slash) && (b =? slash) then slash :: replace_dslash s
  else a :: replace_dslash (b :: s).
Proof. reflexivity. Qed.

Lemma replace_dslash_length_bounded (n : nat) :
  forall s, (List.length s <= n)%nat ->
  (List.length (replace_dslash s) <= List.length s)%nat.
Proof.
  induction n as [| n IHn]; intros s Hlen.
  - destruct s; simpl in *; lia.
  - destruct s as [| a [| b r]]; try (simpl; lia).
    rewrite replace_dslash_cons2. cbn [List.length] in Hlen |- *.
    destruct ((a =? slash) && (b =? slash)); cbn [List.length].
    + specialize (IHn r). lia.
    + specialize (IHn (b :: r)). cbn [List.length] in IHn. lia.
Qed.

(** A pass never lengthens the string. *)
Lemma replace_dslash_length_le (s : str) :
  (List.length (replace_dslash s) <= List.length s)%nat.
Proof. apply (replace_dslash_length_bounded (List.length s)), Nat.le_refl. Qed.

(** A pass over a string that holds [//] shortens it. *)
Lemma replace_dslash_length_lt (s : str) :
  has_dslash s = true ->
  (List.length (replace_dslash s) < List.length s)%nat.
Proof.
  induction s as [| a s IH]; [discriminate |].
  destruct s as [| b r]; [discriminate |].
  rewrite has_dslash_cons2, replace_dslash_cons2.
  destruct ((a =? slash) && (b =? slash)); simpl orb; intros H.
  - pose proof (replace_dslash_length_le r). simpl; lia.
  - specialize (IH H). simpl in *; lia.
Qed.

Lemma collapse_loop_no_dslash (fuel : nat) :
  forall s, (List.length s <= fuel)%nat ->
  has_dslash (collapse_loop fuel s) = false.
Proof.
  induction fuel as [| fuel IH]; intros s Hlen.
  - destruct s; [reflexivity | simpl in Hlen; lia].
  - simpl. destruct (has_dslash s) eqn:E; [| exact E].
    apply IH. pose proof (replace_dslash_length_lt s E). lia.
Qed.

(** The loop of the sanitizers ends because its condition fails. *)
Lemma collapse_no_dslash (s : str) : has_dslash (collapse s) = false.
Proof. apply collapse_loop_no_dslash, Nat.le_refl. Qed.

Lemma collapse_loop_fixed (fuel : nat) (s : str) :
  has_dslash s = false -> collapse_loop fuel s = s.
Proof. destruct fuel; simpl; [reflexivity |]. now intros ->. Qed.

Lemma collapse_fixed (s : str) : has_dslash s = false -> collapse s = s.
Proof. apply collapse_loop_fixed. Qed.

(** More fuel than the length changes nothing. *)
Lemma collapse_loop_stable (m : nat) :
  forall n s, (List.length s <= m)%nat -> (List.length s <= n)%nat ->
  collapse_loop m s = collapse_loop n s.
Proof.
  induction m as [| m IH]; intros n s Hm Hn.
  - destruct s; [| simpl in Hm; lia]. now destruct n.
  - destruct n as [| n].
    + destruct s; [reflexivity | simpl in Hn; lia].
    + cbn [collapse_loop]. destruct (has_dslash s) eqn:E; [| reflexivity].
      pose proof (replace_dslash_length_lt s E). apply IH; lia.
Qed.

Lemma collapse_loop_enough (fuel : nat) (s : str) :
  (List.length s <= fuel)%nat -> collapse_loop fuel s = collapse s.
Proof. intros H. apply collapse_loop_stable; [exact H | apply Nat.le_refl]. Qed.

(** [has_dslash] decides the occurrence of the substring. *)
Lemma has_dslash_spec (s : str) :
  has_dslash s = true <-> exists a b, s = a ++ slash :: slash :: b.
Proof.
  split.
  - induction s as [| x s IH]; [discriminate |].
    destruct s as [| y r]; [discriminate |].
    rewrite has_dslash_cons2. intros H.
    apply orb_true_iff in H as [H | H].
    + apply andb_true_iff in H as [Hx Hy].
      apply N.eqb_eq in Hx, Hy. subst. now exists [], r.
    + destruct (IH H) as (a & b & E). exists (x :: a), b. now rewrite E.
  - intros (a & b & ->).
    induction a as [| x a IH].
    + reflexivity.
    + destruct a as [| y a'].
      * simpl app in *. rewrite has_dslash_cons2.
        rewrite IH. apply orb_true_r.
      * simpl app in *. rewrite has_dslash_cons2.
        rewrite IH. apply orb_true_r.
Qed.

Lemma no_dslash_substring (a s b : str) :
  has_dslash (a ++ s ++ b) = false -> has_dslash s = false.
Proof.
  intros H. destruct (has_dslash s) eqn:E; [| reflexivity].
  apply has_dslash_spec in E as (x & y & ->).
  assert (has_dslash (a ++ (x ++ slash :: slash :: y) ++ b) = true) as H'.
  { apply has_dslash_spec. exists (a ++ x), (y ++ b).
    now rewrite <- !app_assoc. }
  congruence.
Qed.

Lemma firstn_no_dslash (n : nat) (s : str) :
  has_dslash s = false -> has_dslash (firstn n s) = false.
Proof.
  intros H. apply (no_dslash_substring [] _ (skipn n s)).
  simpl. now rewrite firstn_skipn.
Qed.

(** Stripping. *)
Lemma startswith_slash (s : str) : startswith (u "/") s = starts_slash s.
Proof.
  destruct s as [| c s]; [reflexivity |].
  change (startswith (u "/") (c :: s)) with ((slash =? c) && true).
  rewrite andb_true_r. apply N.eqb_sym.
Qed.

Lemma endswith_slash (s : str) : endswith (u "/") s = starts_slash (rev s).
Proof. unfold endswith. apply startswith_slash. Qed.

Lemma lstrip_slash_suffix (s : str) : exists a, s = a ++ lstrip_slash s.
Proof.
  induction s as [| c s (a & IH)]; [now exists [] |].
  simpl. destruct (c =? slash).
  - exists (c :: a). simpl. now f_equal.
  - now exists [].
Qed.

Lemma lstrip_slash_head (s : str) : starts_slash (lstrip_slash s) = false.
Proof.
  induction s as [| c s IH]; [reflexivity |].
  simpl. destruct (c =? slash) eqn:E; [exact IH | simpl; exact E].
Qed.

Lemma lstrip_slash_fixed (s : str) :
  starts_slash s = false -> lstrip_slash s = s.
Proof. destruct s; simpl; [reflexivity | now intros ->]. Qed.

Lemma starts_slash_last (a s : str) :
  s <> [] -> starts_slash (rev (a ++ s)) = starts_slash (rev s).
Proof.
  intros Hs. rewrite rev_app_distr.
  destruct (rev s) eqn:E; [| reflexivity].
  apply (f_equal (@rev char)) in E. rewrite rev_involutive in E.
  now destruct Hs.
Qed.

Lemma strip_slash_substring (s : str) :
  exists a b, s = a ++ strip_slash s ++ b.
Proof.
  unfold strip_slash.
  destruct (lstrip_slash_suffix s) as (a & Ha).
  destruct (lstrip_slash_suffix (rev (lstrip_slash s))) as (b & Hb).
  exists a, (rev b).
  rewrite <- rev_app_distr, <- Hb, rev_involutive. exact Ha.
Qed.

Lemma strip_slash_end (s : str) : starts_slash (rev (strip_slash s)) = false.
Proof. unfold strip_slash. rewrite rev_involutive. apply lstrip_slash_head. Qed.

Lemma strip_slash_start (s : str) : starts_slash (strip_slash s) = false.
Proof.
  unfold strip_slash.
  destruct (lstrip_slash_suffix (rev (lstrip_slash s))) as (b & Hb).
  destruct (lstrip_slash (rev (lstrip_slash s))) as [| c x] eqn:E; [reflexivity |].
  rewrite <- (starts_slash_last b) by discriminate.
  rewrite <- Hb, rev_involutive. apply lstrip_slash_head.
Qed.

Lemma strip_slash_fixed (s : str) :
  starts_slash s = false -> starts_slash (rev s) = false -> strip_slash s = s.
Proof.
  intros H1 H2. unfold strip_slash.
  rewrite (lstrip_slash_fixed s H1), (lstrip_slash_fixed _ H2).
  apply rev_involutive.
Qed.

Lemma strip_slash_length (s : str) :
  (List.length (strip_slash s) <= List.length s)%nat.
Proof.
  destruct (strip_slash_substring s) as (a & b & E).
  rewrite E at 2. rewrite !length_app. lia.
Qed.

Lemma has_dslash_contains (s : str) : contains (u "//") s = has_dslash s.
Proof.
  induction s as [| a s IH]; [reflexivity |].
  change (contains (u "//") (a :: s))
    with (startswith (u "//") (a :: s) || contains (u "//") s).
  rewrite IH. destruct s as [| b r].
  - change (startswith (u "//") [a]) with ((slash =? a) && false).
    now rewrite andb_false_r.
  - rewrite has_dslash_cons2.
    change (startswith (u "//") (a :: b :: r))
      with ((slash =? a) && ((slash =? b) && true)).
    now rewrite andb_true_r, (N.eqb_sym slash a), (N.eqb_sym slash b).
Qed.

(** Membership and the passes of the sanitizers. *)
Lemma in_set_In (c : char) (s : list char) : in_set c s = true <-> In c s.
Proof.
  unfold in_set. rewrite existsb_exists. split.
  - intros (x & Hx & E). apply N.eqb_eq in E. now subst.
  - intros H. exists c. split; [exact H | apply N.eqb_refl].
Qed.

Lemma replace_dslash_In_bounded (n : nat) :
  forall s c, (List.length s <= n)%nat -> In c (replace_dslash s) -> In c s.
Proof.
  induction n as [| n IHn]; intros s c Hlen.
  - destruct s; [now simpl | simpl in Hlen; lia].
  - destruct s as [| a [| b r]]; try (now simpl).
    rewrite replace_dslash_cons2. cbn [List.length] in Hlen.
    destruct ((a =? slash) && (b =? slash)) eqn:E; intros [H | H].
    + apply andb_true_iff in E as [E _]. apply N.eqb_eq in E.
      left. congruence.
    + right; right. apply IHn; [lia | exact H].
    + now left.
    + right. apply IHn; [cbn [List.length]; lia | exact H].
Qed.

Lemma replace_dslash_In (s : str) (c : char) :
  In c (replace_dslash s) -> In c s.
Proof. apply (replace_dslash_In_bounded (List.length s)), Nat.le_refl. Qed.

Lemma collapse_loop_In (fuel : nat) :
  forall s c, In c (collapse_loop fuel s) -> In c s.
Proof.
  induction fuel as [| fuel IH]; intros s c; [now simpl |].
  simpl. destruct (has_dslash s); [| now idtac].
  intros H. apply replace_dslash_In, IH, H.
Qed.

Lemma collapse_In (s : str) (c : char) : In c (collapse s) -> In c s.
Proof. apply collapse_loop_In. Qed.

Lemma firstn_In (A : Type) (n : nat) (l : list A) (x : A) :
  In x (firstn n l) -> In x l.
Proof.
  intros H. rewrite <- (firstn_skipn n l). apply in_or_app. now left.
Qed.

Lemma strip_slash_In (s : str) (c : char) : In c (strip_slash s) -> In c s.
Proof.
  destruct (strip_slash_substring s) as (a & b & E). intros H.
  rewrite E. apply in_or_app. right. apply in_or_app. now left.
Qed.

(** A property of every code point below a bound, by enumeration. *)
Lemma below_bound_check (P : char -> bool) (b : nat) :
  forallb P (map N.of_nat (seq 0 b)) = true ->
  forall c, c < N.of_nat b -> P c = true.
Proof.
  intros H c Hc. rewrite forallb_forall in H. apply H.
  apply in_map_iff. exists (N.to_nat c). split; [apply N2Nat.id |].
  apply in_seq. lia.
Qed.

Lemma ascii_letter_latin (c : char) :
  is_ascii_letter c = true -> In c SWEDBANK_LATIN_CHARS.
Proof.
  intros H. apply in_set_In.
  destruct (c <? 128) eqn:E.
  - apply N.ltb_lt in E.
    assert (K : implb (is_ascii_letter c) (in_set c SWEDBANK_LATIN_CHARS) = true).
    { clear H. revert c E. apply (below_bound_check _ 128). now vm_compute. }
    now rewrite H in K.
  - apply N.ltb_ge in E. unfold is_ascii_letter, is_ascii_upper, is_ascii_lower in H.
    apply orb_true_iff in H as [H | H]; apply andb_true_iff in H as [_ H];
      apply N.leb_le in H; lia.
Qed.

Lemma dict_get_In (k : char) (v : str) (d : list (char * str)) :
  dict_get k d = Some v -> exists k', In (k', v) d.
Proof.
  induction d as [| [k' v'] d IH]; [discriminate |].
  simpl. destruct (k =? k').
  - intros [= ->]. exists k'. now left.
  - intros H. destruct (IH H) as (k'' & Hin). exists k''. now right.
Qed.

(** Every replacement of the table is made of ASCII letters. *)
Lemma replacement_letters (k : char) (v : str) :
  dict_get k CHAR_REPLACEMENT_MAP = Some v ->
  forallb is_ascii_letter v = true.
Proof.
  intros H. destruct (dict_get_In _ _ _ H) as (k' & Hin).
  assert (K : forallb (fun kv => forallb is_ascii_letter (snd kv))
                      CHAR_REPLACEMENT_MAP = true) by now vm_compute.
  rewrite forallb_forall in K. apply (K _ Hin).
Qed.

Section SanitizerProperties.
Variable rt : Runtime.

Lemma upper_ascii_letter (c : char) :
  is_ascii_letter c = true ->
  exists c', upper rt c = [c'] /\ is_ascii_letter c' = true.
Proof.
  unfold is_ascii_letter, upper, is_ascii_upper, is_ascii_lower. intros H.
  destruct ((97 <=? c) && (c <=? 122)) eqn:L.
  - exists (c - 32). split; [reflexivity |].
    apply andb_true_iff in L as [L1 L2]. apply N.leb_le in L1, L2.
    apply orb_true_iff. left. apply andb_true_iff.
    split; apply N.leb_le; lia.
  - rewrite orb_false_r in H. exists c.
    apply andb_true_iff in H as [H1 H2]. pose proof H1 as H1'. pose proof H2 as H2'.
    apply N.leb_le in H1', H2'.
    replace (c <? 128) with true by (symmetry; apply N.ltb_lt; lia).
    split; [reflexivity |]. now rewrite H1, H2.
Qed.

Lemma str_upper_letters (s : str) :
  forallb is_ascii_letter s = true ->
  forallb is_ascii_letter (str_upper rt s) = true.
Proof.
  induction s as [| c s IH]; [reflexivity |].
  simpl. intros H. apply andb_true_iff in H as [Hc Hs].
  destruct (upper_ascii_letter c Hc) as (c' & -> & Hc').
  simpl. now rewrite Hc', IH.
Qed.

Lemma letters_latin (s : str) :
  forallb is_ascii_letter s = true -> Forall (fun c => In c SWEDBANK_LATIN_CHARS) s.
Proof.
  rewrite forallb_forall, Forall_forall.
  intros H c Hc. apply ascii_letter_latin, H, Hc.
Qed.

(** In identifier mode a character only ever appends Latin characters. *)
Lemma sanitize_char_latin (c : char) :
  Forall (fun x => In x SWEDBANK_LATIN_CHARS) (sanitize_char rt false c).
Proof.
  unfold sanitize_char.
  destruct (in_set c SWEDBANK_LATIN_CHARS) eqn:A.
  - constructor; [now apply in_set_In | constructor].
  - destruct (dict_get c CHAR_REPLACEMENT_MAP) as [r |] eqn:B.
    + apply letters_latin. eapply replacement_letters, B.
    + destruct (lower rt c) as [| k [| ? ?]]; cbn [dict_get_str];
        try apply Forall_nil.
      destruct (dict_get k CHAR_REPLACEMENT_MAP) as [r |] eqn:D;
        [| apply Forall_nil].
      apply replacement_letters in D.
      destruct (isupper rt c); apply letters_latin; [apply str_upper_letters |];
        exact D.
Qed.

(** An allowed character is kept as it is. *)
Lemma sanitize_char_allowed (c : char) :
  In c SWEDBANK_LATIN_CHARS -> sanitize_char rt false c = [c].
Proof.
  intros H. unfold sanitize_char.
  now replace (in_set c SWEDBANK_LATIN_CHARS) with true
    by (symmetry; now apply in_set_In).
Qed.

Lemma sanitize_chars_allowed (s : str) :
  Forall (fun c => In c SWEDBANK_LATIN_CHARS) s ->
  flat_map (sanitize_char rt false) s = s.
Proof.
  induction 1 as [| c s Hc _ IH]; [reflexivity |].
  simpl. now rewrite (sanitize_char_allowed c Hc), IH.
Qed.

Lemma sanitize_text_no_dslash (text : option str) (n : nat) (allow : bool) :
  has_dslash (_swedbank_sanitize_text rt text n allow) = false.
Proof.
  unfold _swedbank_sanitize_text.
  destruct text as [[| c t] |]; try reflexivity.
  apply firstn_no_dslash, collapse_no_dslash.
Qed.

Lemma sanitize_text_length (text : option str) (n : nat) (allow : bool) :
  (List.length (_swedbank_sanitize_text rt text n allow) <= n)%nat.
Proof.
  unfold _swedbank_sanitize_text.
  destruct text as [[| c t] |]; try (simpl; lia).
  apply firstn_le_length.
Qed.

Lemma sanitize_text_latin (text : option str) (n : nat) :
  Forall (fun c => In c SWEDBANK_LATIN_CHARS)
         (_swedbank_sanitize_text rt text n false).
Proof.
  unfold _swedbank_sanitize_text.
  destruct text as [[| c t] |]; try apply Forall_nil.
  apply Forall_forall. intros x Hx.
  apply firstn_In, collapse_In in Hx.
  revert x Hx. apply Forall_forall, Forall_flat_map, Forall_forall.
  intros y _. apply sanitize_char_latin.
Qed.

(** The identifier sanitizer is the text sanitizer in Latin mode followed
    by the strip: its second loop and its second cut change nothing. *)
Lemma sanitize_id_strip (text : option str) (n : nat) :
  _swedbank_sanitize_id rt text n =
  strip_slash (_swedbank_sanitize_text rt text n false).
Proof.
  unfold _swedbank_sanitize_id.
  pose proof (sanitize_text_no_dslash text n false) as Hd.
  pose proof (sanitize_text_length text n false) as Hl.
  destruct text as [[| c t] |]; try reflexivity.
  cbv zeta.
  remember (_swedbank_sanitize_text rt _ n false) as x eqn:Ex. clear Ex.
  assert (Hs : has_dslash (strip_slash x) = false).
  { destruct (strip_slash_substring x) as (a & b & E).
    apply (no_dslash_substring a _ b). now rewrite <- E. }
  rewrite (collapse_fixed _ Hs).
  apply firstn_all2. pose proof (strip_slash_length x). lia.
Qed.

Lemma sanitize_id_latin_edges (text : option str) (n : nat) :
  let out := _swedbank_sanitize_id rt text n in
  starts_slash out = false /\ starts_slash (rev out) = false /\
  Forall (fun c => In c SWEDBANK_LATIN_CHARS) out.
Proof.
  cbv zeta. rewrite sanitize_id_strip.
  split; [apply strip_slash_start | split; [apply strip_slash_end |]].
  apply Forall_forall. intros c Hc. apply strip_slash_In in Hc.
  revert c Hc. apply Forall_forall, sanitize_text_latin.
Qed.

Lemma sanitize_id_bounded (text : option str) (n : nat) :
  (List.length (_swedbank_sanitize_id rt text n) <= n)%nat.
Proof.
  rewrite sanitize_id_strip.
  pose proof (strip_slash_length (_swedbank_sanitize_text rt text n false)).
  pose proof (sanitize_text_length text n false). lia.
Qed.

Lemma sanitize_id_no_dslash (text : option str) (n : nat) :
  has_dslash (_swedbank_sanitize_id rt text n) = false.
Proof.
  rewrite sanitize_id_strip.
  destruct (strip_slash_substring (_swedbank_sanitize_text rt text n false))
    as (a & b & E).
  apply (no_dslash_substring a _ b). rewrite <- E.
  apply sanitize_text_no_dslash.
Qed.

End SanitizerProperties.

(* ================================================================== *)
(** * The sanitizers *)

(** C5. For every text, every maximal length and either setting of the
    extended-letter flag, the output of [_swedbank_sanitize_text] holds no
    occurrence of the substring [//] and is at most [max_length] long. *)
Theorem sanitize_text_no_double_slash_and_bounded
    (rt : Runtime) (text : option str) (max_length : nat) (allow_swedish : bool) :
  let out := _swedbank_sanitize_text rt text max_length allow_swedish in
  contains (u "//") out = false /\
  (forall a b, out <> a ++ u "//" ++ b) /\
  (List.length out <= max_length)%nat.
Proof.
  intros out. subst out.
  pose proof (sanitize_text_no_dslash rt text max_length allow_swedish) as H.
  split; [| split].
  - now rewrite has_dslash_contains.
  - intros a b E.
    assert (K : has_dslash (_swedbank_sanitize_text rt text max_length allow_swedish) = true)
      by (apply has_dslash_spec; now exists a, b).
    congruence.
  - apply sanitize_text_length.
Qed.

(** C6. For every text and maximal length, the output of
    [_swedbank_sanitize_id] neither starts nor ends with [/], and each of
    its characters is in the Latin base set; no Swedish extended letter is
    left in it. *)
Theorem sanitize_id_latin_without_edge_slash
    (rt : Runtime) (text : option str) (max_length : nat) :
  let out := _swedbank_sanitize_id rt text max_length in
  startswith (u "/") out = false /\
  endswith (u "/") out = false /\
  Forall (fun c => In c SWEDBANK_LATIN_CHARS) out /\
  Forall (fun c => ~ In c SWEDISH_LOCAL_CHARS) out.
Proof.
  intros out. subst out.
  rewrite startswith_slash, endswith_slash.
  destruct (sanitize_id_latin_edges rt text max_length) as (Hs & He & L).
  repeat split.
  - exact Hs.
  - exact He.
  - exact L.
  - revert L. apply Forall_impl. intros c Hc Hsw.
    apply in_set_In in Hc.
    assert (K : forallb (fun x => negb (in_set x SWEDBANK_LATIN_CHARS))
                        SWEDISH_LOCAL_CHARS = true) by now vm_compute.
    rewrite forallb_forall in K. specialize (K c Hsw).
    now rewrite Hc in K.
Qed.

(** C9. The identifier sanitizer is idempotent: applied with the same
    maximal length to its own output, it returns that output. *)
Theorem sanitize_id_idempotent
    (rt : Runtime) (text : option str) (max_length : nat) :
  _swedbank_sanitize_id rt (Some (_swedbank_sanitize_id rt text max_length)) max_length =
  _swedbank_sanitize_id rt text max_length.
Proof.
  destruct (sanitize_id_latin_edges rt text max_length) as (Hs & He & Hl).
  pose proof (sanitize_id_bounded rt text max_length) as Hn.
  pose proof (sanitize_id_no_dslash rt text max_length) as Hd.
  remember (_swedbank_sanitize_id rt text max_length) as o eqn:Eo. clear Eo.
  rewrite sanitize_id_strip. unfold _swedbank_sanitize_text.
  destruct o as [| c o']; [reflexivity |].
  rewrite (sanitize_chars_allowed rt _ Hl), (collapse_fixed _ Hd).
  rewrite firstn_all2 by exact Hn.
  now apply strip_slash_fixed.
Qed.

(* ================================================================== *)
(** * Evaluated cases *)

(** The compute method classifies an account as Bankgiro only when it
    has no clearing code. *)
Lemma bankgiro_has_no_clearing_code (bank : PartnerBank.t) :
  _compute_swedbank_account_type bank = Some bankgiro ->
  truthy (PartnerBank.swedbank_clearing_code bank) = false.
Proof.
  unfold _compute_swedbank_account_type.
  destruct (is_iban _); [discriminate |].
  destruct (PartnerBank.acc_number bank) as [[| c s] |]; try discriminate.
  destruct (truthy (PartnerBank.swedbank_clearing_code bank)); [| reflexivity].
  rewrite andb_false_r.
  destruct (_ && _); discriminate.
Qed.

(** The journal's validator never reads the creditor bank account. *)
Lemma validate_payment_ignores_bank (self : Journal.t) (p : Payment.t) :
  forall bank,
    validate_payment self p =
    validate_payment self
      {| Payment.id := Payment.id p;
         Payment.name := Payment.name p;
         Payment.partner_id := Payment.partner_id p;
         Payment.amount := Payment.amount p;
         Payment.currency_id := Payment.currency_id p;
         Payment.partner_bank_id := bank;
         Payment.ref := Payment.ref p;
         Payment.memo := Payment.memo p;
         Payment.date := Payment.date p;
         Payment.swedbank_end_to_end_id := Payment.swedbank_end_to_end_id p;
         Payment.swedbank_instruction_id := Payment.swedbank_instruction_id p;
         Payment.swedbank_service_level := Payment.swedbank_service_level p;
         Payment.swedbank_category_purpose := Payment.swedbank_category_purpose p;
         Payment.swedbank_charge_bearer := Payment.swedbank_charge_bearer p |}.
Proof. reflexivity. Qed.

(** The payment type block is the same for every payment. *)
Lemma pmt_tp_inf_ignores_payment (self : Journal.t) (p q : Payment.t) :
  _swedbank_get_pmt_tp_inf self p = _swedbank_get_pmt_tp_inf self q.
Proof. reflexivity. Qed.

(** C1. On a SEPA journal, a payment in EUR to an account that is not an
    IBAN passes the validator of the document builder and a document is
    built, while the validator of the batch rejects the same payment. *)
Theorem sepa_non_iban_passes_journal_validator :
  _swedbank_validate_payments sepa_journal [payment_eur_not_iban] = inr tt /\
  (exists xml w,
     create_swedbank_credit_transfer plain_runtime sepa_journal
       [payment_eur_not_iban] world0 = (inr xml, w)) /\
  _swedbank_validate_batch
    {| Batch.journal_id := Some sepa_journal;
       Batch.payment_ids := [payment_eur_not_iban];
       Batch.payment_method_code := u "swedbank_ct" |} =
  inl (UserError (msg_sepa_iban (Some (u "PAY1")))).
Proof.
  split; [reflexivity | split; [| reflexivity]].
  eexists. eexists. vm_compute. reflexivity.
Qed.


(** A write of the account number makes the compute method run: for this
    account it assigns BBAN, because of the clearing code, and the scheme
    becomes the code BBAN. *)
Lemma recomputed_account_gets_bban_scheme :
  _compute_swedbank_account_type test_partner_bank_bg = Some bban /\
  test_partner_bank_bban = with_account_type (Some bban) test_partner_bank_bg /\
  exists root w,
    swedbank_root plain_runtime test_journal [payment_to_bban] world0 =
      (inr root, w) /\
    texts (path_cdtr_acct_schme ++ ["Cd"]) root = [Some (u "BBAN")].
Proof.
  split; [reflexivity |]. split; [reflexivity |].
  eexists. eexists. split; vm_compute; reflexivity.
Qed.

(** C3. A payment with service level URGP and category purpose CORT on a
    journal configured with NURG and SUPP: the PmtTpInf block of its group
    carries the journal's codes NURG and SUPP. *)
Theorem payment_type_info_uses_journal_codes :
  Payment.swedbank_service_level payment_urgent = Some URGP /\
  Payment.swedbank_category_purpose payment_urgent = Some CORT /\
  exists root w,
    swedbank_root plain_runtime test_journal [payment_urgent] world0 = (inr root, w) /\
    texts path_svc_lvl root = [Some (u "NURG")] /\
    texts path_ctgy_purp root = [Some (u "SUPP")].
Proof.
  split; [reflexivity | split; [reflexivity |]].
  eexists. eexists. split; [vm_compute; reflexivity |].
  split; vm_compute; reflexivity.
Qed.

(* ================================================================== *)
(** * Validation before generation *)

Lemma startswith_app (n b : str) : startswith n (n ++ b) = true.
Proof.
  induction n as [| c n IH]; [reflexivity |].
  simpl. now rewrite N.eqb_refl, IH.
Qed.

Lemma contains_app (a n b : str) : contains n (a ++ n ++ b) = true.
Proof.
  induction a as [| c a IH].
  - simpl app. destruct (n ++ b) eqn:E; simpl; rewrite <- E;
      now rewrite startswith_app.
  - simpl app. simpl contains. rewrite IH. apply orb_true_r.
Qed.

Lemma contains_quoted (a : str) (name : option str) (b : str) :
  contains (fmt_s name) (a ++ quoted name ++ b) = true.
Proof.
  unfold quoted.
  replace (a ++ ([dquote] ++ fmt_s name ++ [dquote]) ++ b)
    with ((a ++ [dquote]) ++ fmt_s name ++ ([dquote] ++ b))
    by (now rewrite <- !app_assoc).
  apply contains_app.
Qed.

(** Every error of the journal's validator is a [UserError] that names
    the payment it is raised for. *)
Lemma validate_payment_error (self : Journal.t) (q : Payment.t) (e : exception) :
  validate_payment self q = inl e ->
  exists msg, e = UserError msg /\ contains (fmt_s (Payment.name q)) msg = true.
Proof.
  unfold validate_payment.
  destruct (Payment.partner_id q).
  - destruct (le_zero (Payment.amount q)).
    + intros [= <-]. eexists. split; [reflexivity |].
      apply contains_quoted.
    + destruct (_ && _); [| discriminate].
      intros [= <-]. eexists. split; [reflexivity |].
      unfold msg_sepa_currency. rewrite app_assoc. apply contains_quoted.
  - intros [= <-]. eexists. split; [reflexivity |].
    apply contains_quoted.
Qed.

Lemma validate_payment_nonpositive (self : Journal.t) (p : Payment.t) :
  le_zero (Payment.amount p) = true -> validate_payment self p <> inr tt.
Proof.
  intros H. unfold validate_payment.
  destruct (Payment.partner_id p); [| discriminate].
  now rewrite H.
Qed.

Lemma validate_payment_nonpositive_msg (self : Journal.t) (p : Payment.t) :
  Payment.partner_id p <> None -> le_zero (Payment.amount p) = true ->
  validate_payment self p = inl (UserError (msg_invalid_amount (Payment.name p))).
Proof.
  intros Hp H. unfold validate_payment.
  destruct (Payment.partner_id p); [| now destruct Hp].
  now rewrite H.
Qed.

(** The loop stops at the first payment that breaks a rule. *)
Lemma validate_payments_first_offender (self : Journal.t) (payments : list Payment.t) :
  (exists p, In p payments /\ le_zero (Payment.amount p) = true) ->
  exists pre q post msg,
    payments = pre ++ q :: post /\
    _swedbank_validate_payments self pre = inr tt /\
    validate_payment self q = inl (UserError msg) /\
    _swedbank_validate_payments self payments = inl (UserError msg).
Proof.
  induction payments as [| a l IH]; intros (p & Hin & Hp); [destruct Hin |].
  destruct (validate_payment self a) as [e | []] eqn:E.
  - destruct (validate_payment_error _ _ _ E) as (msg & -> & _).
    exists [], a, l, msg. simpl. now rewrite E.
  - destruct Hin as [-> | Hin].
    + now destruct (validate_payment_nonpositive self p Hp).
    + destruct IH as (pre & q & post & msg & -> & Hpre & Hq & Hall);
        [now exists p |].
      exists (a :: pre), q, post, msg. simpl. rewrite E. now repeat split.
Qed.

Section Generation.
Variable rt : Runtime.

(** An error of the tree is an error of the serialized document, in the
    same world. *)
Lemma create_error (self : Journal.t) (payments : list Payment.t) (w w' : world)
    (e : exception) :
  swedbank_root rt self payments w = (inl e, w') ->
  create_swedbank_credit_transfer rt self payments w = (inl e, w').
Proof.
  intros H. unfold create_swedbank_credit_transfer, bind. now rewrite H.
Qed.

(** A failed validation stops the generation where it started: no clock
    reading, no random draw, no element. *)
Lemma root_validation_error (self : Journal.t) (payments : list Payment.t)
    (w : world) (e : exception) :
  truthy (Journal.swedbank_agreement_id self) = true ->
  Journal.bank_account_id self <> None ->
  _swedbank_validate_payments self payments = inl e ->
  swedbank_root rt self payments w = (inl e, w).
Proof.
  intros Ha Hb Hv. unfold swedbank_root. rewrite Ha. simpl negb. cbv iota.
  destruct (Journal.bank_account_id self); [| now destruct Hb].
  unfold bind, lift. now rewrite Hv.
Qed.

End Generation.

(** C7, as stated, fails: the batch holds a payment of amount 0, and the
    error names the payment without partner that comes before it. *)
Lemma earlier_offender_hides_nonpositive_payment :
  In payment_zero [payment_no_partner; payment_zero] /\
  le_zero (Payment.amount payment_zero) = true /\
  create_swedbank_credit_transfer plain_runtime test_journal
    [payment_no_partner; payment_zero] world0 =
  (inl (UserError (msg_no_partner (Some (u "PAY1")))), world0) /\
  ~ rejected_naming plain_runtime test_journal
      [payment_no_partner; payment_zero] world0 payment_zero.
Proof.
  split; [right; now left |].
  split; [reflexivity |].
  assert (E : create_swedbank_credit_transfer plain_runtime test_journal
                [payment_no_partner; payment_zero] world0 =
              (inl (UserError (msg_no_partner (Some (u "PAY1")))), world0))
    by (vm_compute; reflexivity).
  split; [exact E |].
  intros (msg & Hc & Hn). rewrite E in Hc.
  injection Hc as <-. vm_compute in Hn. discriminate.
Qed.

(** C7, amended. For every batch that holds a payment with amount at most
    0, generation raises a [UserError] and returns no document, and it
    does so before any element is built: the world is left as it was.  On
    a journal with agreement ID and bank account, the error is the one of
    the first payment, in batch order, that breaks a rule of the
    validator; its message names that payment, and it is the message for
    an invalid amount when that payment has a partner and an amount at
    most 0. *)
Theorem nonpositive_amount_rejected_at_first_offender
    (rt : Runtime) (self : Journal.t) (payments : list Payment.t) (w : world) :
  (exists p, In p payments /\ le_zero (Payment.amount p) = true) ->
  exists msg,
    create_swedbank_credit_transfer rt self payments w = (inl (UserError msg), w) /\
    (truthy (Journal.swedbank_agreement_id self) = true ->
     Journal.bank_account_id self <> None ->
     exists pre q post,
       payments = pre ++ q :: post /\
       _swedbank_validate_payments self pre = inr tt /\
       validate_payment self q = inl (UserError msg) /\
       contains (fmt_s (Payment.name q)) msg = true /\
       (Payment.partner_id q <> None -> le_zero (Payment.amount q) = true ->
        msg = msg_invalid_amount (Payment.name q))).
Proof.
  intros H.
  destruct (validate_payments_first_offender self payments H)
    as (pre & q & post & msg & E & Hpre & Hq & Hall).
  destruct (truthy (Journal.swedbank_agreement_id self)) eqn:Ha.
  - destruct (Journal.bank_account_id self) as [b |] eqn:Hb.
    + exists msg. split.
      * apply create_error, root_validation_error; [exact Ha | | exact Hall].
        now rewrite Hb.
      * intros _ _. exists pre, q, post.
        destruct (validate_payment_error _ _ _ Hq) as (msg' & [= <-] & Hn).
        repeat split; try assumption.
        intros Hp Hneg.
        rewrite (validate_payment_nonpositive_msg self q Hp Hneg) in Hq.
        now injection Hq.
    + eexists. split.
      * apply create_error. unfold swedbank_root. rewrite Ha, Hb. reflexivity.
      * intros _ K. now destruct K.
  - eexists. split.
    + apply create_error. unfold swedbank_root. rewrite Ha. reflexivity.
    + intros K. discriminate.
Qed.

Lemma nonpositive_amount_rejected_at_first_offender_witness :
  exists msg,
    create_swedbank_credit_transfer plain_runtime test_journal
      [payment_no_partner; payment_zero] world0 = (inl (UserError msg), world0) /\
    (truthy (Journal.swedbank_agreement_id test_journal) = true ->
     Journal.bank_account_id test_journal <> None ->
     exists pre q post,
       [payment_no_partner; payment_zero] = pre ++ q :: post /\
       _swedbank_validate_payments test_journal pre = inr tt /\
       validate_payment test_journal q = inl (UserError msg) /\
       contains (fmt_s (Payment.name q)) msg = true /\
       (Payment.partner_id q <> None -> le_zero (Payment.amount q) = true ->
        msg = msg_invalid_amount (Payment.name q))).
Proof.
  apply (nonpositive_amount_rejected_at_first_offender plain_runtime test_journal
           [payment_no_partner; payment_zero] world0).
  exists payment_zero. split; [right; now left | reflexivity].
Defined.

(* ================================================================== *)
(** * Schema validation *)

Lemma keeps_ret (A : Type) (a : A) : keeps_xsd_file (ret a).
Proof. now intros w. Qed.

Lemma keeps_raise (A : Type) (e : exception) : keeps_xsd_file (@raise A e).
Proof. now intros w. Qed.

Lemma keeps_lift (A : Type) (r : exception + A) : keeps_xsd_file (lift r).
Proof. now intros w. Qed.

Lemma keeps_bind (A B : Type) (m : M A) (f : A -> M B) :
  keeps_xsd_file m -> (forall a, keeps_xsd_file (f a)) -> keeps_xsd_file (bind m f).
Proof.
  intros Hm Hf w. unfold bind. specialize (Hm w).
  destruct (m w) as [[e | a] w']; simpl in *; [exact Hm |].
  now rewrite Hf.
Qed.

Lemma keeps_for_each (A B : Type) (f : A -> M B) (l : list A) :
  (forall a, keeps_xsd_file (f a)) -> keeps_xsd_file (for_each f l).
Proof.
  intros Hf. induction l as [| x l IH]; simpl; [apply keeps_ret |].
  apply keeps_bind; [apply Hf | intros y].
  apply keeps_bind; [exact IH | intros ys; apply keeps_ret].
Qed.

Lemma keeps_datetime_now : keeps_xsd_file datetime_now.
Proof. now intros w. Qed.

Lemma keeps_uuid4_str (rt : Runtime) : keeps_xsd_file (uuid4_str rt).
Proof. now intros w. Qed.

Create HintDb keeps.
#[local] Hint Resolve keeps_ret keeps_raise keeps_lift keeps_datetime_now
  keeps_uuid4_str : keeps.

Ltac keeps :=
  repeat first
    [ progress auto with keeps
    | apply keeps_bind; [| intros ?]
    | apply keeps_for_each; intros ?
    | match goal with
      | |- keeps_xsd_file (if ?b then _ else _) => destruct b
      | |- keeps_xsd_file (match ?x with _ => _ end) => destruct x
      end ].

Section SchemaValidation.
Variable rt : Runtime.

Lemma keeps_cdt_trf_tx_inf (self : Journal.t) (payment : Payment.t) :
  keeps_xsd_file (_swedbank_get_cdt_trf_tx_inf rt self payment).
Proof. unfold _swedbank_get_cdt_trf_tx_inf. keeps. Qed.

Lemma keeps_pmt_inf (self : Journal.t) (payments : list Payment.t) (key : group_key) :
  keeps_xsd_file (_swedbank_get_pmt_inf rt self payments key).
Proof.
  unfold _swedbank_get_pmt_inf. destruct key as [a d].
  destruct payments; [apply keeps_raise |].
  apply keeps_bind; [apply keeps_datetime_now | intros k].
  apply keeps_bind; [apply keeps_lift | intros head].
  apply keeps_bind; [| intros txs; apply keeps_ret].
  apply keeps_for_each, keeps_cdt_trf_tx_inf.
Qed.

Lemma keeps_grp_hdr (self : Journal.t) (payments : list Payment.t) :
  keeps_xsd_file (_swedbank_get_grp_hdr rt self payments).
Proof. unfold _swedbank_get_grp_hdr. keeps. Qed.

Lemma keeps_swedbank_root (self : Journal.t) (payments : list Payment.t) :
  keeps_xsd_file (swedbank_root rt self payments).
Proof.
  unfold swedbank_root.
  destruct (negb _); [apply keeps_raise |].
  destruct (Journal.bank_account_id self); [| apply keeps_raise].
  apply keeps_bind; [apply keeps_lift | intros _].
  apply keeps_bind; [apply keeps_grp_hdr | intros g].
  apply keeps_bind; [| intros x; apply keeps_ret].
  apply keeps_for_each. intros [k ps]. apply keeps_pmt_inf.
Qed.

Lemma keeps_create (self : Journal.t) (payments : list Payment.t) :
  keeps_xsd_file (create_swedbank_credit_transfer rt self payments).
Proof.
  unfold create_swedbank_credit_transfer.
  apply keeps_bind; [apply keeps_swedbank_root | intros r; apply keeps_ret].
Qed.

Lemma get_xsd_schema_unavailable (w : world) :
  schema_unavailable rt w -> _swedbank_get_xsd_schema rt w = (inr None, w).
Proof.
  unfold schema_unavailable, _swedbank_get_xsd_schema.
  destruct (xsd_file w); [reflexivity | reflexivity | now intros ->].
Qed.

Lemma validate_xml_unavailable (self : Journal.t) (xml : bytes) (w : world) :
  schema_unavailable rt w ->
  swedbank_validate_xml rt self xml w = (inr (true, [advisory]), w).
Proof.
  intros H. unfold swedbank_validate_xml, bind.
  now rewrite (get_xsd_schema_unavailable w H).
Qed.

End SchemaValidation.

(** C8. Whenever the schema file is absent, cannot be read or does not
    load, [swedbank_validate_xml] returns valid = true with the single
    advisory message, and [create_swedbank_credit_transfer_validated]
    returns what [create_swedbank_credit_transfer] returns: the generated
    bytes, and no error of its own. *)
Theorem missing_schema_is_advisory_only
    (rt : Runtime) (self : Journal.t) (payments : list Payment.t)
    (xml_content : bytes) (w : world) :
  schema_unavailable rt w ->
  swedbank_validate_xml rt self xml_content w = (inr (true, [advisory]), w) /\
  create_swedbank_credit_transfer_validated rt self payments w =
  create_swedbank_credit_transfer rt self payments w /\
  (forall xml w',
     create_swedbank_credit_transfer rt self payments w = (inr xml, w') ->
     create_swedbank_credit_transfer_validated rt self payments w = (inr xml, w')).
Proof.
  intros H.
  assert (K : create_swedbank_credit_transfer_validated rt self payments w =
              create_swedbank_credit_transfer rt self payments w).
  { unfold create_swedbank_credit_transfer_validated, bind at 1.
    pose proof (keeps_create rt self payments w) as Hk.
    destruct (create_swedbank_credit_transfer rt self payments w) as [[e | xml] w'];
      [reflexivity |].
    simpl in Hk.
    assert (H' : schema_unavailable rt w')
      by (unfold schema_unavailable in *; now rewrite Hk).
    unfold bind. now rewrite (validate_xml_unavailable rt self xml w' H'). }
  split; [now apply validate_xml_unavailable |].
  split; [exact K |].
  intros xml w' E. now rewrite K.
Qed.

Lemma missing_schema_is_advisory_only_witness :
  swedbank_validate_xml plain_runtime test_journal [] world0 =
    (inr (true, [advisory]), world0) /\
  create_swedbank_credit_transfer_validated plain_runtime test_journal
    [payment_1000] world0 =
  create_swedbank_credit_transfer plain_runtime test_journal [payment_1000] world0 /\
  (forall xml w',
     create_swedbank_credit_transfer plain_runtime test_journal [payment_1000] world0 =
       (inr xml, w') ->
     create_swedbank_credit_transfer_validated plain_runtime test_journal
       [payment_1000] world0 = (inr xml, w')).
Proof.
  apply (missing_schema_is_advisory_only plain_runtime test_journal
           [payment_1000] [] world0).
  exact I.
Defined.

(* ================================================================== *)
(** * The end-to-end ID of stored payments *)

Lemma end_to_end_allowed_is_latin : end_to_end_allowed = SWEDBANK_LATIN_CHARS.
Proof. reflexivity. Qed.

Lemma check_end_to_end_id_ok (p : Payment.t) :
  check_end_to_end_id p = inr tt -> end_to_end_id_ok p.
Proof.
  unfold check_end_to_end_id, end_to_end_id_ok.
  destruct (Payment.swedbank_end_to_end_id p) as [[| c s] |]; trivial.
  destruct (startswith (u "/") (c :: s)) eqn:E1; [discriminate |].
  destruct (endswith (u "/") (c :: s)) eqn:E2; [discriminate |].
  destruct (contains (u "//") (c :: s)) eqn:E3; [discriminate |].
  destruct (forallb _ (c :: s)) eqn:E4; [| discriminate].
  intros _. repeat split.
  rewrite forallb_forall in E4. apply Forall_forall. intros x Hx.
  rewrite <- end_to_end_allowed_is_latin. apply in_set_In, E4, Hx.
Qed.

Lemma check_all_end_to_end_ids_ok (records : list Payment.t) :
  _check_swedbank_end_to_end_id records = inr tt ->
  Forall end_to_end_id_ok records.
Proof.
  induction records as [| p l IH]; [constructor |].
  simpl. destruct (check_end_to_end_id p) as [e | []] eqn:E; [discriminate |].
  intros H. constructor; [now apply check_end_to_end_id_ok | now apply IH].
Qed.

Lemma check_all_end_to_end_ids_pass (records : list Payment.t) :
  Forall (fun r => check_end_to_end_id r = inr tt) records ->
  _check_swedbank_end_to_end_id records = inr tt.
Proof.
  induction 1 as [| p l Hp _ IH]; [reflexivity |].
  simpl. now rewrite Hp.
Qed.

(** Strings without [/]. *)
Lemma plain_no_edge_slash (s : str) :
  forallb plain_id_char s = true ->
  starts_slash s = false /\ has_dslash s = false.
Proof.
  induction s as [| c s IH]; [now split |].
  intros H. cbn [forallb] in H. apply andb_true_iff in H as [Hc Hs].
  unfold plain_id_char in Hc. apply andb_true_iff in Hc as [_ Hc].
  apply negb_true_iff in Hc. destruct (IH Hs) as [_ Hd].
  split; [exact Hc |].
  destruct s as [| b r]; [reflexivity |].
  rewrite has_dslash_cons2, Hc, Hd. reflexivity.
Qed.

Lemma forallb_rev (A : Type) (f : A -> bool) (l : list A) :
  forallb f l = true -> forallb f (rev l) = true.
Proof.
  rewrite !forallb_forall. intros H x Hx. apply H, in_rev, Hx.
Qed.

Lemma plain_id_passes (s : str) (p : Payment.t) :
  forallb plain_id_char s = true ->
  check_end_to_end_id (with_end_to_end_id (Some s) p) = inr tt.
Proof.
  intros H. unfold check_end_to_end_id. cbn [with_end_to_end_id Payment.swedbank_end_to_end_id].
  destruct s as [| c s]; [reflexivity |].
  rewrite startswith_slash, endswith_slash, has_dslash_contains.
  destruct (plain_no_edge_slash _ H) as [-> ->].
  destruct (plain_no_edge_slash _ (forallb_rev _ _ _ H)) as [-> _].
  cbn [orb].
  replace (forallb (fun x => in_set x end_to_end_allowed) (c :: s)) with true;
    [reflexivity |].
  symmetry. rewrite forallb_forall in *. intros x Hx.
  specialize (H x Hx). unfold plain_id_char in H.
  now apply andb_true_iff in H as [H _].
Qed.

(** The text of a UUID. *)
Lemma hex_digits_length (k : nat) : forall n, List.length (hex_digits k n) = k.
Proof.
  induction k as [| k IH]; intros n; [reflexivity |].
  simpl. rewrite length_app, IH. simpl. lia.
Qed.

Lemma hex_digit_plain (d : N) : d < 16 -> plain_id_char (hex_digit d) = true.
Proof.
  revert d.
  apply (below_bound_check (fun d => plain_id_char (hex_digit d)) 16).
  now vm_compute.
Qed.

Lemma hex_digits_plain (k : nat) : forall n, forallb plain_id_char (hex_digits k n) = true.
Proof.
  induction k as [| k IH]; intros n; [reflexivity |].
  simpl. rewrite forallb_app, IH. simpl.
  rewrite hex_digit_plain; [reflexivity |].
  apply N.mod_lt. discriminate.
Qed.

Lemma forallb_firstn (A : Type) (f : A -> bool) (n : nat) (l : list A) :
  forallb f l = true -> forallb f (firstn n l) = true.
Proof.
  rewrite !forallb_forall. intros H x Hx. eapply H, firstn_In, Hx.
Qed.

Lemma forallb_skipn (A : Type) (f : A -> bool) (n : nat) (l : list A) :
  forallb f l = true -> forallb f (skipn n l) = true.
Proof.
  rewrite !forallb_forall. intros H x Hx. apply H.
  rewrite <- (firstn_skipn n l). apply in_or_app. now right.
Qed.

Lemma uuid_str_plain (n : N) : forallb plain_id_char (uuid_str n) = true.
Proof.
  unfold uuid_str. cbv zeta.
  pose proof (hex_digits_plain 32 n) as H.
  rewrite !forallb_app.
  rewrite !forallb_firstn, !forallb_skipn by
    (try apply forallb_skipn; exact H).
  reflexivity.
Qed.

Lemma uuid_str_length (n : N) : List.length (uuid_str n) = 36%nat.
Proof.
  unfold uuid_str. cbv zeta.
  pose proof (hex_digits_length 32 n) as H.
  rewrite !length_app, !length_firstn, !length_skipn, H. reflexivity.
Qed.

Lemma uuid_prefix_length (n : N) : List.length (firstn 35 (uuid_str n)) = 35%nat.
Proof. rewrite length_firstn, uuid_str_length. reflexivity. Qed.

Section PaymentProperties.
Variable rt : Runtime.

(** The loop of [create] never raises and never touches the table. *)
Lemma fill_end_to_end_id_spec (vals : Payment.t) (w : world) :
  exists vals' w',
    fill_end_to_end_id rt vals w = (inr vals', w') /\
    payment_table w' = payment_table w /\
    created_from rt vals vals' /\
    truthy (Payment.swedbank_end_to_end_id vals') = true /\
    (check_end_to_end_id vals = inr tt -> check_end_to_end_id vals' = inr tt).
Proof.
  unfold fill_end_to_end_id, created_from.
  destruct (truthy (Payment.swedbank_end_to_end_id vals)) eqn:E; simpl negb; cbv iota.
  - exists vals, w. now rewrite E.
  - eexists. eexists. split; [reflexivity |].
    split; [reflexivity |].
    cbn [with_end_to_end_id Payment.swedbank_end_to_end_id].
    split; [now eexists |].
    split.
    + pose proof (uuid_prefix_length (uuid4 rt (uuid_draws w))) as L.
      destruct (firstn 35 _); [discriminate | reflexivity].
    + intros _. apply plain_id_passes, forallb_firstn, uuid_str_plain.
Qed.

Lemma fill_all_spec (vals_list : list Payment.t) :
  forall w,
  exists filled w',
    for_each (fill_end_to_end_id rt) vals_list w = (inr filled, w') /\
    payment_table w' = payment_table w /\
    Forall2 (created_from rt) vals_list filled /\
    Forall (fun v => truthy (Payment.swedbank_end_to_end_id v) = true) filled /\
    (Forall (fun v => check_end_to_end_id v = inr tt) vals_list ->
     Forall (fun v => check_end_to_end_id v = inr tt) filled).
Proof.
  induction vals_list as [| v l IH]; intros w.
  - exists [], w. repeat split; constructor.
  - destruct (fill_end_to_end_id_spec v w) as (v' & w1 & E1 & T1 & C1 & N1 & K1).
    destruct (IH w1) as (l' & w2 & E2 & T2 & C2 & N2 & K2).
    exists (v' :: l'), w2. simpl. unfold bind at 1. rewrite E1.
    unfold bind at 1. rewrite E2. unfold ret.
    split; [reflexivity |]. split; [congruence |].
    split; [now constructor |]. split; [now constructor |].
    intros H. inversion H; subst. constructor; auto.
Qed.

Lemma assign_ids_end_to_end_id (vals_list : list Payment.t) :
  forall i,
    Forall2 (fun v r => Payment.swedbank_end_to_end_id r =
                        Payment.swedbank_end_to_end_id v)
            vals_list (assign_ids i vals_list).
Proof.
  induction vals_list as [| v l IH]; intros i; simpl; constructor;
    [reflexivity | apply IH].
Qed.

Lemma Forall2_end_to_end_id (P : Payment.t -> Prop) (l l' : list Payment.t) :
  (forall v r, Payment.swedbank_end_to_end_id r = Payment.swedbank_end_to_end_id v ->
               P v -> P r) ->
  Forall2 (fun v r => Payment.swedbank_end_to_end_id r =
                      Payment.swedbank_end_to_end_id v) l l' ->
  Forall P l -> Forall P l'.
Proof.
  intros HP H. induction H as [| v r l l' Hvr _ IH]; intros F; [constructor |].
  inversion F; subst. constructor; [eapply HP; eauto | auto].
Qed.

Lemma check_depends_on_end_to_end_id (v r : Payment.t) :
  Payment.swedbank_end_to_end_id r = Payment.swedbank_end_to_end_id v ->
  check_end_to_end_id v = inr tt -> check_end_to_end_id r = inr tt.
Proof. unfold check_end_to_end_id. now intros ->. Qed.

(** [create] either stores the new records, all with an end-to-end ID,
    or leaves the table as it was. *)
Lemma create_spec (vals_list : list Payment.t) (w : world) :
  exists filled w1,
    for_each (fill_end_to_end_id rt) vals_list w = (inr filled, w1) /\
    payment_table w1 = payment_table w /\
    Forall2 (created_from rt) vals_list filled /\
    Forall (fun v => truthy (Payment.swedbank_end_to_end_id v) = true) filled /\
    (Forall (fun v => check_end_to_end_id v = inr tt) vals_list ->
     Forall (fun v => check_end_to_end_id v = inr tt) filled) /\
    create rt vals_list w = orm_create filled w1.
Proof.
  destruct (fill_all_spec vals_list w) as (filled & w1 & E & T & C & N & K).
  exists filled, w1. repeat split; try assumption.
  unfold create, bind. now rewrite E.
Qed.

Lemma create_keeps_invariant (vals_list : list Payment.t) (w : world) :
  Forall end_to_end_id_ok (payment_table w) ->
  Forall end_to_end_id_ok (payment_table (snd (create rt vals_list w))).
Proof.
  intros H.
  destruct (create_spec vals_list w) as (filled & w1 & _ & T & _ & _ & _ & ->).
  unfold orm_create.
  destruct (_check_swedbank_end_to_end_id _) as [e | []] eqn:E;
    cbn [snd payment_table with_payment_table].
  - now rewrite T.
  - apply check_all_end_to_end_ids_ok in E.
    apply Forall_app. split; [now rewrite T | exact E].
Qed.

Lemma write_keeps_invariant (ids : list N) (value : option str) (w : world) :
  Forall end_to_end_id_ok (payment_table w) ->
  Forall end_to_end_id_ok
    (payment_table (snd (orm_write_end_to_end_id ids value w))).
Proof.
  intros H. unfold orm_write_end_to_end_id. cbv zeta.
  set (written := fun p : Payment.t => existsb (N.eqb (Payment.id p)) ids).
  set (table := map _ (payment_table w)).
  destruct (_check_swedbank_end_to_end_id (filter written table)) as [e | []] eqn:E;
    simpl; [exact H |].
  apply check_all_end_to_end_ids_ok in E.
  rewrite Forall_forall in E, H. apply Forall_forall. intros q Hq.
  destruct (written q) eqn:Wq.
  - apply E, filter_In. now split.
  - apply in_map_iff in Hq as (p & <- & Hp).
    cbv beta in Wq |- *. unfold written in Wq.
    destruct (existsb (N.eqb (Payment.id p)) ids) eqn:Wp; [| now apply H].
    cbn [with_end_to_end_id Payment.id] in Wq. congruence.
Qed.

Lemma reachable_invariant (w : world) :
  reachable rt w -> Forall end_to_end_id_ok (payment_table w).
Proof.
  induction 1 as [w E | w w' _ IH S].
  - rewrite E. constructor.
  - destruct S; [now apply create_keeps_invariant | now apply write_keeps_invariant].
Qed.

End PaymentProperties.

(** C10. In every state of the table of payments that [create] and [write]
    can reach, the end-to-end ID of a stored payment, when set, neither
    starts nor ends with [/], holds no [//] and is made of characters of
    the Swedbank base set.  The records that [create] returns are stored,
    each has a non-empty end-to-end ID, a given ID is kept and a missing
    one is the first 35 characters of a UUID; [create] succeeds whenever
    the IDs that were given pass the constraint. *)
Theorem stored_end_to_end_ids_are_well_formed (rt : Runtime) :
  (forall w, reachable rt w -> Forall end_to_end_id_ok (payment_table w)) /\
  (forall vals_list w records w',
     create rt vals_list w = (inr records, w') ->
     payment_table w' = payment_table w ++ records /\
     Forall (fun r => truthy (Payment.swedbank_end_to_end_id r) = true) records /\
     Forall2 (created_from rt) vals_list records) /\
  (forall n, List.length (firstn 35 (uuid_str n)) = 35%nat) /\
  (forall vals_list w,
     Forall (fun v => check_end_to_end_id v = inr tt) vals_list ->
     exists records w', create rt vals_list w = (inr records, w')).
Proof.
  split; [apply reachable_invariant |].
  split; [| split; [apply uuid_prefix_length |]].
  - intros vals_list w records w' Hc.
    destruct (create_spec rt vals_list w) as (filled & w1 & _ & T & C & N & _ & E).
    rewrite E in Hc. unfold orm_create in Hc.
    destruct (_check_swedbank_end_to_end_id _) as [e | []]; [discriminate |].
    injection Hc as <- <-. cbn [payment_table with_payment_table].
    split; [now rewrite T at 1 |].
    pose proof (assign_ids_end_to_end_id filled (next_id (payment_table w1))) as A.
    split.
    + revert N. apply Forall2_end_to_end_id with (2 := A).
      intros v r ->. trivial.
    + clear -C A. revert C A.
      generalize (assign_ids (next_id (payment_table w1)) filled) as recs.
      intros recs C. revert recs.
      induction C as [| v f l fl Hvf _ IH]; intros recs A;
        inversion A; subst; constructor; [| now apply IH].
      unfold created_from in *.
      destruct (truthy (Payment.swedbank_end_to_end_id v)).
      * congruence.
      * destruct Hvf as (k & Hk). exists k. congruence.
  - intros vals_list w Hv.
    destruct (create_spec rt vals_list w) as (filled & w1 & _ & _ & _ & _ & K & E).
    rewrite E. unfold orm_create.
    specialize (K Hv).
    pose proof (assign_ids_end_to_end_id filled (next_id (payment_table w1))) as A.
    assert (P : Forall (fun r => check_end_to_end_id r = inr tt)
                  (assign_ids (next_id (payment_table w1)) filled)).
    { revert K. apply Forall2_end_to_end_id with (2 := A).
      apply check_depends_on_end_to_end_id. }
    rewrite (check_all_end_to_end_ids_pass _ P). now eexists; eexists.
Qed.

(** The record made from a payment without end-to-end ID, with the first
    draw of the random source being 0. *)
Lemma create_assigns_uuid_prefix :
  exists r w,
    create plain_runtime [payment_1000] world0 = (inr [r], w) /\
    Payment.swedbank_end_to_end_id r =
      Some (u "00000000-0000-0000-0000-00000000000") /\
    payment_table w = [r].
Proof.
  eexists. eexists. split; [vm_compute; reflexivity |].
  split; reflexivity.
Qed.

Lemma stored_end_to_end_ids_are_well_formed_witness :
  Forall end_to_end_id_ok
    (payment_table (snd (create plain_runtime [payment_1000] world0))).
Proof.
  apply (proj1 (stored_end_to_end_ids_are_well_formed plain_runtime)).
  apply reachable_step with (w := world0).
  - now apply reachable_empty.
  - apply step_create.
Defined.

(* ================================================================== *)
(** * Amounts as text *)

Lemma str_to_string_u (s : string) : str_to_string (u s) = s.
Proof.
  unfold str_to_string, u. rewrite map_map.
  rewrite (map_ext _ (fun a => a)) by apply ascii_N_embedding.
  rewrite map_id. apply string_of_list_ascii_of_string.
Qed.

Lemma N_to_uint_nonnil (n : N) : N.to_uint n <> Decimal.Nil.
Proof.
  destruct n as [| p]; [discriminate | apply DecimalPos.Unsigned.to_uint_nonnil].
Qed.

Lemma str_of_N_head (n : N) :
  exists c r, str_of_N n = c :: r /\ is_ascii_digit c = true.
Proof.
  unfold str_of_N. pose proof (N_to_uint_nonnil n) as H.
  destruct (N.to_uint n); [now destruct H | ..];
    eexists; eexists; split; reflexivity.
Qed.

Lemma N_of_str_of_N (n : N) : N_of_str (str_of_N n) = Some n.
Proof.
  destruct (str_of_N_head n) as (c & r & E & _).
  unfold N_of_str. rewrite E, <- E. unfold str_of_N.
  rewrite str_to_string_u, NilEmpty.usu. simpl.
  now rewrite DecimalN.Unsigned.of_to.
Qed.

Lemma digit_is_digit (d : N) : d < 10 -> is_ascii_digit (digit d) = true.
Proof.
  intros H. unfold is_ascii_digit, digit.
  apply andb_true_iff. split; apply N.leb_le; lia.
Qed.

(** Reading back the text of a number of hundredths gives the number. *)
Lemma parse2_unsigned_fmt (m : N) :
  parse2_unsigned (fmt_hundredths m) = Some (Z.of_N m).
Proof.
  unfold parse2_unsigned, fmt_hundredths.
  change (u ".") with [46].
  rewrite rev_app_distr. cbn [rev app].
  assert (H1 : (m mod 100) / 10 < 10).
  { apply N.Div0.div_lt_upper_bound. apply N.mod_lt. discriminate. }
  assert (H0 : m mod 10 < 10) by (apply N.mod_lt; discriminate).
  rewrite (digit_is_digit _ H1), (digit_is_digit _ H0), N.eqb_refl.
  cbn [andb]. rewrite rev_involutive, N_of_str_of_N.
  f_equal. f_equal. unfold digit.
  pose proof (N.div_mod m 100 ltac:(discriminate)) as E1.
  pose proof (N.div_mod (m mod 100) 10 ltac:(discriminate)) as E2.
  assert (E3 : (m mod 100) mod 10 = m mod 10).
  { symmetry. rewrite E1 at 1.
    replace (100 * (m / 100) + m mod 100)
      with (m mod 100 + (10 * (m / 100)) * 10) by lia.
    apply N.Div0.mod_add. }
  rewrite E3 in E2. clear E3 H1 H0.
  generalize dependent (m mod 100 / 10). generalize dependent (m mod 10).
  generalize dependent (m mod 100). generalize dependent (m / 100).
  intros. lia.
Qed.

(** The text of a finite amount reads back as its value in hundredths,
    rounded to the nearest, a tie to the even one. *)
Lemma parse2_fmt2_finite (s : bool) (m : positive) (e : Z) :
  parse2 (fmt2 (SpecFloat.S754_finite s m e)) =
  Some (if s then (- Z.of_N (hundredths m e))%Z else Z.of_N (hundredths m e)).
Proof.
  cbn [fmt2]. destruct s.
  - change (u "-") with [45]. cbn [app parse2]. rewrite N.eqb_refl.
    now rewrite parse2_unsigned_fmt.
  - cbn [app].
    pose proof (parse2_unsigned_fmt (hundredths m e)) as P.
    unfold fmt_hundredths in *.
    destruct (str_of_N_head (hundredths m e / 100)) as (c & r & Ec & Hc).
    rewrite Ec in *. cbn [app parse2].
    replace (c =? 45) with false.
    + cbn [app] in P. exact P.
    + symmetry. apply N.eqb_neq. intros ->. discriminate.
Qed.

(** Texts that lxml accepts: digits, the text of a count, the text of an
    amount. *)
Lemma xml_char_plain (c : char) : 32 <= c -> c < 55296 -> xml_char c = true.
Proof.
  intros H1 H2. unfold xml_char.
  replace (c <? 32) with false by (symmetry; apply N.ltb_ge; lia).
  replace (c <=? 57343) with true by (symmetry; apply N.leb_le; lia).
  replace (55296 <=? c) with false by (symmetry; apply N.leb_gt; lia).
  replace (c =? 65534) with false by (symmetry; apply N.eqb_neq; lia).
  replace (c =? 65535) with false by (symmetry; apply N.eqb_neq; lia).
  reflexivity.
Qed.

Lemma xml_compatible_app (a b : str) :
  xml_compatible (a ++ b) = xml_compatible a && xml_compatible b.
Proof. apply forallb_app. Qed.

Lemma digits_xml_compatible (s : str) :
  forallb is_ascii_digit s = true -> xml_compatible s = true.
Proof.
  unfold xml_compatible. rewrite !forallb_forall. intros H c Hc.
  specialize (H c Hc). unfold is_ascii_digit in H.
  apply andb_true_iff in H as [H1 H2]. apply N.leb_le in H1, H2.
  apply xml_char_plain; lia.
Qed.

Lemma str_of_N_digits (n : N) : forallb is_ascii_digit (str_of_N n) = true.
Proof.
  unfold str_of_N, u. induction (N.to_uint n) as [| d IH | d IH | d IH | d IH
    | d IH | d IH | d IH | d IH | d IH | d IH]; [reflexivity | ..];
    cbn [NilEmpty.string_of_uint list_ascii_of_string map forallb];
    rewrite IH; reflexivity.
Qed.

Lemma str_of_N_xml_compatible (n : N) : xml_compatible (str_of_N n) = true.
Proof. apply digits_xml_compatible, str_of_N_digits. Qed.

Lemma str_of_nat_xml_compatible (n : nat) : xml_compatible (str_of_nat n) = true.
Proof. apply str_of_N_xml_compatible. Qed.

Lemma fmt2_xml_compatible (x : float) : xml_compatible (fmt2 x) = true.
Proof.
  assert (S : forall s : bool, xml_compatible (if s then u "-" else []) = true)
    by (now intros []).
  destruct x as [s | s | | s m e]; cbn [fmt2]; try reflexivity;
    rewrite xml_compatible_app, S; cbn [andb]; try reflexivity.
  unfold fmt_hundredths. rewrite !xml_compatible_app, str_of_N_xml_compatible.
  cbn [andb]. change (xml_compatible (u ".")) with true. cbn [andb].
  apply digits_xml_compatible. cbn [forallb].
  rewrite !digit_is_digit; [reflexivity | |].
  - apply N.mod_lt. discriminate.
  - apply N.Div0.div_lt_upper_bound. apply N.mod_lt. discriminate.
Qed.

(* ================================================================== *)
(** * Grouping *)

Lemma mem_id_In (i : N) (l : list Payment.t) :
  mem_id i l = true -> In i (map Payment.id l).
Proof.
  unfold mem_id. rewrite existsb_exists. intros (p & Hp & E).
  apply N.eqb_eq in E. subst. now apply in_map.
Qed.

Lemma recordset_union_new (g : list Payment.t) (p : Payment.t) :
  ~ In (Payment.id p) (map Payment.id g) -> recordset_union g [p] = g ++ [p].
Proof.
  intros H. simpl. destruct (mem_id (Payment.id p) g) eqn:E; [| reflexivity].
  now apply mem_id_In in E.
Qed.

(** Adding a record that is in no group puts it in exactly one. *)
Lemma groups_add_permutation (key : group_key) (p : Payment.t)
    (groups : list (group_key * list Payment.t)) :
  ~ In (Payment.id p) (map Payment.id (all_payments groups)) ->
  Permutation (all_payments (groups_add key p groups)) (p :: all_payments groups).
Proof.
  unfold all_payments.
  induction groups as [| [k g] rest IH]; intros H.
  - simpl. apply Permutation_refl.
  - cbn [groups_add].
    assert (Hg : ~ In (Payment.id p) (map Payment.id g)).
    { intros K. apply H. cbn [map List.concat snd]. rewrite map_app.
      apply in_or_app. now left. }
    assert (Hr : ~ In (Payment.id p) (map Payment.id (List.concat (map snd rest)))).
    { intros K. apply H. cbn [map List.concat snd]. rewrite map_app.
      apply in_or_app. now right. }
    destruct (group_key_eqb key k).
    + cbn [map List.concat snd]. rewrite (recordset_union_new g p Hg).
      rewrite <- app_assoc. cbn [app].
      apply Permutation_sym, Permutation_middle.
    + cbn [map List.concat snd].
      eapply Permutation_trans;
        [apply Permutation_app_head, IH, Hr |].
      apply Permutation_sym, Permutation_middle.
Qed.

Lemma recordset_union_nonempty (g : list Payment.t) (p : Payment.t) :
  recordset_union g [p] <> [].
Proof.
  simpl. destruct (mem_id (Payment.id p) g) eqn:E.
  - destruct g; [discriminate | discriminate].
  - destruct g; discriminate.
Qed.

Lemma groups_add_nonempty (key : group_key) (p : Payment.t)
    (groups : list (group_key * list Payment.t)) :
  Forall (fun kg => snd kg <> []) groups ->
  Forall (fun kg => snd kg <> []) (groups_add key p groups).
Proof.
  induction 1 as [| [k g] rest Hg Hrest IH].
  - constructor; [apply recordset_union_nonempty | constructor].
  - cbn [groups_add]. destruct (group_key_eqb key k).
    + constructor; [apply recordset_union_nonempty | assumption].
    + constructor; assumption.
Qed.

Section Grouping.
Variable rt : Runtime.
Variable self : Journal.t.

Lemma group_fold (payments : list Payment.t) :
  forall groups,
    NoDup (map Payment.id (all_payments groups ++ payments)) ->
    Forall (fun kg => snd kg <> []) groups ->
    let r := fold_left (fun groups payment =>
                          groups_add (payment_key rt self payment) payment groups)
                       payments groups in
    Permutation (all_payments r) (all_payments groups ++ payments) /\
    Forall (fun kg => snd kg <> []) r.
Proof.
  induction payments as [| p l IH]; intros groups Hnd Hne; cbv zeta.
  - simpl. rewrite app_nil_r. split; [apply Permutation_refl | exact Hne].
  - cbn [fold_left].
    assert (Hp : ~ In (Payment.id p) (map Payment.id (all_payments groups))).
    { rewrite map_app in Hnd. cbn [map] in Hnd.
      apply NoDup_remove_2 in Hnd. intros K. apply Hnd.
      apply in_or_app. now left. }
    pose proof (groups_add_permutation (payment_key rt self p) p groups Hp) as P.
    assert (Q : Permutation (all_payments (groups_add (payment_key rt self p) p groups) ++ l)
                            (all_payments groups ++ p :: l)).
    { eapply Permutation_trans; [apply Permutation_app_tail, P |].
      cbn [app]. apply Permutation_middle. }
    destruct (IH (groups_add (payment_key rt self p) p groups)) as [R N].
    + eapply Permutation_NoDup; [| exact Hnd].
      apply Permutation_map, Permutation_sym, Q.
    + now apply groups_add_nonempty.
    + split; [| exact N].
      eapply Permutation_trans; [exact R | exact Q].
Qed.

(** The groups of a batch of distinct records hold every payment of the
    batch once, and no group is empty. *)
Lemma groups_partition (payments : list Payment.t) :
  NoDup (map Payment.id payments) ->
  Permutation (all_payments (_swedbank_group_payments rt self payments)) payments /\
  Forall (fun kg => snd kg <> []) (_swedbank_group_payments rt self payments).
Proof.
  intros H. apply (group_fold payments []); [exact H | constructor].
Qed.

End Grouping.

(* ================================================================== *)
(** * Lists of elements *)

Lemma for_each_spec (A B : Type) (f : A -> M B) (P : A -> B -> Prop) (l : list A) :
  (forall a, In a l -> forall w, exists b w', f a w = (inr b, w') /\ P a b) ->
  forall w, exists bs w', for_each f l w = (inr bs, w') /\ Forall2 P l bs.
Proof.
  induction l as [| a l IH]; intros H w.
  - exists [], w. split; [reflexivity | constructor].
  - destruct (H a (or_introl eq_refl) w) as (b & w1 & E1 & P1).
    destruct (IH (fun x Hx => H x (or_intror Hx)) w1) as (bs & w2 & E2 & P2).
    exists (b :: bs), w2. simpl. unfold bind at 1. rewrite E1.
    unfold bind at 1. rewrite E2. split; [reflexivity | now constructor].
Qed.

Lemma filter_tag_all (t : string) (l : list element) :
  Forall (fun e => tag e = t) l ->
  filter (fun c => String.eqb (tag c) t) l = l.
Proof.
  induction 1 as [| e l He _ IH]; [reflexivity |].
  simpl. now rewrite He, String.eqb_refl, IH.
Qed.

Lemma filter_tag_none (t : string) (l : list element) :
  Forall (fun e => tag e <> t) l ->
  filter (fun c => String.eqb (tag c) t) l = [].
Proof.
  induction 1 as [| e l He _ IH]; [reflexivity |].
  simpl. apply String.eqb_neq in He. now rewrite He.
Qed.

Lemma texts_cons (t : string) (path : list string) (e : element) :
  texts (t :: path) e =
  flat_map (texts path) (filter (fun c => String.eqb (tag c) t) (children e)).
Proof.
  unfold texts. cbn [select].
  induction (filter _ (children e)) as [| c l IH]; [reflexivity |].
  simpl. now rewrite map_app, IH.
Qed.

Lemma flat_map_Forall2 (A B C : Type) (f : B -> list C) (g : A -> list C)
    (l : list A) (l' : list B) :
  Forall2 (fun a b => f b = g a) l l' -> flat_map f l' = flat_map g l.
Proof.
  induction 1 as [| a b l l' E _ IH]; [reflexivity |].
  simpl. now rewrite E, IH.
Qed.

Lemma Forall2_right (A B : Type) (P : A -> B -> Prop) (Q : B -> Prop)
    (l : list A) (l' : list B) :
  (forall a b, P a b -> Q b) -> Forall2 P l l' -> Forall Q l'.
Proof.
  intros H. induction 1; constructor; eauto.
Qed.

Lemma flat_map_singletons (A B : Type) (f : A -> B) (l : list A) :
  flat_map (fun a => [f a]) l = map f l.
Proof. induction l; simpl; congruence. Qed.

(* ================================================================== *)
(** * The control sums *)

(** C4. Two payments of 1.005 each, in a currency with three decimals,
    pass validation and the document is built.  The CtrlSum of the group
    header and of the single PmtInf block is 2.01, the text of the float
    sum, while each InstdAmt is 1.00, the amount rounded on its own: the
    control sums are not the sum of the instructed amounts, 2.00.  The one
    payment group holds both payments. *)
Theorem control_sum_is_not_the_sum_of_instructed_amounts :
  let payments := [payment_1005 1 "PAY1"; payment_1005 2 "PAY2"] in
  _swedbank_validate_payments test_journal payments = inr tt /\
  map snd (_swedbank_group_payments plain_runtime test_journal payments) =
    [payments] /\
  exists root w,
    swedbank_root plain_runtime test_journal payments world0 = (inr root, w) /\
    create_swedbank_credit_transfer plain_runtime test_journal payments world0 =
      (inr (xml_declaration ++ tostring plain_runtime root), w) /\
    texts path_grp_hdr_ctrl_sum root = [Some (u "2.01")] /\
    texts path_pmt_inf_ctrl_sum root = [Some (u "2.01")] /\
    texts path_instd_amt root = [Some (u "1.00"); Some (u "1.00")] /\
    amounts_of path_grp_hdr_ctrl_sum root = [Some 201%Z] /\
    amounts_of path_pmt_inf_ctrl_sum root = [Some 201%Z] /\
    amounts_of path_instd_amt root = [Some 100%Z; Some 100%Z] /\
    sum_Z [100; 100]%Z <> 201%Z.
Proof.
  cbv zeta. split; [vm_compute; reflexivity |].
  split; [vm_compute; reflexivity |].
  eexists. eexists. split; [vm_compute; reflexivity |].
  repeat split; try (vm_compute; reflexivity).
  vm_compute. discriminate.
Qed.

(** The sums of the evaluated batches do not depend on the version of
    [sum]: with the compensation term of CPython 3.12 the sum of one
    amount is that amount added to 0, and the sum of the two payments of
    1.005, an exact addition, is the same float. *)
Lemma compensated_sum_agrees :
  (forall x, float_sum_compensated [x] = float_sum [x]) /\
  float_sum_compensated
    (map Payment.amount [payment_1005 1 "PAY1"; payment_1005 2 "PAY2"]) =
  float_sum (map Payment.amount [payment_1005 1 "PAY1"; payment_1005 2 "PAY2"]).
Proof.
  split; [reflexivity |]. vm_compute. reflexivity.
Qed.

(* ================================================================== *)
(** * More on the sanitizers *)

Section SanitizerMore.
Variable rt : Runtime.

Lemma sanitize_char_keeps_allowed (allow : bool) (c : char) :
  In c (allowed_chars allow) -> sanitize_char rt allow c = [c].
Proof.
  intros H. unfold sanitize_char. cbv zeta. fold (allowed_chars allow).
  now replace (in_set c (allowed_chars allow)) with true
    by (symmetry; now apply in_set_In).
Qed.

Lemma latin_allowed (allow : bool) (c : char) :
  In c SWEDBANK_LATIN_CHARS -> In c (allowed_chars allow).
Proof.
  intros H. unfold allowed_chars. destruct allow; [| exact H].
  apply in_or_app. now left.
Qed.

Lemma sanitize_char_in_allowed (allow : bool) (c : char) :
  Forall (fun x => In x (allowed_chars allow)) (sanitize_char rt allow c).
Proof.
  unfold sanitize_char. cbv zeta. fold (allowed_chars allow).
  destruct (in_set c (allowed_chars allow)) eqn:A.
  - constructor; [now apply in_set_In | apply Forall_nil].
  - assert (L : forall r, forallb is_ascii_letter r = true ->
                          Forall (fun x => In x (allowed_chars allow)) r).
    { intros r Hr. apply letters_latin in Hr. revert Hr.
      apply Forall_impl. intros x. apply latin_allowed. }
    destruct (dict_get c CHAR_REPLACEMENT_MAP) as [r |] eqn:B.
    + eapply L, replacement_letters, B.
    + destruct (lower rt c) as [| k [| ? ?]]; cbn [dict_get_str];
        try apply Forall_nil.
      destruct (dict_get k CHAR_REPLACEMENT_MAP) as [r |] eqn:D;
        [| apply Forall_nil].
      apply replacement_letters in D.
      destruct (isupper rt c); apply L; [apply str_upper_letters |]; exact D.
Qed.

Lemma sanitize_chars_keep_allowed (allow : bool) (s : str) :
  Forall (fun c => In c (allowed_chars allow)) s ->
  flat_map (sanitize_char rt allow) s = s.
Proof.
  induction 1 as [| c s Hc _ IH]; [reflexivity |].
  cbn [flat_map]. now rewrite (sanitize_char_keeps_allowed allow c Hc), IH.
Qed.

Lemma sanitize_text_in_allowed (text : option str) (n : nat) (allow : bool) :
  Forall (fun c => In c (allowed_chars allow))
         (_swedbank_sanitize_text rt text n allow).
Proof.
  unfold _swedbank_sanitize_text.
  destruct text as [[| c t] |]; try apply Forall_nil.
  apply Forall_forall. intros x Hx.
  apply firstn_In, collapse_In in Hx.
  revert x Hx. apply Forall_forall, Forall_flat_map, Forall_forall.
  intros y _. apply sanitize_char_in_allowed.
Qed.

Lemma sanitize_text_clean (t : str) (n : nat) (allow : bool) :
  Forall (fun c => In c (allowed_chars allow)) t ->
  has_dslash t = false ->
  (List.length t <= n)%nat ->
  _swedbank_sanitize_text rt (Some t) n allow = t.
Proof.
  intros Ha Hd Hn. unfold _swedbank_sanitize_text.
  destruct t as [| c t']; [reflexivity |].
  rewrite (sanitize_chars_keep_allowed allow _ Ha), (collapse_fixed _ Hd).
  now apply firstn_all2.
Qed.

End SanitizerMore.

(** X1. Text that is made of allowed characters (the Latin set, with the
    six Swedish letters when [allow_swedish] is set), holds no [//] and is
    at most [max_length] long is returned unchanged by
    [_swedbank_sanitize_text]. *)
Theorem sanitize_text_keeps_clean_text
    (rt : Runtime) (t : str) (max_length : nat) (allow_swedish : bool) :
  Forall (fun c => In c (allowed_chars allow_swedish)) t ->
  contains (u "//") t = false ->
  (List.length t <= max_length)%nat ->
  _swedbank_sanitize_text rt (Some t) max_length allow_swedish = t.
Proof.
  intros Ha Hd Hn. apply sanitize_text_clean; try assumption.
  now rewrite <- has_dslash_contains.
Qed.

Lemma sanitize_text_keeps_clean_text_witness :
  _swedbank_sanitize_text plain_runtime (Some (u "Foretag AB")) 140 true =
  u "Foretag AB".
Proof.
  apply (sanitize_text_keeps_clean_text plain_runtime (u "Foretag AB") 140 true).
  - apply Forall_forall. intros c Hc. apply in_set_In.
    assert (K : forallb (fun x => in_set x (allowed_chars true)) (u "Foretag AB") = true)
      by now vm_compute.
    rewrite forallb_forall in K. now apply K.
  - now vm_compute.
  - vm_compute. lia.
Defined.

(** X2. [_swedbank_sanitize_text] is idempotent for either setting of
    [allow_swedish]: run again with the same maximal length and flag on its
    own output, it returns that output. *)
Theorem sanitize_text_idempotent
    (rt : Runtime) (text : option str) (max_length : nat) (allow_swedish : bool) :
  _swedbank_sanitize_text rt
    (Some (_swedbank_sanitize_text rt text max_length allow_swedish))
    max_length allow_swedish =
  _swedbank_sanitize_text rt text max_length allow_swedish.
Proof.
  apply sanitize_text_clean.
  - apply sanitize_text_in_allowed.
  - apply sanitize_text_no_dslash.
  - apply sanitize_text_length.
Qed.

(** X3. Every output of [_swedbank_sanitize_id] satisfies the constraint
    [_check_swedbank_end_to_end_id] of the payments when it is stored as an
    end-to-end ID. *)
Theorem sanitized_id_passes_end_to_end_constraint
    (rt : Runtime) (text : option str) (max_length : nat) (p : Payment.t) :
  _check_swedbank_end_to_end_id
    [with_end_to_end_id (Some (_swedbank_sanitize_id rt text max_length)) p] =
  inr tt.
Proof.
  destruct (sanitize_id_latin_edges rt text max_length) as (Hs & He & Hl).
  pose proof (sanitize_id_no_dslash rt text max_length) as Hd.
  cbv zeta in Hs, He, Hl.
  remember (_swedbank_sanitize_id rt text max_length) as o eqn:Eo. clear Eo.
  cbn [_check_swedbank_end_to_end_id]. unfold check_end_to_end_id.
  cbn [with_end_to_end_id Payment.swedbank_end_to_end_id].
  destruct o as [| c o']; [reflexivity |].
  rewrite startswith_slash, endswith_slash, has_dslash_contains, Hs, He, Hd.
  cbn [orb].
  replace (forallb (fun x => in_set x end_to_end_allowed) (c :: o')) with true;
    [reflexivity |].
  symmetry. apply forallb_forall. intros x Hx.
  rewrite end_to_end_allowed_is_latin. apply in_set_In.
  rewrite Forall_forall in Hl. now apply Hl.
Qed.

(* ================================================================== *)
(** * More on grouping *)

Lemma str_eqb_eq (a b : str) : str_eqb a b = true <-> a = b.
Proof.
  revert b. induction a as [| x a IH]; intros [| y b]; simpl; split;
    try discriminate; try reflexivity.
  - intros H. apply andb_true_iff in H as [H1 H2].
    apply N.eqb_eq in H1. apply IH in H2. congruence.
  - intros [= -> ->]. rewrite N.eqb_refl. now apply IH.
Qed.

Lemma group_key_eqb_eq (k1 k2 : group_key) : group_key_eqb k1 k2 = true <-> k1 = k2.
Proof.
  destruct k1 as [a1 d1], k2 as [a2 d2]. unfold group_key_eqb. cbn [fst snd].
  rewrite andb_true_iff, str_eqb_eq. split.
  - intros [Ha ->]. f_equal.
    destruct a1, a2; try discriminate; [| reflexivity].
    apply N.eqb_eq in Ha. now subst.
  - intros [= -> ->]. split; [| reflexivity].
    destruct a2; [apply N.eqb_refl | reflexivity].
Qed.

Lemma group_key_eqb_refl (k : group_key) : group_key_eqb k k = true.
Proof. now apply group_key_eqb_eq. Qed.

Lemma group_key_eqb_neq (k1 k2 : group_key) : k1 <> k2 -> group_key_eqb k1 k2 = false.
Proof.
  intros H. destruct (group_key_eqb k1 k2) eqn:E; [| reflexivity].
  apply group_key_eqb_eq in E. now destruct H.
Qed.

(** The keys after one more payment: a new key goes to the end. *)
Lemma groups_add_keys (key : group_key) (p : Payment.t)
    (groups : list (group_key * list Payment.t)) :
  map fst (groups_add key p groups) =
  if existsb (group_key_eqb key) (map fst groups) then map fst groups
  else map fst groups ++ [key].
Proof.
  induction groups as [| [k g] rest IH]; [reflexivity |].
  cbn [groups_add map fst existsb].
  destruct (group_key_eqb key k); [reflexivity |].
  cbn [map fst orb]. rewrite IH.
  now destruct (existsb (group_key_eqb key) (map fst rest)).
Qed.

Lemma existsb_key_In (key : group_key) (keys : list group_key) :
  existsb (group_key_eqb key) keys = true <-> In key keys.
Proof.
  rewrite existsb_exists. split.
  - intros (k & Hk & E). apply group_key_eqb_eq in E. now subst.
  - intros H. exists key. split; [exact H | apply group_key_eqb_refl].
Qed.

(** The entries after one more payment, for a dict with distinct keys. *)
Lemma groups_add_entries (key : group_key) (p : Payment.t)
    (groups : list (group_key * list Payment.t)) (k : group_key)
    (g : list Payment.t) :
  NoDup (map fst groups) ->
  In (k, g) (groups_add key p groups) ->
  (k <> key /\ In (k, g) groups) \/
  (k = key /\ exists g0, In (k, g0) groups /\ g = recordset_union g0 [p]) \/
  (k = key /\ ~ In key (map fst groups) /\ g = recordset_union [] [p]).
Proof.
  induction groups as [| [k0 g0] rest IH]; intros Hnd Hin.
  - destruct Hin as [[= <- <-] | []]. right; right. now repeat split.
  - cbn [groups_add] in Hin. cbn [map fst] in Hnd.
    apply NoDup_cons_iff in Hnd as [Hk0 Hnd].
    destruct (group_key_eqb key k0) eqn:E.
    + apply group_key_eqb_eq in E. subst k0.
      destruct Hin as [[= <- <-] | Hin].
      * right; left. split; [reflexivity |]. exists g0. split; [now left | reflexivity].
      * left. split; [| now right].
        intros ->. apply Hk0. apply in_map_iff. now exists (key, g).
    + destruct Hin as [[= <- <-] | Hin].
      * left. split; [| now left].
        intros ->. now rewrite group_key_eqb_refl in E.
      * destruct (IH Hnd Hin) as [[H1 H2] | [[H1 (g1 & H2 & H3)] | [H1 [H2 H3]]]].
        -- left. split; [exact H1 | now right].
        -- right; left. split; [exact H1 |]. exists g1. split; [now right | exact H3].
        -- right; right. split; [exact H1 |]. split; [| exact H3].
           cbn [map fst]. intros [K | K]; [| now apply H2].
           subst k0. now rewrite group_key_eqb_refl in E.
Qed.

Section GroupingMore.
Variable rt : Runtime.
Variable self : Journal.t.

Lemma with_key_snoc (k : group_key) (done : list Payment.t) (p : Payment.t) :
  with_key rt self k (done ++ [p]) =
  with_key rt self k done ++
  (if group_key_eqb (payment_key rt self p) k then [p] else []).
Proof. unfold with_key. now rewrite filter_app. Qed.

Lemma with_key_ids (k : group_key) (done : list Payment.t) (i : N) :
  In i (map Payment.id (with_key rt self k done)) -> In i (map Payment.id done).
Proof.
  intros H. apply in_map_iff in H as (q & <- & Hq).
  apply filter_In in Hq as [Hq _]. now apply in_map.
Qed.

Lemma with_key_none (k : group_key) (done : list Payment.t) :
  (forall q, In q done -> payment_key rt self q <> k) ->
  with_key rt self k done = [].
Proof.
  intros H. unfold with_key. induction done as [| q l IH]; [reflexivity |].
  cbn [filter]. rewrite (group_key_eqb_neq _ _ (H q (or_introl eq_refl))).
  apply IH. intros x Hx. apply H. now right.
Qed.

Lemma grouped_step (done : list Payment.t) (p : Payment.t)
    (groups : list (group_key * list Payment.t)) :
  grouped rt self done groups ->
  ~ In (Payment.id p) (map Payment.id done) ->
  grouped rt self (done ++ [p]) (groups_add (payment_key rt self p) p groups).
Proof.
  intros (Hnd & Hg & Hc) Hp. set (key := payment_key rt self p).
  assert (Hkeys := groups_add_keys key p groups).
  split; [| split].
  - rewrite Hkeys. destruct (existsb (group_key_eqb key) (map fst groups)) eqn:E;
      [exact Hnd |].
    apply NoDup_app; [exact Hnd | repeat constructor; now simpl |].
    intros k Hk [<- | []].
    apply existsb_key_In in Hk. congruence.
  - intros k g Hin.
    apply groups_add_entries in Hin; [| exact Hnd].
    rewrite with_key_snoc. fold key.
    destruct Hin as [[H1 H2] | [[-> (g0 & H2 & ->)] | [-> [H2 ->]]]].
    + destruct (Hg k g H2) as [-> Hne].
      rewrite group_key_eqb_neq by congruence.
      now rewrite app_nil_r.
    + destruct (Hg key g0 H2) as [-> Hne].
      rewrite group_key_eqb_refl.
      rewrite recordset_union_new; [split; [reflexivity |] |].
      * intros K. now destruct (with_key rt self key done).
      * intros K. apply Hp. eapply with_key_ids, K.
    + rewrite group_key_eqb_refl.
      rewrite with_key_none.
      * split; [reflexivity | discriminate].
      * intros q Hq K. apply H2. rewrite <- K. now apply Hc.
  - intros q Hq. rewrite Hkeys.
    assert (K : In (payment_key rt self q) (map fst groups ++ [key])).
    { apply in_app_or in Hq as [Hq | [<- | []]].
      - apply in_or_app. left. now apply Hc.
      - apply in_or_app. right. now left. }
    destruct (existsb (group_key_eqb key) (map fst groups)) eqn:E; [| exact K].
    apply in_app_or in K as [K | [<- | []]]; [exact K |].
    now apply existsb_key_In.
Qed.

Lemma grouped_fold (payments : list Payment.t) :
  forall done groups,
    grouped rt self done groups ->
    NoDup (map Payment.id (done ++ payments)) ->
    grouped rt self (done ++ payments)
      (fold_left (fun groups payment =>
                    groups_add (payment_key rt self payment) payment groups)
                 payments groups).
Proof.
  induction payments as [| p l IH]; intros done groups Hg Hnd.
  - now rewrite app_nil_r.
  - cbn [fold_left].
    replace (done ++ p :: l) with ((done ++ [p]) ++ l) in *
      by (now rewrite <- app_assoc).
    apply IH; [| exact Hnd].
    apply grouped_step; [exact Hg |].
    rewrite !map_app in Hnd. apply NoDup_app_remove_r in Hnd.
    apply NoDup_remove_2 in Hnd. now rewrite app_nil_r in Hnd.
Qed.

Lemma grouped_payments (payments : list Payment.t) :
  NoDup (map Payment.id payments) ->
  grouped rt self payments (_swedbank_group_payments rt self payments).
Proof.
  intros H. apply (grouped_fold payments [] []); [| exact H].
  split; [constructor | split; [intros k g [] | intros q []]].
Qed.

(** No group is empty, whatever the batch. *)
Lemma groups_nonempty (payments : list Payment.t) :
  Forall (fun kg => snd kg <> []) (_swedbank_group_payments rt self payments).
Proof.
  unfold _swedbank_group_payments.
  assert (H : Forall (fun kg : group_key * list Payment.t => snd kg <> []) [])
    by constructor.
  revert H. generalize (@nil (group_key * list Payment.t)) as groups.
  induction payments as [| p l IH]; intros groups H; [exact H |].
  cbn [fold_left]. apply IH. now apply groups_add_nonempty.
Qed.

End GroupingMore.

(** X4. For a batch of distinct records, [_swedbank_group_payments] makes
    one group for each distinct key (debtor account, execution date): the
    keys of the groups are pairwise distinct, every payment's key has a
    group, and the group of a key holds exactly the payments of the batch
    with that key, in batch order, and is not empty. *)
Theorem groups_are_the_payments_by_key
    (rt : Runtime) (self : Journal.t) (payments : list Payment.t) :
  NoDup (map Payment.id payments) ->
  let groups := _swedbank_group_payments rt self payments in
  NoDup (map fst groups) /\
  (forall k g, In (k, g) groups ->
     g = filter (fun p => group_key_eqb (payment_key rt self p) k) payments /\
     g <> []) /\
  (forall p, In p payments -> In (payment_key rt self p) (map fst groups)).
Proof.
  intros H. exact (grouped_payments rt self payments H).
Qed.

Lemma groups_are_the_payments_by_key_witness :
  let groups := _swedbank_group_payments plain_runtime test_journal
                  [payment_no_partner; payment_zero] in
  NoDup (map fst groups) /\
  (forall k g, In (k, g) groups ->
     g = filter (fun p => group_key_eqb (payment_key plain_runtime test_journal p) k)
                [payment_no_partner; payment_zero] /\
     g <> []) /\
  (forall p, In p [payment_no_partner; payment_zero] ->
     In (payment_key plain_runtime test_journal p) (map fst groups)).
Proof.
  apply (groups_are_the_payments_by_key plain_runtime test_journal
           [payment_no_partner; payment_zero]).
  repeat constructor; simpl; intuition discriminate.
Defined.

(** X5. The groups keep the order in which their keys first occur: one
    more payment at the end of the batch leaves the keys of the existing
    groups in place and, when its key is new, adds that key at the end. *)
Theorem group_keys_keep_insertion_order
    (rt : Runtime) (self : Journal.t) (payments : list Payment.t) (p : Payment.t) :
  let keys := map fst (_swedbank_group_payments rt self payments) in
  map fst (_swedbank_group_payments rt self (payments ++ [p])) =
  if existsb (group_key_eqb (payment_key rt self p)) keys then keys
  else keys ++ [payment_key rt self p].
Proof.
  cbv zeta. unfold _swedbank_group_payments.
  rewrite fold_left_app. cbn [fold_left]. apply groups_add_keys.
Qed.

(* ================================================================== *)
(** * The builders and lxml *)

(** The sanitizers write only texts that lxml accepts. *)
Lemma allowed_xml_compatible (allow : bool) (s : str) :
  Forall (fun c => In c (allowed_chars allow)) s -> xml_compatible s = true.
Proof.
  intros H. unfold xml_compatible. apply forallb_forall.
  rewrite Forall_forall in H. intros c Hc. specialize (H c Hc).
  assert (A : forallb xml_char (allowed_chars allow) = true)
    by (destruct allow; vm_compute; reflexivity).
  rewrite forallb_forall in A. now apply A.
Qed.

Lemma or_else_falsy (o : option str) : truthy o = false -> or_else o [] = [].
Proof. now destruct o as [[| c s] |]. Qed.

Lemma or_else_truthy (o : option str) (d : str) :
  truthy o = true -> o = Some (or_else o d).
Proof. now destruct o as [[| c s] |]. Qed.

(** The clearing system is SESBA whenever there is one. *)
Lemma clearing_system_sesba (bank : PartnerBank.t) :
  or_else (fst (_get_swedbank_creditor_agent_clearing bank)) (u "SESBA") = u "SESBA".
Proof.
  unfold _get_swedbank_creditor_agent_clearing.
  destruct (PartnerBank.swedbank_account_type bank) as [[] |];
    try reflexivity;
    destruct (truthy (PartnerBank.swedbank_clearing_code bank)); reflexivity.
Qed.

(** The world after one reading of the clock. *)
Lemma datetime_now_run (w : world) :
  datetime_now w = (inr (clock_reads w), snd (datetime_now w)).
Proof. reflexivity. Qed.

Lemma for_each_result (A B : Type) (f : A -> M B) (P : A -> B -> Prop) (l : list A) :
  (forall a w b w', f a w = (inr b, w') -> P a b) ->
  forall w bs w', for_each f l w = (inr bs, w') -> Forall2 P l bs.
Proof.
  intros H. induction l as [| a l IH]; intros w bs w'.
  - intros [= <- _]. constructor.
  - cbn [for_each]. unfold bind at 1.
    destruct (f a w) as [[e | b] w1] eqn:E1; [discriminate |].
    unfold bind at 1.
    destruct (for_each f l w1) as [[e | bs'] w2] eqn:E2; [discriminate |].
    intros [= <- _]. constructor; [now apply (H a w b w1) | now apply (IH w1 bs' w2)].
Qed.

Lemma for_each_error (A B : Type) (f : A -> M B) (Q : exception -> Prop) (l : list A) :
  (forall a, In a l -> forall w e w', f a w = (inl e, w') -> Q e) ->
  forall w e w', for_each f l w = (inl e, w') -> Q e.
Proof.
  induction l as [| a l IH]; intros H w e w'; [discriminate |].
  cbn [for_each]. unfold bind at 1.
  destruct (f a w) as [[e1 | b] w1] eqn:E1.
  - intros [= <- _]. apply (H a (or_introl eq_refl) w e1 w1 E1).
  - unfold bind at 1.
    destruct (for_each f l w1) as [[e2 | bs'] w2] eqn:E2; [| discriminate].
    intros [= <- _].
    apply (IH (fun x Hx => H x (or_intror Hx)) w1 e2 w2 E2).
Qed.

Section Builders.
Variable rt : Runtime.
Variable self : Journal.t.

Lemma sanitize_text_xml_compatible (text : option str) (n : nat) (allow : bool) :
  xml_compatible (_swedbank_sanitize_text rt text n allow) = true.
Proof. apply (allowed_xml_compatible allow), sanitize_text_in_allowed. Qed.

Lemma sanitize_id_xml_compatible (text : option str) (n : nat) :
  xml_compatible (_swedbank_sanitize_id rt text n) = true.
Proof.
  apply (allowed_xml_compatible false).
  now destruct (sanitize_id_latin_edges rt text n) as (_ & _ & H).
Qed.

Ltac lxml :=
  unfold when, Text, TextAttr, TextField;
  rewrite ?sanitize_text_xml_compatible, ?sanitize_id_xml_compatible,
    ?str_of_nat_xml_compatible, ?fmt2_xml_compatible;
  cbn [ebind].

(** The payment type block and the debtor agent hold literals of the
    code, which lxml accepts. *)
Lemma pmt_tp_inf_built (payment : Payment.t) :
  _swedbank_get_pmt_tp_inf self payment = inr (pmt_tp_inf_tree self).
Proof.
  unfold _swedbank_get_pmt_tp_inf, pmt_tp_inf_tree.
  destruct (Journal.swedbank_service_level self) as [[] |];
    destruct (Journal.swedbank_category_purpose self) as [[] |]; reflexivity.
Qed.

Lemma dbtr_agt_built : _swedbank_get_dbtr_agt self = inr dbtr_agt_tree.
Proof. reflexivity. Qed.

Lemma dbtr_built :
  _swedbank_get_dbtr rt self =
  if dbtr_ok self then inr (dbtr_tree rt self) else inl ValueError.
Proof.
  unfold _swedbank_get_dbtr, dbtr_ok, dbtr_tree. cbv zeta. lxml.
  destruct (Company.country_id (Journal.company_id self)) as [c |].
  - lxml. destruct (xml_compatible (Country.code c)); [| reflexivity].
    cbn [ebind].
    destruct (truthy (Company.street (Journal.company_id self)));
      destruct (truthy (Company.city (Journal.company_id self)));
      destruct (truthy (Company.zip (Journal.company_id self))); reflexivity.
  - cbn [ebind].
    destruct (truthy (Company.street (Journal.company_id self)));
      destruct (truthy (Company.city (Journal.company_id self)));
      destruct (truthy (Company.zip (Journal.company_id self))); reflexivity.
Qed.

Lemma dbtr_acct_built :
  _swedbank_get_dbtr_acct rt self =
  if dbtr_acct_ok rt self then inr (dbtr_acct_tree rt self) else inl ValueError.
Proof.
  unfold _swedbank_get_dbtr_acct, dbtr_acct_ok, dbtr_acct_tree, debtor_account.
  cbv zeta. fold (debtor_is_iban self). fold (debtor_currency self).
  destruct (debtor_is_iban self); lxml.
  - destruct (xml_compatible (str_upper rt _)); [| reflexivity].
    cbn [ebind andb].
    destruct (xml_compatible (debtor_currency self)); reflexivity.
  - destruct (xml_compatible (normalize_acc _)); [| reflexivity].
    cbn [ebind andb].
    destruct (_ && isdigit rt _); cbn [ebind];
      destruct (xml_compatible (debtor_currency self)); reflexivity.
Qed.

Lemma cdtr_agt_built (payment : Payment.t) :
  _swedbank_get_cdtr_agt self payment =
  if cdtr_agt_ok payment then inr (cdtr_agt_tree payment) else inl ValueError.
Proof.
  unfold _swedbank_get_cdtr_agt, cdtr_agt_ok, cdtr_agt_tree. cbv zeta.
  destruct (Payment.partner_bank_id payment) as [b |]; [| reflexivity].
  fold (creditor_agent_country payment b).
  pose proof (clearing_system_sesba b) as Hs.
  destruct (_get_swedbank_creditor_agent_clearing b) as [cs cm].
  cbn [fst snd] in *. lxml. rewrite Hs.
  change (xml_compatible (u "SESBA")) with true. cbv iota.
  destruct (truthy (field Bank.bic (PartnerBank.bank_id b))) eqn:Tb.
  - destruct (xml_compatible (or_else (field Bank.bic (PartnerBank.bank_id b)) []));
      [| reflexivity].
    cbn [ebind andb].
    destruct (truthy cm) eqn:Tm.
    + cbn [ebind].
      destruct (xml_compatible (or_else cm [])); [| reflexivity].
      cbn [ebind andb].
      destruct (xml_compatible (creditor_agent_country payment b)); reflexivity.
    + rewrite (or_else_falsy cm Tm). change (xml_compatible []) with true.
      cbn [ebind andb].
      destruct (xml_compatible (creditor_agent_country payment b)); reflexivity.
  - rewrite (or_else_falsy _ Tb). change (xml_compatible []) with true.
    cbn [ebind andb].
    destruct (truthy cm) eqn:Tm.
    + cbn [ebind].
      destruct (xml_compatible (or_else cm [])); [| reflexivity].
      cbn [ebind andb].
      destruct (xml_compatible (creditor_agent_country payment b)); reflexivity.
    + rewrite (or_else_falsy cm Tm). change (xml_compatible []) with true.
      cbn [ebind andb].
      destruct (xml_compatible (creditor_agent_country payment b)); reflexivity.
Qed.

Lemma cdtr_built (payment : Payment.t) :
  _swedbank_get_cdtr rt self payment =
  if cdtr_ok payment then inr (cdtr_tree rt payment) else inl ValueError.
Proof.
  unfold _swedbank_get_cdtr, cdtr_ok, cdtr_tree. cbv zeta. lxml.
  destruct (truthy (field Partner.street (Payment.partner_id payment)));
    destruct (truthy (field Partner.zip (Payment.partner_id payment)));
    destruct (truthy (field Partner.city (Payment.partner_id payment)));
    cbn [ebind];
    (destruct (field Partner.country_id (Payment.partner_id payment)) as [c |];
     [lxml; destruct (xml_compatible (Country.code c)) | ]; reflexivity).
Qed.

Lemma cdtr_acct_built (payment : Payment.t) :
  _swedbank_get_cdtr_acct rt self payment =
  if cdtr_acct_ok rt payment then inr (cdtr_acct_tree rt payment)
  else inl ValueError.
Proof.
  unfold _swedbank_get_cdtr_acct, cdtr_acct_ok, cdtr_acct_tree, creditor_account.
  cbv zeta.
  destruct (Payment.partner_bank_id payment) as [b |]; [| reflexivity].
  destruct (PartnerBank.acc_number b) as [[| c s] |]; try reflexivity.
  cbn [truthy or_else].
  destruct (is_iban (PartnerBank.acc_type b)); lxml.
  - destruct (xml_compatible (str_upper rt _)); reflexivity.
  - destruct (xml_compatible (normalize_acc _)); [| reflexivity].
    cbn [ebind].
    destruct (PartnerBank.swedbank_account_type b) as [[] |]; reflexivity.
Qed.

Lemma rmt_inf_built (payment : Payment.t) :
  _swedbank_get_rmt_inf rt self payment = inr (rmt_inf_tree rt payment).
Proof.
  unfold _swedbank_get_rmt_inf, rmt_inf_tree. cbv zeta.
  destruct (or_else (Payment.ref payment) (or_else (Payment.memo payment) []));
    [reflexivity |].
  lxml. reflexivity.
Qed.

(** A transaction block is built, with some text for the end-to-end ID,
    unless lxml refuses one of its texts. *)
Lemma tx_built (payment : Payment.t) (w : world) :
  exists e2e w',
    _swedbank_get_cdt_trf_tx_inf rt self payment w =
    (if tx_ok rt payment then inr (tx_element rt self payment e2e)
     else inl ValueError, w').
Proof.
  unfold _swedbank_get_cdt_trf_tx_inf. cbv zeta.
  unfold bind at 1, lift at 1. lxml.
  set (e2e := if truthy (Payment.ref payment) then _ else _).
  assert (H : exists s w', e2e w = (inr s, w')).
  { subst e2e. destruct (truthy (Payment.ref payment)); [now eexists; eexists |].
    destruct (truthy (Payment.name payment)); now eexists; eexists. }
  destruct H as (s & w' & Es).
  unfold bind. rewrite Es. exists s, w'. unfold lift. f_equal.
  lxml.
  rewrite cdtr_agt_built, cdtr_built, cdtr_acct_built, rmt_inf_built.
  unfold tx_ok, tx_element.
  destruct (xml_compatible (Currency.name (Payment.currency_id payment)));
    [| reflexivity].
  cbn [ebind andb].
  destruct (cdtr_agt_ok payment); [| reflexivity]. cbn [ebind andb].
  destruct (cdtr_ok payment); [| reflexivity]. cbn [ebind andb].
  destruct (cdtr_acct_ok rt payment); reflexivity.
Qed.

(** A payment information block: the clock is read, then the head is
    written, then the transactions. *)
Lemma pmt_inf_built (first : Payment.t) (rest : list Payment.t)
    (key : group_key) (w : world) :
  _swedbank_get_pmt_inf rt self (first :: rest) key w =
  if pmt_inf_head_ok rt self (snd key) then
    match for_each (_swedbank_get_cdt_trf_tx_inf rt self) (first :: rest)
                   (snd (datetime_now w)) with
    | (inl e, w') => (inl e, w')
    | (inr txs, w') =>
        (inr (Node "PmtInf"
                (pmt_inf_head rt self (first :: rest) (snd key) (clock_reads w)
                 ++ txs)), w')
    end
  else (inl ValueError, snd (datetime_now w)).
Proof.
  destruct key as [account exec_date]. cbn [snd].
  unfold _swedbank_get_pmt_inf. cbv zeta.
  unfold bind at 1. rewrite datetime_now_run.
  unfold bind at 1, lift at 1. lxml.
  change (xml_compatible (u "TRF")) with true.
  change (xml_compatible (u "true")) with true.
  cbv iota. cbn [ebind].
  rewrite pmt_tp_inf_built, dbtr_built, dbtr_acct_built, dbtr_agt_built.
  cbn [ebind]. unfold pmt_inf_head_ok.
  destruct (xml_compatible exec_date); [| reflexivity]. cbn [ebind andb].
  destruct (dbtr_ok self); [| reflexivity]. cbn [ebind andb].
  destruct (dbtr_acct_ok rt self); [| reflexivity]. cbn [ebind].
  assert (C : xml_compatible
                (if is_SEPA (Journal.swedbank_service_level self) then u "SLEV"
                 else match Journal.swedbank_charge_bearer self with
                      | Some c => charge_bearer_code c
                      | None => u "SHAR"
                      end) = true).
  { destruct (is_SEPA _); [reflexivity |].
    destruct (Journal.swedbank_charge_bearer self) as [[] |]; reflexivity. }
  rewrite C. cbn [ebind]. unfold bind, ret.
  destruct (for_each _ _ _) as [[e | txs] w']; reflexivity.
Qed.

(** The group header: the clock is read twice; lxml has to accept the
    time and the agreement ID. *)
Lemma grp_hdr_built (payments : list Payment.t) (w : world) (agreement_id : str) :
  Journal.swedbank_agreement_id self = Some agreement_id ->
  _swedbank_get_grp_hdr rt self payments w =
  (if xml_compatible (now_iso rt (S (clock_reads w))) && xml_compatible agreement_id
   then inr (grp_hdr_tree rt self payments (clock_reads w) (S (clock_reads w))
               agreement_id)
   else inl ValueError,
   snd (datetime_now (snd (datetime_now w)))).
Proof.
  intros Ha. unfold _swedbank_get_grp_hdr. cbv zeta.
  unfold bind at 1. rewrite datetime_now_run.
  unfold bind at 1, lift at 1. lxml.
  unfold bind at 1. rewrite datetime_now_run.
  cbn [clock_reads datetime_now snd]. unfold lift. f_equal.
  rewrite Ha. lxml.
  destruct (xml_compatible (now_iso rt (S (clock_reads w)))); [| reflexivity].
  cbn [ebind andb].
  destruct (xml_compatible agreement_id); reflexivity.
Qed.

End Builders.

(* ================================================================== *)
(** * The shape of the document *)

Section Shape.
Variable rt : Runtime.
Variable self : Journal.t.

Lemma tx_result (p : Payment.t) (w w' : world) (e : element) :
  _swedbank_get_cdt_trf_tx_inf rt self p w = (inr e, w') -> tx_of rt self p e.
Proof.
  destruct (tx_built rt self p w) as (s & w1 & ->).
  destruct (tx_ok rt p); [| discriminate].
  intros [= <- _]. now exists s.
Qed.

Lemma tx_error (p : Payment.t) (w w' : world) (e : exception) :
  _swedbank_get_cdt_trf_tx_inf rt self p w = (inl e, w') -> e = ValueError.
Proof.
  destruct (tx_built rt self p w) as (s & w1 & ->).
  destruct (tx_ok rt p); [discriminate |]. now intros [= <- _].
Qed.

Lemma tx_success (p : Payment.t) (w : world) :
  tx_ok rt p = true ->
  exists e w', _swedbank_get_cdt_trf_tx_inf rt self p w = (inr e, w').
Proof.
  intros H. destruct (tx_built rt self p w) as (s & w1 & ->).
  rewrite H. now eexists; eexists.
Qed.

Lemma pmt_inf_result (kg : group_key * list Payment.t) (w w' : world) (e : element) :
  _swedbank_get_pmt_inf rt self (snd kg) (fst kg) w = (inr e, w') ->
  pmt_inf_of rt self kg e.
Proof.
  destruct kg as [key g]. cbn [fst snd].
  destruct g as [| first rest].
  - unfold _swedbank_get_pmt_inf. destruct key. discriminate.
  - rewrite pmt_inf_built.
    destruct (pmt_inf_head_ok rt self (snd key)); [| discriminate].
    destruct (for_each _ _ _) as [[x | txs] w1] eqn:E; [discriminate |].
    intros [= <- _]. exists (clock_reads w), txs. cbn [fst snd].
    split; [| reflexivity].
    apply (for_each_result _ _ _ (tx_of rt self) _
             (fun a w0 b w0' => tx_result a w0 w0' b) _ _ _ E).
Qed.

Lemma pmt_inf_error (kg : group_key * list Payment.t) (w w' : world) (e : exception) :
  snd kg <> [] ->
  _swedbank_get_pmt_inf rt self (snd kg) (fst kg) w = (inl e, w') ->
  e = ValueError.
Proof.
  destruct kg as [key g]. cbn [fst snd]. intros Hg.
  destruct g as [| first rest]; [now destruct Hg |].
  rewrite pmt_inf_built.
  destruct (pmt_inf_head_ok rt self (snd key)); [| now intros [= <- _]].
  destruct (for_each _ _ _) as [[x | txs] w1] eqn:E; [| discriminate].
  intros [= <- _].
  apply (for_each_error _ _ _ (fun x => x = ValueError) _
           (fun a _ w0 e0 w0' => tx_error a w0 w0' e0) _ _ _ E).
Qed.

Lemma pmt_inf_success (kg : group_key * list Payment.t) (w : world) :
  snd kg <> [] ->
  pmt_inf_head_ok rt self (snd (fst kg)) = true ->
  Forall (fun p => tx_ok rt p = true) (snd kg) ->
  exists e w', _swedbank_get_pmt_inf rt self (snd kg) (fst kg) w = (inr e, w').
Proof.
  destruct kg as [key g]. cbn [fst snd]. intros Hg Hh Ht.
  destruct g as [| first rest]; [now destruct Hg |].
  rewrite pmt_inf_built, Hh.
  destruct (for_each_spec _ _ (_swedbank_get_cdt_trf_tx_inf rt self)
              (fun _ _ => True) (first :: rest)) with (w := snd (datetime_now w))
    as (txs & w2 & E & _).
  { intros a Ha w0. rewrite Forall_forall in Ht.
    destruct (tx_success a w0 (Ht a Ha)) as (e & w1 & Ee).
    now exists e, w1. }
  rewrite E. now eexists; eexists.
Qed.

(** What a document that was built looks like. *)
Lemma root_result (payments : list Payment.t) (w w' : world) (root : element) :
  swedbank_root rt self payments w = (inr root, w') ->
  truthy (Journal.swedbank_agreement_id self) = true /\
  Journal.bank_account_id self <> None /\
  _swedbank_validate_payments self payments = inr tt /\
  exists h infs,
    is_grp_hdr rt self payments h /\
    Forall2 (pmt_inf_of rt self) (_swedbank_group_payments rt self payments) infs /\
    root = Element "Document" document_nsmap [] None
             [ Node "CstmrCdtTrfInitn" (h :: infs) ].
Proof.
  unfold swedbank_root.
  destruct (truthy (Journal.swedbank_agreement_id self)) eqn:Ha;
    cbn [negb]; [| discriminate].
  destruct (Journal.bank_account_id self) as [b |] eqn:Hb; [| discriminate].
  unfold bind at 1, lift.
  destruct (_swedbank_validate_payments self payments) as [e | []] eqn:Hv;
    [discriminate |].
  unfold bind at 1.
  rewrite (grp_hdr_built rt self payments w _ (or_else_truthy _ [] Ha)).
  destruct (_ && _); [| discriminate].
  unfold bind at 1.
  destruct (for_each _ _ _) as [[x | infs] w2] eqn:Ei; [discriminate |].
  intros [= <- _]. repeat split; try discriminate.
  eexists. exists infs. split; [now eexists; eexists; eexists |].
  split; [| reflexivity].
  refine (for_each_result _ _ _ (pmt_inf_of rt self) _ _ _ _ _ Ei).
  intros [k g] w0 e w0' E. exact (pmt_inf_result (k, g) w0 w0' e E).
Qed.

(** Generation after a passed validation raises nothing but lxml's
    [ValueError]. *)
Lemma root_error (payments : list Payment.t) (w w' : world) (e : exception) :
  truthy (Journal.swedbank_agreement_id self) = true ->
  Journal.bank_account_id self <> None ->
  _swedbank_validate_payments self payments = inr tt ->
  swedbank_root rt self payments w = (inl e, w') ->
  e = ValueError.
Proof.
  intros Ha Hb Hv. unfold swedbank_root. rewrite Ha. cbn [negb].
  destruct (Journal.bank_account_id self) as [b |]; [| now destruct Hb].
  unfold bind at 1, lift. rewrite Hv.
  unfold bind at 1.
  rewrite (grp_hdr_built rt self payments w _ (or_else_truthy _ [] Ha)).
  destruct (_ && _); [| now intros [= <- _]].
  unfold bind at 1.
  destruct (for_each _ _ _) as [[x | infs] w2] eqn:Ei; [| discriminate].
  intros [= <- _].
  refine (for_each_error _ _ _ (fun x => x = ValueError) _ _ _ _ _ Ei).
  intros [k g] Hin w0 e0 w0' E.
  pose proof (groups_nonempty rt self payments) as Hne.
  rewrite Forall_forall in Hne.
  exact (pmt_inf_error (k, g) w0 w0' e0 (Hne _ Hin) E).
Qed.

Lemma tx_of_tag (p : Payment.t) (e : element) :
  tx_of rt self p e -> tag e = "CdtTrfTxInf".
Proof. now intros (s & ->). Qed.

Lemma pmt_inf_of_tag (kg : group_key * list Payment.t) (e : element) :
  pmt_inf_of rt self kg e -> tag e = "PmtInf".
Proof. now intros (k & txs & _ & ->). Qed.

(** The transactions of a block are the children after the head. *)
Lemma pmt_inf_txs (g : list Payment.t) (d : str) (k : nat)
    (txs : list element) :
  Forall (fun e => tag e = "CdtTrfTxInf") txs ->
  select ["CdtTrfTxInf"] (Node "PmtInf" (pmt_inf_head rt self g d k ++ txs)) = txs.
Proof.
  intros H. cbn [select children Node]. rewrite filter_app.
  rewrite (filter_tag_all "CdtTrfTxInf" txs H).
  change (filter _ (pmt_inf_head rt self g d k)) with (@nil element).
  cbn [app]. clear H. induction txs as [| e l IH]; [reflexivity |].
  cbn [flat_map select app]. now rewrite IH.
Qed.

(** A leaf of the head is found by its tag. *)
Lemma pmt_inf_leaf (t : string) (g : list Payment.t) (d : str)
    (k : nat) (txs : list element) :
  t <> "CdtTrfTxInf" ->
  Forall (fun e => tag e = "CdtTrfTxInf") txs ->
  texts [t] (Node "PmtInf" (pmt_inf_head rt self g d k ++ txs)) =
  texts [t] (Node "PmtInf" (pmt_inf_head rt self g d k)).
Proof.
  intros Ht H. rewrite !texts_cons. cbn [children Node]. rewrite filter_app.
  rewrite (filter_tag_none t txs); [now rewrite app_nil_r |].
  revert H. apply Forall_impl. intros e ->. congruence.
Qed.

Lemma pmt_inf_of_txs (kg : group_key * list Payment.t) (e : element) :
  pmt_inf_of rt self kg e ->
  Forall2 (tx_of rt self) (snd kg) (select ["CdtTrfTxInf"] e).
Proof.
  intros (k & txs & F & ->).
  rewrite pmt_inf_txs; [exact F |].
  revert F. apply Forall2_right. apply tx_of_tag.
Qed.

Lemma pmt_inf_of_leaf (t : string) (kg : group_key * list Payment.t) (e : element) :
  t <> "CdtTrfTxInf" ->
  pmt_inf_of rt self kg e ->
  exists k,
    texts [t] e =
    texts [t] (Node "PmtInf" (pmt_inf_head rt self (snd kg) (snd (fst kg)) k)).
Proof.
  intros Ht (k & txs & F & ->). exists k.
  apply pmt_inf_leaf; [exact Ht |].
  revert F. apply Forall2_right. apply tx_of_tag.
Qed.

(** The blocks of a document that was built. *)
Lemma root_blocks (payments : list Payment.t) (w w' : world) (root : element) :
  swedbank_root rt self payments w = (inr root, w') ->
  Forall2 (pmt_inf_of rt self) (_swedbank_group_payments rt self payments)
          (select path_pmt_inf root) /\
  exists h, is_grp_hdr rt self payments h /\ select path_grp_hdr root = [h].
Proof.
  intros H. destruct (root_result payments w w' root H)
    as (_ & _ & _ & h & infs & Eh & Fi & ->).
  assert (Ftag : Forall (fun e => tag e = "PmtInf") infs).
  { revert Fi. apply Forall2_right. apply pmt_inf_of_tag. }
  assert (Th : tag h = "GrpHdr") by (now destruct Eh as (k1 & k2 & a & ->)).
  unfold path_pmt_inf, path_grp_hdr.
  cbn [select children filter tag Node String.eqb Ascii.eqb Bool.eqb andb flat_map].
  rewrite Th. cbn [String.eqb Ascii.eqb Bool.eqb andb].
  rewrite (filter_tag_all "PmtInf" infs Ftag).
  rewrite (filter_tag_none "GrpHdr" infs)
    by (revert Ftag; apply Forall_impl; intros e ->; discriminate).
  rewrite !app_nil_r. cbn [flat_map app].
  split.
  - assert (E : forall l : list element, flat_map (fun e => [e]) l = l).
    { induction l as [| a l IH]; [reflexivity |]. cbn [flat_map app].
      now rewrite IH. }
    now rewrite E.
  - exists h. split; [exact Eh | reflexivity].
Qed.

End Shape.

(* ================================================================== *)
(** * Counts, charge bearer, dates and identifiers of the document *)

Lemma flat_map_flat_map (A B C : Type) (f : A -> list B) (g : B -> list C)
    (l : list A) :
  flat_map g (flat_map f l) = flat_map (fun a => flat_map g (f a)) l.
Proof.
  induction l as [| a l IH]; [reflexivity |].
  cbn [flat_map]. now rewrite flat_map_app, IH.
Qed.

Lemma select_app (p q : list string) :
  forall e, select (p ++ q) e = flat_map (select q) (select p e).
Proof.
  induction p as [| t p IH]; intros e.
  - cbn [app select flat_map]. now rewrite app_nil_r.
  - cbn [app select]. rewrite flat_map_flat_map.
    apply flat_map_ext. intros c. apply IH.
Qed.

Lemma texts_app (p q : list string) (e : element) :
  texts (p ++ q) e = flat_map (texts q) (select p e).
Proof.
  unfold texts. rewrite select_app.
  induction (select p e) as [| c l IH]; [reflexivity |].
  cbn [flat_map]. now rewrite map_app, IH.
Qed.

Lemma flat_map_length_Forall2 (A B C : Type) (f : B -> list C) (g : A -> nat)
    (l : list A) (l' : list B) :
  Forall2 (fun a b => List.length (f b) = g a) l l' ->
  List.length (flat_map f l') = fold_right Nat.add 0%nat (map g l).
Proof.
  induction 1 as [| a b l l' E _ IH]; [reflexivity |].
  cbn [flat_map map fold_right]. now rewrite length_app, E, IH.
Qed.

Lemma all_payments_length (groups : list (group_key * list Payment.t)) :
  List.length (all_payments groups) =
  fold_right Nat.add 0%nat (map (fun kg => List.length (snd kg)) groups).
Proof.
  unfold all_payments. induction groups as [| kg l IH]; [reflexivity |].
  cbn [map List.concat fold_right]. now rewrite length_app, IH.
Qed.

Lemma Forall2_length_eq (A B : Type) (P : A -> B -> Prop) (l : list A) (l' : list B) :
  Forall2 P l l' -> List.length l = List.length l'.
Proof. induction 1; simpl; congruence. Qed.

Section Counts.
Variable rt : Runtime.
Variable self : Journal.t.

Lemma well_formed_sanitized_id (text : option str) :
  well_formed_id (_swedbank_sanitize_id rt text 35).
Proof.
  destruct (sanitize_id_latin_edges rt text 35) as (Hs & He & Hl).
  cbv zeta in Hs, He, Hl.
  repeat split.
  - apply sanitize_id_bounded.
  - now rewrite startswith_slash.
  - now rewrite endswith_slash.
  - rewrite has_dslash_contains. apply sanitize_id_no_dslash.
  - exact Hl.
Qed.

(** The leaves of the group header. *)
Lemma grp_hdr_leaves (payments : list Payment.t) (h : element) :
  is_grp_hdr rt self payments h ->
  texts ["NbOfTxs"] h = [Some (str_of_nat (List.length payments))] /\
  exists text, texts ["MsgId"] h = [Some (_swedbank_sanitize_id rt text 35)].
Proof.
  intros (k1 & k2 & a & ->).
  split; [reflexivity |].
  exists (Some (u "MSG-" ++ str_of_N (Company.id (Journal.company_id self)) ++
                u "-" ++ now_compact rt k1)).
  reflexivity.
Qed.

Lemma cdtr_agt_tag (p : Payment.t) (e : element) :
  cdtr_agt_tree p = Some e -> tag e = "CdtrAgt".
Proof.
  unfold cdtr_agt_tree.
  destruct (Payment.partner_bank_id p) as [b |]; [| discriminate].
  now intros [= <-].
Qed.

Lemma cdtr_acct_tag (p : Payment.t) (e : element) :
  cdtr_acct_tree rt p = Some e -> tag e = "CdtrAcct".
Proof.
  unfold cdtr_acct_tree.
  destruct (Payment.partner_bank_id p) as [b |]; [| discriminate].
  destruct (truthy (PartnerBank.acc_number b)); [| discriminate].
  now intros [= <-].
Qed.

Lemma rmt_inf_tag (p : Payment.t) (e : element) :
  rmt_inf_tree rt p = Some e -> tag e = "RmtInf".
Proof.
  unfold rmt_inf_tree.
  destruct (or_else _ _); [discriminate |].
  now intros [= <-].
Qed.

Lemma opt_elem_no_tag (o : option element) (t t' : string) :
  (forall e, o = Some e -> tag e = t') -> t' <> t ->
  filter (fun c => String.eqb (tag c) t) (opt_elem o) = [].
Proof.
  intros H Ht. destruct o as [e |]; [| reflexivity].
  simpl. rewrite (H e eq_refl).
  apply String.eqb_neq in Ht. now rewrite Ht.
Qed.

(** Per-block texts of the document. *)
Lemma root_block_texts (payments : list Payment.t) (w w' : world) (root : element)
    (q : list string) (P : group_key * list Payment.t -> list (option str) -> Prop) :
  swedbank_root rt self payments w = (inr root, w') ->
  (forall kg e, pmt_inf_of rt self kg e -> P kg (texts q e)) ->
  Forall2 (fun kg e => P kg (texts q e))
          (_swedbank_group_payments rt self payments) (select path_pmt_inf root).
Proof.
  intros H HP. destruct (root_blocks rt self payments w w' root H) as [F _].
  revert F. apply Forall2_impl. exact HP.
Qed.

Lemma tx_tail_filter (p : Payment.t) (t : string) :
  t <> "CdtrAgt" -> t <> "Cdtr" -> t <> "CdtrAcct" -> t <> "RmtInf" ->
  filter (fun c => String.eqb (tag c) t)
    (opt_elem (cdtr_agt_tree p) ++
     cdtr_tree rt p ::
     opt_elem (cdtr_acct_tree rt p) ++
     opt_elem (rmt_inf_tree rt p)) = [].
Proof.
  intros H1 H2 H3 H4. rewrite filter_app. cbn [filter].
  rewrite (opt_elem_no_tag _ t "CdtrAgt" (cdtr_agt_tag p)) by congruence.
  change (tag (cdtr_tree rt p)) with "Cdtr".
  replace (String.eqb "Cdtr" t) with false
    by (symmetry; apply String.eqb_neq; congruence).
  rewrite filter_app.
  rewrite (opt_elem_no_tag _ t "CdtrAcct" (cdtr_acct_tag p)) by congruence.
  rewrite (opt_elem_no_tag _ t "RmtInf" (rmt_inf_tag p)) by congruence.
  reflexivity.
Qed.

Lemma tx_ids (p : Payment.t) (e : element) :
  tx_of rt self p e ->
  Forall holds_id (texts ["PmtId"; "InstrId"] e) /\
  Forall holds_id (texts ["PmtId"; "EndToEndId"] e).
Proof.
  intros (s & ->). unfold tx_element.
  rewrite !(texts_cons "PmtId"). cbn [children Node filter tag].
  cbn [String.eqb Ascii.eqb Bool.eqb andb].
  rewrite (tx_tail_filter p "PmtId") by discriminate.
  cbn [flat_map app].
  split; (constructor; [| constructor]); eexists; (split; [reflexivity |]);
    apply well_formed_sanitized_id.
Qed.

Lemma flat_map_Forall (A B : Type) (f : A -> list B) (P : B -> Prop) (l : list A) :
  Forall (fun a => Forall P (f a)) l -> Forall P (flat_map f l).
Proof. intros H. now apply Forall_flat_map. Qed.

End Counts.

(** X6. In every document that is built, NbOfTxs of the group header is
    the number of payments given, NbOfTxs of each PmtInf block is the
    number of CdtTrfTxInf blocks it holds, and for a batch of distinct
    records the document holds exactly one CdtTrfTxInf for each payment. *)
Theorem transaction_counts_agree
    (rt : Runtime) (self : Journal.t) (payments : list Payment.t)
    (w w' : world) (root : element) :
  swedbank_root rt self payments w = (inr root, w') ->
  texts (path_grp_hdr ++ ["NbOfTxs"]) root =
    [Some (str_of_nat (List.length payments))] /\
  Forall (fun e => texts ["NbOfTxs"] e =
                   [Some (str_of_nat (List.length (select ["CdtTrfTxInf"] e)))])
         (select path_pmt_inf root) /\
  (NoDup (map Payment.id payments) ->
   List.length (select path_cdt_trf_tx_inf root) = List.length payments).
Proof.
  intros H.
  destruct (root_blocks rt self payments w w' root H) as (F & h & Eh & Sh).
  split; [| split].
  - rewrite texts_app, Sh. cbn [flat_map]. rewrite app_nil_r.
    now destruct (grp_hdr_leaves rt self payments _ Eh) as [-> _].
  - revert F. apply Forall2_right. intros kg e He.
    pose proof (Forall2_length_eq _ _ _ _ _ (pmt_inf_of_txs rt self kg e He)) as L.
    destruct (pmt_inf_of_leaf rt self "NbOfTxs" kg e ltac:(discriminate) He)
      as (k & ->).
    rewrite <- L. reflexivity.
  - intros Hnd. unfold path_cdt_trf_tx_inf. rewrite select_app.
    rewrite (flat_map_length_Forall2 _ _ _ (select ["CdtTrfTxInf"])
               (fun kg => List.length (snd kg))
               (_swedbank_group_payments rt self payments)).
    + rewrite <- all_payments_length.
      apply Permutation_length. now apply groups_partition.
    + revert F. apply Forall2_impl. intros kg e He. symmetry.
      apply (Forall2_length_eq _ _ _ _ _ (pmt_inf_of_txs rt self kg e He)).
Qed.

Lemma transaction_counts_agree_witness :
  exists root w',
    swedbank_root plain_runtime test_journal [payment_1000] world0 = (inr root, w') /\
    texts (path_grp_hdr ++ ["NbOfTxs"]) root = [Some (str_of_nat 1)] /\
    Forall (fun e => texts ["NbOfTxs"] e =
                     [Some (str_of_nat (List.length (select ["CdtTrfTxInf"] e)))])
           (select path_pmt_inf root) /\
    (NoDup (map Payment.id [payment_1000]) ->
     List.length (select path_cdt_trf_tx_inf root) = 1%nat).
Proof.
  eexists. eexists. split; [vm_compute; reflexivity |].
  eapply (transaction_counts_agree plain_runtime test_journal [payment_1000] world0).
  vm_compute. reflexivity.
Defined.

(** X7. In every document that is built, each PmtInf block carries one
    ChrgBr: SLEV when the journal's service level is SEPA, whatever charge
    bearer is configured, and otherwise the configured charge bearer, or
    SHAR when none is configured. *)
Theorem charge_bearer_of_every_block
    (rt : Runtime) (self : Journal.t) (payments : list Payment.t)
    (w w' : world) (root : element) :
  swedbank_root rt self payments w = (inr root, w') ->
  Forall (fun e => texts ["ChrgBr"] e = [Some (charge_bearer_text self)])
         (select path_pmt_inf root) /\
  (Journal.swedbank_service_level self = Some SEPA ->
   charge_bearer_text self = u "SLEV") /\
  (is_SEPA (Journal.swedbank_service_level self) = false ->
   charge_bearer_text self =
   match Journal.swedbank_charge_bearer self with
   | Some c => charge_bearer_code c
   | None => u "SHAR"
   end).
Proof.
  intros H.
  destruct (root_blocks rt self payments w w' root H) as (F & _).
  split; [| split].
  - revert F. apply Forall2_right. intros kg e He.
    destruct (pmt_inf_of_leaf rt self "ChrgBr" kg e ltac:(discriminate) He)
      as (k & ->).
    reflexivity.
  - unfold charge_bearer_text. now intros ->.
  - unfold charge_bearer_text. now intros ->.
Qed.

Lemma charge_bearer_of_every_block_witness :
  exists root w',
    swedbank_root plain_runtime sepa_journal [payment_eur_not_iban] world0 =
      (inr root, w') /\
    Forall (fun e => texts ["ChrgBr"] e = [Some (charge_bearer_text sepa_journal)])
           (select path_pmt_inf root) /\
    (Journal.swedbank_service_level sepa_journal = Some SEPA ->
     charge_bearer_text sepa_journal = u "SLEV") /\
    (is_SEPA (Journal.swedbank_service_level sepa_journal) = false ->
     charge_bearer_text sepa_journal =
     match Journal.swedbank_charge_bearer sepa_journal with
     | Some c => charge_bearer_code c
     | None => u "SHAR"
     end).
Proof.
  eexists. eexists. split; [vm_compute; reflexivity |].
  eapply (charge_bearer_of_every_block plain_runtime sepa_journal
            [payment_eur_not_iban] world0).
  vm_compute. reflexivity.
Defined.

(** X8. In every document that is built, the message ID, every payment
    information ID, every instruction ID and every end-to-end ID is at most
    35 characters long, neither starts nor ends with [/], holds no [//]
    and is made of characters of the Latin base set. *)
Theorem document_identifiers_are_well_formed
    (rt : Runtime) (self : Journal.t) (payments : list Payment.t)
    (w w' : world) (root : element) :
  swedbank_root rt self payments w = (inr root, w') ->
  Forall holds_id (texts path_msg_id root) /\
  Forall holds_id (texts path_pmt_inf_id root) /\
  Forall holds_id (texts path_instr_id root) /\
  Forall holds_id (texts path_end_to_end_id root).
Proof.
  intros H.
  destruct (root_blocks rt self payments w w' root H) as (F & h & Eh & Sh).
  assert (B : Forall (fun e => exists kg, pmt_inf_of rt self kg e)
                     (select path_pmt_inf root)).
  { revert F. apply Forall2_right. intros kg e He. now exists kg. }
  assert (T : Forall (fun e => exists p, tx_of rt self p e)
                     (select path_cdt_trf_tx_inf root)).
  { unfold path_cdt_trf_tx_inf. rewrite select_app.
    apply flat_map_Forall. revert B. apply Forall_impl.
    intros e (kg & He). pose proof (pmt_inf_of_txs rt self kg e He) as Ft.
    revert Ft. apply Forall2_right. intros p x Hx. now exists p. }
  split; [| split; [| split]].
  - unfold path_msg_id. rewrite texts_app, Sh. cbn [flat_map]. rewrite app_nil_r.
    destruct (grp_hdr_leaves rt self payments _ Eh) as [_ (text & ->)].
    constructor; [| constructor]. eexists. split; [reflexivity |].
    apply well_formed_sanitized_id.
  - unfold path_pmt_inf_id. rewrite texts_app.
    apply flat_map_Forall. revert B. apply Forall_impl.
    intros e (kg & He).
    destruct (pmt_inf_of_leaf rt self "PmtInfId" kg e ltac:(discriminate) He)
      as (k & ->).
    constructor; [| constructor]. eexists. split; [reflexivity |].
    apply well_formed_sanitized_id.
  - unfold path_instr_id. rewrite texts_app.
    apply flat_map_Forall. revert T. apply Forall_impl.
    intros e (p & He). now destruct (tx_ids rt self p e He).
  - unfold path_end_to_end_id. rewrite texts_app.
    apply flat_map_Forall. revert T. apply Forall_impl.
    intros e (p & He). now destruct (tx_ids rt self p e He).
Qed.

Lemma document_identifiers_are_well_formed_witness :
  exists root w',
    swedbank_root plain_runtime test_journal [payment_1000] world0 = (inr root, w') /\
    Forall holds_id (texts path_msg_id root) /\
    Forall holds_id (texts path_pmt_inf_id root) /\
    Forall holds_id (texts path_instr_id root) /\
    Forall holds_id (texts path_end_to_end_id root).
Proof.
  eexists. eexists. split; [vm_compute; reflexivity |].
  eapply (document_identifiers_are_well_formed plain_runtime test_journal
            [payment_1000] world0).
  vm_compute. reflexivity.
Defined.

(* ================================================================== *)
(** * Execution dates and the order of a transaction block *)

Lemma texts_of_blocks (A : Type) (q : list string) (g : A -> option str)
    (l : list A) (infs : list element) :
  Forall2 (fun a e => texts q e = [g a]) l infs ->
  flat_map (texts q) infs = map g l.
Proof.
  intros F. rewrite <- flat_map_singletons. now apply flat_map_Forall2.
Qed.

Section Dates.
Variable rt : Runtime.
Variable self : Journal.t.

Lemma payment_key_date (p : Payment.t) :
  payment_key rt self p =
  (option_map PartnerBank.id (Journal.bank_account_id self), exec_date_of rt p).
Proof. reflexivity. Qed.

Lemma fold_keys_of_payments (all : list Payment.t) :
  forall l groups,
    (forall p, In p l -> In p all) ->
    (forall k0, In k0 (map fst groups) ->
                exists p, In p all /\ payment_key rt self p = k0) ->
    forall k,
      In k (map fst (fold_left (fun groups payment =>
                                  groups_add (payment_key rt self payment)
                                             payment groups) l groups)) ->
      exists p, In p all /\ payment_key rt self p = k.
Proof.
  induction l as [| a l IH]; intros groups Hsub H0 k; cbn [fold_left];
    [apply H0 |].
  apply IH.
  - intros p Hp. apply Hsub. now right.
  - intros k0. rewrite groups_add_keys.
    destruct (existsb _ _); [apply H0 |].
    intros Hin. apply in_app_or in Hin as [Hin | [<- | []]]; [now apply H0 |].
    exists a. split; [apply Hsub; now left | reflexivity].
Qed.

(** Every key of a group is the key of a payment of the batch. *)
Lemma group_key_of_payment (payments : list Payment.t) (k : group_key) :
  In k (map fst (_swedbank_group_payments rt self payments)) ->
  exists p, In p payments /\ payment_key rt self p = k.
Proof.
  apply (fold_keys_of_payments payments payments []); [trivial |].
  intros k0 [].
Qed.

End Dates.

(** X9. In every document built from a batch of distinct records, the
    PmtInf blocks carry pairwise distinct execution dates, and a date is
    the ReqdExctnDt of a block exactly when it is the execution date (the
    payment's date, or today's when it has none) of a payment of the
    batch. *)
Theorem one_block_for_each_execution_date
    (rt : Runtime) (self : Journal.t) (payments : list Payment.t)
    (w w' : world) (root : element) :
  swedbank_root rt self payments w = (inr root, w') ->
  NoDup (map Payment.id payments) ->
  NoDup (texts path_reqd_exctn_dt root) /\
  (forall d, In (Some d) (texts path_reqd_exctn_dt root) <->
             exists p, In p payments /\ exec_date_of rt p = d).
Proof.
  intros H Hnd.
  destruct (root_blocks rt self payments w w' root H) as (F & _).
  destruct (grouped_payments rt self payments Hnd) as (Kd & _ & Kc).
  assert (E : texts path_reqd_exctn_dt root =
              map (fun k : group_key => Some (snd k))
                  (map fst (_swedbank_group_payments rt self payments))).
  { unfold path_reqd_exctn_dt. rewrite texts_app, map_map.
    apply texts_of_blocks. revert F. apply Forall2_impl. intros kg e He.
    destruct (pmt_inf_of_leaf rt self "ReqdExctnDt" kg e ltac:(discriminate) He)
      as (k & ->).
    reflexivity. }
  rewrite E. split.
  - apply NoDup_map_NoDup_ForallPairs; [| exact Kd].
    intros k1 k2 H1 H2 [= E12].
    destruct (group_key_of_payment rt self payments k1 H1) as (p1 & _ & <-).
    destruct (group_key_of_payment rt self payments k2 H2) as (p2 & _ & <-).
    rewrite !payment_key_date in *. cbn [snd] in E12. now rewrite E12.
  - intros d. rewrite in_map_iff. split.
    + intros (k & [= <-] & Hk).
      destruct (group_key_of_payment rt self payments k Hk) as (p & Hp & <-).
      now exists p.
    + intros (p & Hp & <-). exists (payment_key rt self p).
      split; [reflexivity | now apply Kc].
Qed.

Lemma one_block_for_each_execution_date_witness :
  exists root w',
    swedbank_root plain_runtime test_journal [payment_1000] world0 = (inr root, w') /\
    NoDup (texts path_reqd_exctn_dt root) /\
    (forall d, In (Some d) (texts path_reqd_exctn_dt root) <->
               exists p, In p [payment_1000] /\ exec_date_of plain_runtime p = d).
Proof.
  eexists. eexists. split; [vm_compute; reflexivity |].
  eapply (one_block_for_each_execution_date plain_runtime test_journal
            [payment_1000] world0).
  - vm_compute. reflexivity.
  - repeat constructor. simpl. tauto.
Defined.

(** X10. A transaction block that [_swedbank_get_cdt_trf_tx_inf] returns
    has its children in the order of the schema: PmtId, Amt, then CdtrAgt
    when the payment has a bank account, Cdtr, then CdtrAcct when that
    bank account has an account number, then RmtInf when the payment has a
    reference or a memo.  The block is returned when lxml accepts the
    texts of the payment that no sanitizer cleans (the currency name, the
    BIC, the clearing member, the country codes and the account number);
    otherwise lxml's ValueError is raised. *)
Theorem transaction_children_in_schema_order
    (rt : Runtime) (self : Journal.t) (payment : Payment.t) (w : world) :
  (forall e w',
     _swedbank_get_cdt_trf_tx_inf rt self payment w = (inr e, w') ->
     tag e = "CdtTrfTxInf" /\
     map tag (children e) = tx_child_tags payment) /\
  (tx_ok rt payment = true ->
   exists e w', _swedbank_get_cdt_trf_tx_inf rt self payment w = (inr e, w')) /\
  (tx_ok rt payment = false ->
   exists w', _swedbank_get_cdt_trf_tx_inf rt self payment w = (inl ValueError, w')).
Proof.
  split; [| split].
  - intros e w' E. destruct (tx_result rt self payment w w' e E) as (s & ->).
    split; [reflexivity |].
    unfold tx_element, tx_child_tags. cbn [children Node map tag app].
    do 2 f_equal. rewrite map_app. cbn [map]. rewrite map_app.
    change (tag (cdtr_tree rt payment)) with "Cdtr".
    unfold cdtr_agt_tree, cdtr_acct_tree, rmt_inf_tree.
    cbv zeta.
    destruct (Payment.partner_bank_id payment) as [b |]; cbn [field].
    + cbn [opt_elem map tag Node app]. do 2 f_equal.
      destruct (PartnerBank.acc_number b) as [[| c n] |];
        cbn [truthy opt_elem map tag Node app];
        destruct (Payment.ref payment) as [[| ? ?] |];
        destruct (Payment.memo payment) as [[| ? ?] |]; reflexivity.
    + cbn [opt_elem map tag Node app truthy]. f_equal.
      destruct (Payment.ref payment) as [[| ? ?] |];
        destruct (Payment.memo payment) as [[| ? ?] |]; reflexivity.
  - apply tx_success.
  - intros H. destruct (tx_built rt self payment w) as (s & w1 & E).
    rewrite H in E. now exists w1.
Qed.

Lemma transaction_children_in_schema_order_witness :
  (exists e w',
     _swedbank_get_cdt_trf_tx_inf plain_runtime test_journal payment_1000 world0 =
       (inr e, w')) /\
  (exists w',
     _swedbank_get_cdt_trf_tx_inf plain_runtime test_journal payment_control world0 =
       (inl ValueError, w')).
Proof.
  split.
  - apply (proj1 (proj2 (transaction_children_in_schema_order
                           plain_runtime test_journal payment_1000 world0))).
    reflexivity.
  - apply (proj2 (proj2 (transaction_children_in_schema_order
                           plain_runtime test_journal payment_control world0))).
    reflexivity.
Defined.

(* ================================================================== *)
(** * Validation, generation and the schema *)

Lemma validate_batch_payment_stronger (j : Journal.t) (p : Payment.t) :
  validate_batch_payment (Some j) p = inr tt -> validate_payment j p = inr tt.
Proof.
  unfold validate_batch_payment, validate_payment. cbn [field].
  destruct (Payment.partner_id p); [| discriminate].
  destruct (le_zero (Payment.amount p)); [discriminate |].
  destruct (is_SEPA (Journal.swedbank_service_level j)); [| reflexivity].
  cbn [andb].
  destruct (negb (str_eqb (Currency.name (Payment.currency_id p)) (u "EUR")));
    [discriminate | reflexivity].
Qed.

Lemma validate_batch_payments_stronger (j : Journal.t) (l : list Payment.t) :
  validate_batch_payments (Some j) l = inr tt ->
  _swedbank_validate_payments j l = inr tt.
Proof.
  induction l as [| p l IH]; [reflexivity |].
  cbn [validate_batch_payments _swedbank_validate_payments].
  destruct (validate_batch_payment (Some j) p) as [e | []] eqn:E; [discriminate |].
  rewrite (validate_batch_payment_stronger j p E). exact IH.
Qed.

(** Every member of a group is a payment of the batch. *)
Lemma recordset_union_In (g : list Payment.t) (p q : Payment.t) :
  In q (recordset_union g [p]) -> In q g \/ q = p.
Proof.
  cbn [recordset_union]. destruct (mem_id (Payment.id p) g); [now left |].
  intros H. apply in_app_or in H as [H | [H | []]]; auto.
Qed.

Lemma groups_add_members (key : group_key) (p : Payment.t)
    (groups : list (group_key * list Payment.t)) (k : group_key)
    (g : list Payment.t) (q : Payment.t) :
  In (k, g) (groups_add key p groups) -> In q g ->
  (exists g', In (k, g') groups /\ In q g') \/ q = p.
Proof.
  induction groups as [| [k0 g0] rest IH]; cbn [groups_add].
  - intros [[= <- <-] | []] Hq.
    apply (recordset_union_In []) in Hq as [[] | ->]. now right.
  - destruct (group_key_eqb key k0).
    + intros [[= <- <-] | Hin] Hq.
      * apply recordset_union_In in Hq as [Hq | ->]; [| now right].
        left. exists g0. split; [now left | exact Hq].
      * left. exists g. split; [now right | exact Hq].
    + intros [[= <- <-] | Hin] Hq.
      * left. exists g0. split; [now left | exact Hq].
      * destruct (IH Hin Hq) as [(g' & Hg' & Hq') | ->]; [| now right].
        left. exists g'. split; [now right | exact Hq'].
Qed.

Section Success.
Variable rt : Runtime.
Variable self : Journal.t.

Lemma fold_members (all : list Payment.t) :
  forall l groups,
    (forall p, In p l -> In p all) ->
    (forall k g q, In (k, g) groups -> In q g -> In q all) ->
    forall k g q,
      In (k, g) (fold_left (fun groups payment =>
                              groups_add (payment_key rt self payment)
                                         payment groups) l groups) ->
      In q g -> In q all.
Proof.
  induction l as [| a l IH]; intros groups Hsub H0 k g q; cbn [fold_left];
    [apply H0 |].
  apply IH.
  - intros p Hp. apply Hsub. now right.
  - intros k0 g0 q0 Hin Hq.
    destruct (groups_add_members _ _ _ _ _ _ Hin Hq) as [(g' & Hg' & Hq') | ->].
    + exact (H0 _ _ _ Hg' Hq').
    + apply Hsub. now left.
Qed.

Lemma group_members (payments : list Payment.t) (k : group_key)
    (g : list Payment.t) (q : Payment.t) :
  In (k, g) (_swedbank_group_payments rt self payments) -> In q g ->
  In q payments.
Proof.
  apply (fold_members payments payments []); [trivial |].
  intros k0 g0 q0 [].
Qed.

(** Generation after a passed validation succeeds when lxml accepts the
    texts of the batch. *)
Lemma root_success (payments : list Payment.t) (w : world) :
  truthy (Journal.swedbank_agreement_id self) = true ->
  Journal.bank_account_id self <> None ->
  _swedbank_validate_payments self payments = inr tt ->
  batch_xml_compatible rt self payments ->
  exists root w', swedbank_root rt self payments w = (inr root, w').
Proof.
  intros Ha Hb Hv (Hn & Hi & Hd & Hda & Hp).
  unfold swedbank_root. rewrite Ha. cbn [negb].
  destruct (Journal.bank_account_id self) as [b |]; [| now destruct Hb].
  unfold bind at 1, lift. rewrite Hv.
  unfold bind at 1.
  rewrite (grp_hdr_built rt self payments w _ (or_else_truthy _ [] Ha)).
  rewrite Hn, Hi. cbn [andb].
  rewrite Forall_forall in Hp.
  destruct (for_each_spec _ _
              (fun '(group_key, group_payments) =>
                 _swedbank_get_pmt_inf rt self group_payments group_key)
              (fun _ _ => True)
              (_swedbank_group_payments rt self payments))
    with (w := snd (datetime_now (snd (datetime_now w))))
    as (infs & w2 & Ei & _).
  { intros [k g] Hin w0.
    pose proof (groups_nonempty rt self payments) as Hne.
    rewrite Forall_forall in Hne.
    destruct (pmt_inf_success rt self (k, g) w0 (Hne _ Hin)) as (e & w1 & E).
    - cbn [fst snd]. unfold pmt_inf_head_ok. rewrite Hd, Hda.
      destruct (group_key_of_payment rt self payments k) as (p & Hin' & <-).
      { apply in_map_iff. now exists (k, g). }
      rewrite payment_key_date. cbn [snd].
      now rewrite (proj1 (Hp p Hin')).
    - cbn [snd]. apply Forall_forall. intros q Hq.
      apply (Hp q). exact (group_members payments k g q Hin Hq).
    - now exists e, w1. }
  unfold bind at 1. rewrite Ei. now eexists; eexists.
Qed.

End Success.

(** X11. A batch that [_swedbank_validate_batch] accepts has a journal and
    passes the validation of the document builder.  For its payments
    [create_swedbank_credit_transfer] raises no error but lxml's
    ValueError, and it returns the serialized document when lxml accepts
    the texts that no sanitizer cleans: the time of creation, the
    agreement ID, the country code, account number and currency of the
    debtor, and for every payment its date, currency, BIC, clearing
    member, country codes and account number. *)
Theorem accepted_batch_generates
    (rt : Runtime) (batch : Batch.t) (w : world) :
  _swedbank_validate_batch batch = inr tt ->
  exists journal,
    Batch.journal_id batch = Some journal /\
    _swedbank_validate_payments journal (Batch.payment_ids batch) = inr tt /\
    (forall e w',
       create_swedbank_credit_transfer rt journal (Batch.payment_ids batch) w =
         (inl e, w') ->
       e = ValueError) /\
    (batch_xml_compatible rt journal (Batch.payment_ids batch) ->
     exists root w',
       swedbank_root rt journal (Batch.payment_ids batch) w = (inr root, w') /\
       create_swedbank_credit_transfer rt journal (Batch.payment_ids batch) w =
         (inr (xml_declaration ++ tostring rt root), w')).
Proof.
  unfold _swedbank_validate_batch. cbv zeta.
  destruct (Batch.journal_id batch) as [j |]; cbn [field]; [| discriminate].
  destruct (truthy (Journal.swedbank_agreement_id j)) eqn:Ha; cbn [negb];
    [| discriminate].
  destruct (Journal.bank_account_id j) as [b |] eqn:Hb; [| discriminate].
  intros Hv. apply validate_batch_payments_stronger in Hv.
  assert (Hb' : Journal.bank_account_id j <> None) by (rewrite Hb; discriminate).
  exists j. split; [reflexivity |]. split; [exact Hv |]. split.
  - intros e w'. unfold create_swedbank_credit_transfer, bind.
    destruct (swedbank_root rt j (Batch.payment_ids batch) w)
      as [[x | root] w1] eqn:Er; [| discriminate].
    intros [= <- _]. exact (root_error rt j _ _ _ _ Ha Hb' Hv Er).
  - intros Hc.
    destruct (root_success rt j (Batch.payment_ids batch) w Ha Hb' Hv Hc)
      as (root & w' & Er).
    exists root, w'. split; [exact Er |].
    unfold create_swedbank_credit_transfer, bind. now rewrite Er.
Qed.

Lemma accepted_batch_generates_witness :
  _swedbank_validate_payments test_journal [payment_1000] = inr tt /\
  (forall e w',
     create_swedbank_credit_transfer plain_runtime test_journal [payment_1000] world0 =
       (inl e, w') ->
     e = ValueError) /\
  batch_xml_compatible plain_runtime test_journal [payment_1000] /\
  exists root w',
    swedbank_root plain_runtime test_journal [payment_1000] world0 = (inr root, w') /\
    create_swedbank_credit_transfer plain_runtime test_journal [payment_1000] world0 =
      (inr (xml_declaration ++ tostring plain_runtime root), w').
Proof.
  destruct (accepted_batch_generates plain_runtime
              {| Batch.journal_id := Some test_journal;
                 Batch.payment_ids := [payment_1000];
                 Batch.payment_method_code := u "swedbank_ct" |} world0 eq_refl)
    as (journal & Ej & Hv & He & Hg).
  injection Ej as <-.
  assert (Hc : batch_xml_compatible plain_runtime test_journal [payment_1000]).
  { repeat split; try reflexivity. repeat constructor. }
  split; [exact Hv |]. split; [exact He |]. split; [exact Hc |].
  exact (Hg Hc).
Defined.

(** X12. When the schema file loads, the bytes that
    [create_swedbank_credit_transfer_validated] returns are the bytes
    generated, they parse, and the schema accepts them: the pipeline never
    returns a document that the loaded schema rejects. *)
Theorem validated_bytes_pass_the_schema
    (rt : Runtime) (self : Journal.t) (payments : list Payment.t)
    (w w' : world) (b xml : bytes) (sch : schema rt) :
  xsd_file w = xsd_content b ->
  load_schema rt b = Some sch ->
  create_swedbank_credit_transfer_validated rt self payments w = (inr xml, w') ->
  create_swedbank_credit_transfer rt self payments w = (inr xml, w') /\
  exists xml_doc,
    fromstring rt xml = Some xml_doc /\ schema_validate rt sch xml_doc = true.
Proof.
  intros Hx Hl. unfold create_swedbank_credit_transfer_validated, bind at 1.
  pose proof (keeps_create rt self payments w) as Hk.
  destruct (create_swedbank_credit_transfer rt self payments w)
    as [[e | x] w1]; [discriminate |].
  cbn [snd] in Hk. unfold bind, swedbank_validate_xml, bind,
    _swedbank_get_xsd_schema.
  rewrite Hk, Hx, Hl.
  destruct (fromstring rt x) as [doc |] eqn:Ef; [| discriminate].
  destruct (schema_validate rt sch doc) eqn:Ev; [| discriminate].
  intros [= <- <-]. split; [reflexivity |]. now exists doc.
Qed.

Lemma validated_bytes_pass_the_schema_witness :
  exists xml w',
    create_swedbank_credit_transfer_validated accepting_runtime test_journal
      [payment_1000] world_with_schema = (inr xml, w') /\
    create_swedbank_credit_transfer accepting_runtime test_journal
      [payment_1000] world_with_schema = (inr xml, w') /\
    exists xml_doc,
      fromstring accepting_runtime xml = Some xml_doc /\
      schema_validate accepting_runtime tt xml_doc = true.
Proof.
  eexists. eexists. split; [vm_compute; reflexivity |].
  eapply (validated_bytes_pass_the_schema accepting_runtime test_journal
            [payment_1000] world_with_schema _ [] _ tt).
  - reflexivity.
  - reflexivity.
  - vm_compute. reflexivity.
Defined.

(** X13. A journal without agreement ID makes both
    [create_swedbank_credit_transfer] and
    [create_swedbank_credit_transfer_validated] raise the UserError that
    names the journal, for every list of payments and whatever the schema
    file is: before any payment is validated, before the clock is read and
    before the schema is looked for.  With an agreement ID and no bank
    account the error is the one for the bank account. *)
Theorem configuration_errors_come_first
    (rt : Runtime) (self : Journal.t) (payments : list Payment.t) (w : world) :
  (truthy (Journal.swedbank_agreement_id self) = false ->
   create_swedbank_credit_transfer rt self payments w =
     (inl (UserError (msg_no_agreement_id (Journal.name self))), w) /\
   create_swedbank_credit_transfer_validated rt self payments w =
     (inl (UserError (msg_no_agreement_id (Journal.name self))), w)) /\
  (truthy (Journal.swedbank_agreement_id self) = true ->
   Journal.bank_account_id self = None ->
   create_swedbank_credit_transfer rt self payments w =
     (inl (UserError (msg_no_bank_account (Journal.name self))), w) /\
   create_swedbank_credit_transfer_validated rt self payments w =
     (inl (UserError (msg_no_bank_account (Journal.name self))), w)).
Proof.
  split.
  - intros Ha.
    assert (E : create_swedbank_credit_transfer rt self payments w =
                (inl (UserError (msg_no_agreement_id (Journal.name self))), w)).
    { apply create_error. unfold swedbank_root. now rewrite Ha. }
    split; [exact E |].
    unfold create_swedbank_credit_transfer_validated, bind at 1. now rewrite E.
  - intros Ha Hb.
    assert (E : create_swedbank_credit_transfer rt self payments w =
                (inl (UserError (msg_no_bank_account (Journal.name self))), w)).
    { apply create_error. unfold swedbank_root. now rewrite Ha, Hb. }
    split; [exact E |].
    unfold create_swedbank_credit_transfer_validated, bind at 1. now rewrite E.
Qed.

Lemma validate_swedbank_batches_pass (batches : list Batch.t) :
  Forall passes batches -> validate_swedbank_batches batches = inr tt.
Proof.
  induction 1 as [| b l Hb _ IH]; [reflexivity |].
  cbn [validate_swedbank_batches].
  destruct (_compute_is_swedbank b) eqn:Es; [| exact IH].
  now rewrite (Hb Es).
Qed.

(** X14. [validate_batch] raises the error of [_swedbank_validate_batch]
    for the first Swedbank batch that fails it, and then does not call
    the method of the parent class: the state is left as it was.  When
    every Swedbank batch passes, and so when no batch is a Swedbank batch,
    it returns or raises what [super().validate_batch()] returns or
    raises, from the same state.  For a Swedbank batch the check of the
    agreement ID in [_swedbank_validate_batch] always passes: its result
    is that of the bank account check and of the checks of the
    payments. *)
Theorem validate_batch_errors
    (R : Type) (super_validate_batch : list Batch.t -> M R)
    (batches : list Batch.t) (w : world) :
  (forall pre batch post e,
     batches = pre ++ batch :: post ->
     Forall passes pre ->
     _compute_is_swedbank batch = true ->
     _swedbank_validate_batch batch = inl e ->
     validate_batch super_validate_batch batches w = (inl e, w)) /\
  (Forall passes batches ->
   validate_batch super_validate_batch batches w = super_validate_batch batches w) /\
  (forall batch, _compute_is_swedbank batch = true ->
     _swedbank_validate_batch batch =
     match field Journal.bank_account_id (Batch.journal_id batch) with
     | None => inl (UserError (msg_batch_no_bank_account
                                 (field Journal.name (Batch.journal_id batch))))
     | Some _ => validate_batch_payments (Batch.journal_id batch)
                                         (Batch.payment_ids batch)
     end).
Proof.
  split; [| split].
  - intros pre batch post e -> Hpre Hs He.
    unfold validate_batch, bind, lift.
    replace (validate_swedbank_batches (pre ++ batch :: post)) with (@inl _ unit e);
      [reflexivity |].
    clear w. induction Hpre as [| b l Hb _ IH].
    + cbn [app validate_swedbank_batches]. now rewrite Hs, He.
    + cbn [app validate_swedbank_batches].
      destruct (_compute_is_swedbank b) eqn:Eb; [| exact IH].
      now rewrite (Hb Eb).
  - intros H. unfold validate_batch, bind, lift.
    now rewrite (validate_swedbank_batches_pass batches H).
  - intros batch Hs. unfold _compute_is_swedbank in Hs.
    unfold _swedbank_validate_batch. cbv zeta. now rewrite Hs.
Qed.

Lemma validate_batch_errors_witness :
  validate_batch (fun _ => ret true)
    [test_batch [payment_1000]; test_batch [payment_zero]] world0 =
    (inl (UserError (msg_invalid_amount (Some (u "PAY2")))), world0) /\
  validate_batch (fun _ => ret true) [test_batch [payment_1000]] world0 =
    (inr true, world0).
Proof.
  split.
  - apply (proj1 (validate_batch_errors bool (fun _ => ret true)
                    [test_batch [payment_1000]; test_batch [payment_zero]] world0)
             [test_batch [payment_1000]] (test_batch [payment_zero]) []).
    + reflexivity.
    + repeat constructor.
    + reflexivity.
    + reflexivity.
  - apply (proj1 (proj2 (validate_batch_errors bool (fun _ => ret true)
                           [test_batch [payment_1000]] world0))).
    repeat constructor.
Defined.

Lemma configuration_errors_come_first_witness :
  create_swedbank_credit_transfer plain_runtime journal_without_agreement_id
    [payment_zero] world0 =
    (inl (UserError (msg_no_agreement_id (Journal.name journal_without_agreement_id))),
     world0) /\
  create_swedbank_credit_transfer_validated plain_runtime journal_without_agreement_id
    [payment_zero] world0 =
    (inl (UserError (msg_no_agreement_id (Journal.name journal_without_agreement_id))),
     world0).
Proof.
  apply (proj1 (configuration_errors_come_first plain_runtime
                  journal_without_agreement_id [payment_zero] world0)).
  reflexivity.
Defined.

(* ================================================================== *)
(** * Bank accounts *)

Lemma zfill_length (width : nat) (s : str) :
  List.length (zfill width s) = Nat.max width (List.length s).
Proof.
  unfold zfill. cbv zeta. destruct s as [| c r].
  - rewrite repeat_length. simpl. lia.
  - destruct ((c =? 43) || (c =? 45)); cbn [List.length];
      rewrite length_app, repeat_length; cbn [List.length];
      unfold char in *; lia.
Qed.

Lemma last_n_length (n : nat) (s : str) :
  List.length (last_n n s) = Nat.min n (List.length s).
Proof.
  unfold last_n. rewrite length_skipn. unfold str, char in *. lia.
Qed.

Lemma zfill_digits (width : nat) (s : str) :
  forallb is_ascii_digit s = true ->
  zfill width s = repeat 48 (width - List.length s) ++ s.
Proof.
  unfold zfill. cbv zeta. destruct s as [| c r]; [now rewrite app_nil_r |].
  cbn [forallb]. intros H. apply andb_true_iff in H as [Hc _].
  unfold is_ascii_digit in Hc. apply andb_true_iff in Hc as [H1 H2].
  apply N.leb_le in H1, H2.
  replace (c =? 43) with false by (symmetry; apply N.eqb_neq; lia).
  replace (c =? 45) with false by (symmetry; apply N.eqb_neq; lia).
  reflexivity.
Qed.

Lemma last_n_all (n : nat) (s : str) :
  (List.length s <= n)%nat -> last_n n s = s.
Proof.
  intros H. unfold last_n.
  now replace (List.length s - n)%nat with 0%nat by lia.
Qed.

Lemma re_match_digits_length (lo hi : nat) (s : str) :
  re_match_digits lo hi s = true ->
  (lo <= List.length s <= S hi)%nat.
Proof.
  unfold re_match_digits. cbv zeta. intros H.
  apply andb_true_iff in H as [H H3]. apply andb_true_iff in H as [_ H2].
  apply Nat.leb_le in H2, H3.
  destruct (rev s) as [| c r] eqn:E; [lia |].
  assert (L : List.length s = S (List.length r))
    by (rewrite <- (length_rev s), E; reflexivity).
  destruct (N.eq_dec c 10) as [-> | Hc].
  - rewrite length_rev in H2, H3. lia.
  - assert (K : match c with
                | 10 => rev r
                | _ => s
                end = s).
    { destruct c as [| p]; [reflexivity |].
      repeat (destruct p as [p | p |]; try reflexivity). now destruct Hc. }
    rewrite K in H2, H3. lia.
Qed.

Lemma re_match_digits_plain (lo hi : nat) (s : str) :
  forallb is_ascii_digit s = true ->
  re_match_digits lo hi s = true ->
  (lo <= List.length s <= hi)%nat.
Proof.
  intros Hd. unfold re_match_digits. cbv zeta.
  assert (K : match rev s with
              | 10 :: r => rev r
              | _ => s
              end = s).
  { destruct (rev s) as [| x r] eqn:Er; [reflexivity |].
    assert (Hx : is_ascii_digit x = true).
    { rewrite forallb_forall in Hd. apply Hd, in_rev. rewrite Er. now left. }
    destruct (N.eq_dec x 10) as [-> | Hc]; [discriminate |].
    destruct x as [| p]; [reflexivity |].
    repeat (destruct p as [p | p |]; try reflexivity). now destruct Hc. }
  rewrite K. intros H.
  apply andb_true_iff in H as [H H3]. apply andb_true_iff in H as [_ H2].
  apply Nat.leb_le in H2, H3. lia.
Qed.

(** X15. Choosing an account type on the form, setting the clearing code
    as [_onchange_swedbank_account_type] does, and computing the account
    type again: after the onchange for Bankgiro no account is classified
    as Bankgiro, and an account that was classified as Bankgiro becomes
    BBAN; after the onchange for Plusgiro an account that is not an IBAN
    and has 1 to 10 digits is Plusgiro.  Both codes that the onchange sets
    pass [_check_swedbank_clearing_code]. *)
Theorem onchange_then_compute (bank : PartnerBank.t) :
  _compute_swedbank_account_type
    (_onchange_swedbank_account_type (with_account_type (Some bankgiro) bank))
    <> Some bankgiro /\
  (_compute_swedbank_account_type bank = Some bankgiro ->
   _compute_swedbank_account_type
     (_onchange_swedbank_account_type (with_account_type (Some bankgiro) bank))
     = Some bban) /\
  (forall acc_number,
     PartnerBank.acc_type bank = acc_bank ->
     PartnerBank.acc_number bank = Some acc_number ->
     re_match_digits 1 10 (normalize_acc acc_number) = true ->
     _compute_swedbank_account_type
       (_onchange_swedbank_account_type (with_account_type (Some plusgiro) bank))
       = Some plusgiro) /\
  _check_swedbank_clearing_code
    (_onchange_swedbank_account_type (with_account_type (Some bankgiro) bank))
    = inr tt /\
  _check_swedbank_clearing_code
    (_onchange_swedbank_account_type (with_account_type (Some plusgiro) bank))
    = inr tt.
Proof.
  split; [| split; [| split; [| split; reflexivity]]].
  - intros H. apply bankgiro_has_no_clearing_code in H. discriminate.
  - unfold _compute_swedbank_account_type.
    cbn [_onchange_swedbank_account_type with_clearing_code with_account_type
         PartnerBank.acc_type PartnerBank.acc_number
         PartnerBank.swedbank_account_type
         PartnerBank.swedbank_clearing_code].
    destruct (is_iban (PartnerBank.acc_type bank)); [discriminate |].
    destruct (PartnerBank.acc_number bank) as [[| c s] |]; try discriminate.
    intros _. change (truthy (Some (u "9900"))) with true.
    change (str_eqb (u "9900") (u "9960")) with false.
    cbn [negb]. now rewrite !andb_false_r.
  - intros acc Ht Ha Hm.
    unfold _compute_swedbank_account_type.
    cbn [_onchange_swedbank_account_type with_clearing_code with_account_type
         PartnerBank.acc_type PartnerBank.acc_number
         PartnerBank.swedbank_account_type
         PartnerBank.swedbank_clearing_code].
    rewrite Ht, Ha. cbn [is_iban].
    destruct acc as [| c s].
    + discriminate.
    + change (truthy (Some (u "9960"))) with true.
      change (str_eqb (u "9960") (u "9960")) with true.
      cbn [negb]. now rewrite andb_false_r, Hm.
Qed.

(** The compute method assigns a type only to an account with a number,
    and Bankgiro only to a number of at most 9 characters. *)
Lemma computed_type_has_account (bank : PartnerBank.t) (t : swedbank_account_type_t) :
  _compute_swedbank_account_type bank = Some t -> t <> iban ->
  truthy (PartnerBank.acc_number bank) = true.
Proof.
  unfold _compute_swedbank_account_type.
  destruct (is_iban _); [intros [= <-] K; now destruct K |].
  now destruct (PartnerBank.acc_number bank) as [[| c s] |].
Qed.

Lemma computed_bankgiro_digits (bank : PartnerBank.t) (acc_number : str) :
  _compute_swedbank_account_type bank = Some bankgiro ->
  PartnerBank.acc_number bank = Some acc_number ->
  re_match_digits 7 8 (normalize_acc acc_number) = true.
Proof.
  unfold _compute_swedbank_account_type. intros H Ha. rewrite Ha in H.
  destruct (is_iban _); [discriminate |].
  destruct acc_number as [| c s]; [discriminate |].
  destruct (re_match_digits 7 8 (normalize_acc (c :: s))); [reflexivity |].
  cbn [andb] in H. destruct (_ && _); discriminate.
Qed.

(** X16. The formatted account has a fixed width, for the stored account
    type whatever wrote it: 8 characters for an account with a number whose
    type is Bankgiro, the account number left-padded with zeros when it is
    made of at most 8 digits; 15 characters for an account with a number
    of type BBAN whose clearing code starts with 8; 11 for one whose
    clearing code starts with 7 and has at least 4 characters.  Without
    account number it is empty.  When the stored type is the one that
    [_compute_swedbank_account_type] assigns, the account has a number and
    a Bankgiro number made of digits has at most 8 of them: the widths
    hold with no condition on the account number. *)
Theorem formatted_account_widths (rt : Runtime) (bank : PartnerBank.t) :
  (truthy (PartnerBank.acc_number bank) = false ->
   _compute_swedbank_formatted_account rt bank = []) /\
  (PartnerBank.swedbank_account_type bank = Some bankgiro ->
   truthy (PartnerBank.acc_number bank) = true ->
   List.length (_compute_swedbank_formatted_account rt bank) = 8%nat /\
   forall acc_number,
     PartnerBank.acc_number bank = Some acc_number ->
     forallb is_ascii_digit (normalize_acc acc_number) = true ->
     (List.length (normalize_acc acc_number) <= 8)%nat ->
     _compute_swedbank_formatted_account rt bank =
     repeat 48 (8 - List.length (normalize_acc acc_number)) ++
     normalize_acc acc_number) /\
  (PartnerBank.swedbank_account_type bank = Some bban ->
   truthy (PartnerBank.acc_number bank) = true ->
   forall clearing,
     PartnerBank.swedbank_clearing_code bank = Some clearing ->
     (startswith (u "8") clearing = true ->
      List.length (_compute_swedbank_formatted_account rt bank) = 15%nat) /\
     (startswith (u "7") clearing = true -> (4 <= List.length clearing)%nat ->
      List.length (_compute_swedbank_formatted_account rt bank) = 11%nat)) /\
  (PartnerBank.swedbank_account_type bank = _compute_swedbank_account_type bank ->
   (PartnerBank.swedbank_account_type bank = Some bankgiro ->
    List.length (_compute_swedbank_formatted_account rt bank) = 8%nat /\
    forall acc_number,
      PartnerBank.acc_number bank = Some acc_number ->
      forallb is_ascii_digit (normalize_acc acc_number) = true ->
      _compute_swedbank_formatted_account rt bank =
      repeat 48 (8 - List.length (normalize_acc acc_number)) ++
      normalize_acc acc_number) /\
   (PartnerBank.swedbank_account_type bank = Some bban ->
    forall clearing,
      PartnerBank.swedbank_clearing_code bank = Some clearing ->
      (startswith (u "8") clearing = true ->
       List.length (_compute_swedbank_formatted_account rt bank) = 15%nat) /\
      (startswith (u "7") clearing = true -> (4 <= List.length clearing)%nat ->
       List.length (_compute_swedbank_formatted_account rt bank) = 11%nat))).
Proof.
  assert (G : PartnerBank.swedbank_account_type bank = Some bankgiro ->
              truthy (PartnerBank.acc_number bank) = true ->
              List.length (_compute_swedbank_formatted_account rt bank) = 8%nat /\
              forall acc_number,
                PartnerBank.acc_number bank = Some acc_number ->
                forallb is_ascii_digit (normalize_acc acc_number) = true ->
                (List.length (normalize_acc acc_number) <= 8)%nat ->
                _compute_swedbank_formatted_account rt bank =
                repeat 48 (8 - List.length (normalize_acc acc_number)) ++
                normalize_acc acc_number).
  { unfold _compute_swedbank_formatted_account. intros Ht Ha.
    destruct (PartnerBank.acc_number bank) as [[| c s] |]; try discriminate.
    rewrite Ht. cbv zeta. split.
    + rewrite last_n_length, zfill_length. unfold str, char in *. lia.
    + intros acc [= <-] Hd Hlen. rewrite (zfill_digits 8 _ Hd).
      apply last_n_all. rewrite length_app, repeat_length.
      unfold str, char in *. lia. }
  assert (B : PartnerBank.swedbank_account_type bank = Some bban ->
              truthy (PartnerBank.acc_number bank) = true ->
              forall clearing,
                PartnerBank.swedbank_clearing_code bank = Some clearing ->
                (startswith (u "8") clearing = true ->
                 List.length (_compute_swedbank_formatted_account rt bank) = 15%nat) /\
                (startswith (u "7") clearing = true ->
                 (4 <= List.length clearing)%nat ->
                 List.length (_compute_swedbank_formatted_account rt bank) = 11%nat)).
  { unfold _compute_swedbank_formatted_account. intros Ht Ha clearing Hc.
    destruct (PartnerBank.acc_number bank) as [[| c s] |]; try discriminate.
    rewrite Ht, Hc. cbv zeta.
    assert (Eo : forall x, startswith (u x) clearing = true ->
                           or_else (Some clearing) [] = clearing).
    { intros x Hx. destruct clearing; [| reflexivity].
      destruct x; [reflexivity | discriminate]. }
    split.
    + intros H8. rewrite (Eo "8" H8), H8.
      rewrite length_app, length_firstn, zfill_length, last_n_length,
        zfill_length. lia.
    + intros H7 Hl. rewrite (Eo "7" H7).
      destruct (startswith (u "8") clearing) eqn:H8.
      { destruct clearing as [| x r]; [discriminate |].
        change (startswith (u "8") (x :: r)) with ((56 =? x) && true) in H8.
        change (startswith (u "7") (x :: r)) with ((55 =? x) && true) in H7.
        rewrite andb_true_r in H7, H8.
        apply N.eqb_eq in H7, H8. congruence. }
      rewrite H7.
      rewrite length_app, length_firstn, last_n_length, zfill_length. lia. }
  split; [| split; [exact G | split; [exact B |]]].
  - unfold _compute_swedbank_formatted_account.
    destruct (PartnerBank.acc_number bank) as [[| c s] |]; try reflexivity.
    discriminate.
  - intros Hs. split.
    + intros Ht.
      assert (Hc : _compute_swedbank_account_type bank = Some bankgiro)
        by now rewrite <- Hs.
      assert (Ha : truthy (PartnerBank.acc_number bank) = true)
        by (apply (computed_type_has_account bank bankgiro Hc); discriminate).
      destruct (G Ht Ha) as [L F]. split; [exact L |].
      intros acc Hacc Hd. apply (F acc Hacc Hd).
      pose proof (computed_bankgiro_digits bank acc Hc Hacc) as Em.
      pose proof (re_match_digits_plain _ _ _ Hd Em) as K. lia.
    + intros Ht.
      assert (Hc : _compute_swedbank_account_type bank = Some bban)
        by now rewrite <- Hs.
      apply (B Ht).
      apply (computed_type_has_account bank bban Hc). discriminate.
Qed.

Lemma formatted_account_widths_witness :
  List.length (_compute_swedbank_formatted_account plain_runtime
                 test_partner_bank_plain) = 8%nat /\
  forall acc_number,
    PartnerBank.acc_number test_partner_bank_plain = Some acc_number ->
    forallb is_ascii_digit (normalize_acc acc_number) = true ->
    (List.length (normalize_acc acc_number) <= 8)%nat ->
    _compute_swedbank_formatted_account plain_runtime test_partner_bank_plain =
    repeat 48 (8 - List.length (normalize_acc acc_number)) ++
    normalize_acc acc_number.
Proof.
  apply (proj1 (proj2 (formatted_account_widths plain_runtime
                         test_partner_bank_plain))); reflexivity.
Defined.

(** X17. For a payment to a bank account that has a clearing code and
    whose type is the one that [_compute_swedbank_account_type] assigns,
    the creditor account that is written never carries the proprietary
    scheme BGNR: no Prtry element is written, and when the account is not
    an IBAN its scheme is the code BBAN. *)
Theorem clearing_code_excludes_bgnr
    (rt : Runtime) (self : Journal.t) (payment : Payment.t)
    (partner_bank : PartnerBank.t) (e : element) :
  Payment.partner_bank_id payment = Some partner_bank ->
  truthy (PartnerBank.swedbank_clearing_code partner_bank) = true ->
  PartnerBank.swedbank_account_type partner_bank =
    _compute_swedbank_account_type partner_bank ->
  _swedbank_get_cdtr_acct rt self payment = inr (Some e) ->
  select (path_cdtr_acct_othr_schme ++ ["Prtry"]) e = [] /\
  (PartnerBank.acc_type partner_bank = acc_bank ->
   texts (path_cdtr_acct_othr_schme ++ ["Cd"]) e = [Some (u "BBAN")]).
Proof.
  intros Hb Hc Hs. rewrite cdtr_acct_built.
  destruct (cdtr_acct_ok rt payment); [| discriminate].
  unfold cdtr_acct_tree. rewrite Hb.
  destruct (truthy (PartnerBank.acc_number partner_bank)); [| discriminate].
  intros [= <-].
  assert (Ht : PartnerBank.swedbank_account_type partner_bank <> Some bankgiro).
  { rewrite Hs. intros K. apply bankgiro_has_no_clearing_code in K. congruence. }
  destruct (PartnerBank.acc_type partner_bank); cbn [is_iban].
  - destruct (PartnerBank.swedbank_account_type partner_bank) as [[] |];
      try (now destruct Ht); split; reflexivity.
  - split; [reflexivity | discriminate].
Qed.

Lemma clearing_code_excludes_bgnr_witness :
  exists e,
    _swedbank_get_cdtr_acct plain_runtime test_journal payment_to_bban =
      inr (Some e) /\
    select (path_cdtr_acct_othr_schme ++ ["Prtry"]) e = [] /\
    (PartnerBank.acc_type test_partner_bank_bban = acc_bank ->
     texts (path_cdtr_acct_othr_schme ++ ["Cd"]) e = [Some (u "BBAN")]).
Proof.
  eexists. split; [vm_compute; reflexivity |].
  eapply (clearing_code_excludes_bgnr plain_runtime test_journal payment_to_bban
            test_partner_bank_bban).
  - reflexivity.
  - reflexivity.
  - reflexivity.
  - vm_compute. reflexivity.
Defined.

(* ================================================================== *)
(** * The truncated UUID *)

Lemma firstn_app_left (A : Type) (n : nat) (l l' : list A) :
  (n <= List.length l)%nat -> firstn n (l ++ l') = firstn n l.
Proof.
  intros H. rewrite firstn_app.
  replace (n - List.length l)%nat with 0%nat by lia.
  cbn [firstn]. apply app_nil_r.
Qed.

Lemma skipn_app_left (A : Type) (n : nat) (l l' : list A) :
  (n <= List.length l)%nat -> skipn n (l ++ l') = skipn n l ++ l'.
Proof.
  intros H. rewrite skipn_app.
  now replace (n - List.length l)%nat with 0%nat by lia.
Qed.

Lemma uuid_str_split (n : N) :
  uuid_str n = uuid_prefix (n / 16) ++ [hex_digit (n mod 16)].
Proof.
  unfold uuid_str, uuid_prefix. cbv zeta.
  change (hex_digits 32 n) with (hex_digits 31 (n / 16) ++ [hex_digit (n mod 16)]).
  pose proof (hex_digits_length 31 (n / 16)) as L.
  set (h := hex_digits 31 (n / 16)) in *.
  rewrite !skipn_app_left by (unfold str, char in *; lia).
  rewrite !firstn_app_left
    by (try rewrite length_skipn; unfold str, char in *; lia).
  now rewrite <- !app_assoc.
Qed.

Lemma uuid_prefix_35 (q : N) : List.length (uuid_prefix q) = 35%nat.
Proof.
  unfold uuid_prefix. cbv zeta.
  pose proof (hex_digits_length 31 q) as L.
  rewrite !length_app, !length_firstn, !length_skipn.
  unfold str, char in *. rewrite L. reflexivity.
Qed.

Lemma truncated_uuid (n : N) : firstn 35 (uuid_str n) = uuid_prefix (n / 16).
Proof.
  pose proof (uuid_prefix_35 (n / 16)) as L.
  rewrite uuid_str_split, firstn_app_left by lia.
  apply firstn_all2. lia.
Qed.

(** X18. The 35-character prefix of [str(uuid.uuid4())] that [create]
    stores as end-to-end ID does not depend on the last hexadecimal digit
    of the UUID: two UUIDs that differ only in their last four bits give
    the same end-to-end ID. *)
Theorem truncated_uuid_ignores_last_digit (n m : N) :
  n / 16 = m / 16 ->
  firstn 35 (uuid_str n) = firstn 35 (uuid_str m).
Proof.
  intros H. rewrite !truncated_uuid. now rewrite H.
Qed.

Lemma truncated_uuid_ignores_last_digit_witness :
  firstn 35 (uuid_str 0) = firstn 35 (uuid_str 15).
Proof.
  apply (truncated_uuid_ignores_last_digit 0 15). reflexivity.
Defined.

(* ================================================================== *)
(** * Free text in the document *)

Section FreeText.
Variable rt : Runtime.
Variable self : Journal.t.

Lemma holds_sanitized_text (text : option str) (n : nat) :
  holds_text n (Some (_swedbank_sanitize_text rt text n true)).
Proof.
  eexists. split; [reflexivity |]. split; [apply sanitize_text_length |].
  split; [| apply sanitize_text_in_allowed].
  rewrite has_dslash_contains. apply sanitize_text_no_dslash.
Qed.

(** A path into the head of a block does not see its transactions. *)
Lemma pmt_inf_head_path (t : string) (q : list string)
    (g : list Payment.t) (d : str) (k : nat) (txs : list element) :
  t <> "CdtTrfTxInf" ->
  Forall (fun e => tag e = "CdtTrfTxInf") txs ->
  texts (t :: q) (Node "PmtInf" (pmt_inf_head rt self g d k ++ txs)) =
  texts (t :: q) (Node "PmtInf" (pmt_inf_head rt self g d k)).
Proof.
  intros Ht H. rewrite !texts_cons. cbn [children Node]. rewrite filter_app.
  rewrite (filter_tag_none t txs); [now rewrite app_nil_r |].
  revert H. apply Forall_impl. intros e ->. congruence.
Qed.

Lemma pmt_inf_dbtr_nm (kg : group_key * list Payment.t) (e : element) :
  pmt_inf_of rt self kg e -> Forall (holds_text 140) (texts ["Dbtr"; "Nm"] e).
Proof.
  intros (k & txs & F & ->).
  rewrite pmt_inf_head_path;
    [| discriminate | revert F; apply Forall2_right; apply tx_of_tag].
  change (texts ["Dbtr"; "Nm"]
            (Node "PmtInf" (pmt_inf_head rt self (snd kg) (snd (fst kg)) k)))
    with [Some (_swedbank_sanitize_text rt
                  (Company.name (Journal.company_id self)) 140 true)].
  constructor; [apply holds_sanitized_text | constructor].
Qed.

Lemma tx_cdtr_filter (p : Payment.t) :
  filter (fun c => String.eqb (tag c) "Cdtr")
    (opt_elem (cdtr_agt_tree p) ++
     cdtr_tree rt p ::
     opt_elem (cdtr_acct_tree rt p) ++
     opt_elem (rmt_inf_tree rt p)) = [cdtr_tree rt p].
Proof.
  rewrite filter_app. cbn [filter].
  rewrite (opt_elem_no_tag _ "Cdtr" "CdtrAgt" (cdtr_agt_tag p)) by discriminate.
  change (tag (cdtr_tree rt p)) with "Cdtr".
  cbn [String.eqb Ascii.eqb Bool.eqb andb app].
  rewrite filter_app.
  rewrite (opt_elem_no_tag _ "Cdtr" "CdtrAcct" (cdtr_acct_tag rt p)) by discriminate.
  rewrite (opt_elem_no_tag _ "Cdtr" "RmtInf" (rmt_inf_tag rt p)) by discriminate.
  reflexivity.
Qed.

Lemma tx_rmt_inf_filter (p : Payment.t) :
  filter (fun c => String.eqb (tag c) "RmtInf")
    (opt_elem (cdtr_agt_tree p) ++
     cdtr_tree rt p ::
     opt_elem (cdtr_acct_tree rt p) ++
     opt_elem (rmt_inf_tree rt p)) =
  opt_elem (rmt_inf_tree rt p).
Proof.
  rewrite filter_app. cbn [filter].
  rewrite (opt_elem_no_tag _ "RmtInf" "CdtrAgt" (cdtr_agt_tag p)) by discriminate.
  change (tag (cdtr_tree rt p)) with "Cdtr".
  cbn [String.eqb Ascii.eqb Bool.eqb andb app].
  rewrite filter_app.
  rewrite (opt_elem_no_tag _ "RmtInf" "CdtrAcct" (cdtr_acct_tag rt p)) by discriminate.
  cbn [app].
  destruct (rmt_inf_tree rt p) as [e |] eqn:E; [| reflexivity].
  cbn [opt_elem filter]. rewrite (rmt_inf_tag rt p e E). reflexivity.
Qed.

Lemma tx_free_text (p : Payment.t) (e : element) :
  tx_of rt self p e ->
  Forall (holds_text 70) (texts ["Cdtr"; "Nm"] e) /\
  Forall (holds_text 140) (texts ["RmtInf"; "Ustrd"] e).
Proof.
  intros (s & ->). unfold tx_element. split.
  - rewrite texts_cons. cbn [children Node filter tag].
    cbn [String.eqb Ascii.eqb Bool.eqb andb].
    rewrite tx_cdtr_filter. cbn [flat_map]. rewrite app_nil_r.
    change (texts ["Nm"] (cdtr_tree rt p))
      with [Some (_swedbank_sanitize_text rt
                    (field Partner.name (Payment.partner_id p)) 70 true)].
    constructor; [apply holds_sanitized_text | constructor].
  - rewrite texts_cons. cbn [children Node filter tag].
    cbn [String.eqb Ascii.eqb Bool.eqb andb].
    rewrite tx_rmt_inf_filter.
    unfold rmt_inf_tree.
    destruct (or_else (Payment.ref p) (or_else (Payment.memo p) []))
      as [| c r]; [constructor |].
    cbn [opt_elem flat_map]. rewrite app_nil_r.
    change (texts ["Ustrd"] (Node "RmtInf" [Leaf "Ustrd"
              (_swedbank_sanitize_text rt (Some (c :: r)) 140 true)]))
      with [Some (_swedbank_sanitize_text rt (Some (c :: r)) 140 true)].
    constructor; [apply holds_sanitized_text | constructor].
Qed.

End FreeText.

(** X19. In every document that is built, the name of the debtor is at
    most 140 characters long, the name of every creditor at most 70 and
    every unstructured remittance text at most 140; none of them holds
    [//], and each is made of Latin base characters and the six Swedish
    letters only. *)
Theorem document_free_text_is_sanitized
    (rt : Runtime) (self : Journal.t) (payments : list Payment.t)
    (w w' : world) (root : element) :
  swedbank_root rt self payments w = (inr root, w') ->
  Forall (holds_text 140) (texts path_dbtr_nm root) /\
  Forall (holds_text 70) (texts path_cdtr_nm root) /\
  Forall (holds_text 140) (texts path_ustrd root).
Proof.
  intros H.
  destruct (root_blocks rt self payments w w' root H) as (F & _).
  assert (B : Forall (fun e => exists kg, pmt_inf_of rt self kg e)
                     (select path_pmt_inf root)).
  { revert F. apply Forall2_right. intros kg e He. now exists kg. }
  assert (T : Forall (fun e => exists p, tx_of rt self p e)
                     (select path_cdt_trf_tx_inf root)).
  { unfold path_cdt_trf_tx_inf. rewrite select_app.
    apply flat_map_Forall. revert B. apply Forall_impl.
    intros e (kg & He). pose proof (pmt_inf_of_txs rt self kg e He) as Ft.
    revert Ft. apply Forall2_right. intros p x Hx. now exists p. }
  split; [| split].
  - unfold path_dbtr_nm. rewrite texts_app.
    apply flat_map_Forall. revert B. apply Forall_impl.
    intros e (kg & He). now apply (pmt_inf_dbtr_nm rt self kg).
  - unfold path_cdtr_nm. rewrite texts_app.
    apply flat_map_Forall. revert T. apply Forall_impl.
    intros e (p & He). now destruct (tx_free_text rt self p e He).
  - unfold path_ustrd. rewrite texts_app.
    apply flat_map_Forall. revert T. apply Forall_impl.
    intros e (p & He). now destruct (tx_free_text rt self p e He).
Qed.

Lemma document_free_text_is_sanitized_witness :
  exists root w',
    swedbank_root plain_runtime test_journal [payment_1000] world0 = (inr root, w') /\
    Forall (holds_text 140) (texts path_dbtr_nm root) /\
    Forall (holds_text 70) (texts path_cdtr_nm root) /\
    Forall (holds_text 140) (texts path_ustrd root).
Proof.
  eexists. eexists. split; [vm_compute; reflexivity |].
  eapply (document_free_text_is_sanitized plain_runtime test_journal
            [payment_1000] world0).
  vm_compute. reflexivity.
Defined.

(* ================================================================== *)
(** * The clearing member, the letter a-ring, and the two validators *)

Lemma plusgiro_has_code_9960 (bank : PartnerBank.t) :
  _compute_swedbank_account_type bank = Some plusgiro ->
  PartnerBank.swedbank_clearing_code bank = Some (u "9960").
Proof.
  unfold _compute_swedbank_account_type.
  destruct (is_iban _); [discriminate |].
  destruct (PartnerBank.acc_number bank) as [[| c s] |]; try discriminate.
  destruct (_ && negb _); [discriminate |].
  destruct (PartnerBank.swedbank_clearing_code bank) as [code |].
  - destruct (str_eqb code (u "9960")) eqn:E.
    + apply str_eqb_eq in E. now subst.
    + rewrite andb_false_r. discriminate.
  - rewrite andb_false_r. discriminate.
Qed.

(** X20. For a bank account whose type is the one that
    [_compute_swedbank_account_type] assigns, the clearing member is its
    clearing code whenever it has one, with the clearing system SESBA; the
    member 9900 is returned only for an account of type Bankgiro, which
    then has no clearing code; without clearing code and without Bankgiro
    type no clearing is returned.  The creditor agent that is written for
    a payment to such an account with a clearing code carries that code as
    MmbId and SESBA as the code of the clearing system. *)
Theorem clearing_member_is_the_stored_code
    (self : Journal.t) (payment : Payment.t) (bank : PartnerBank.t) :
  PartnerBank.swedbank_account_type bank = _compute_swedbank_account_type bank ->
  (forall code,
     PartnerBank.swedbank_clearing_code bank = Some code ->
     truthy (Some code) = true ->
     _get_swedbank_creditor_agent_clearing bank = (Some (u "SESBA"), Some code) /\
     (Payment.partner_bank_id payment = Some bank ->
      forall e,
        _swedbank_get_cdtr_agt self payment = inr (Some e) ->
        texts path_mmb_id e = [Some code] /\
        texts path_clr_sys_cd e = [Some (u "SESBA")])) /\
  (truthy (PartnerBank.swedbank_clearing_code bank) = false ->
   _get_swedbank_creditor_agent_clearing bank =
   match PartnerBank.swedbank_account_type bank with
   | Some bankgiro => (Some (u "SESBA"), Some (u "9900"))
   | _ => (None, None)
   end).
Proof.
  intros Hs. split.
  - intros code Hc Ht.
    assert (E : _get_swedbank_creditor_agent_clearing bank =
                (Some (u "SESBA"), Some code)).
    { unfold _get_swedbank_creditor_agent_clearing.
      destruct (PartnerBank.swedbank_account_type bank) as [[] |] eqn:Et;
        try (now rewrite Hc, Ht); symmetry in Hs.
      - apply bankgiro_has_no_clearing_code in Hs. congruence.
      - apply plusgiro_has_code_9960 in Hs. congruence. }
    split; [exact E |].
    intros Hb e. rewrite cdtr_agt_built.
    destruct (cdtr_agt_ok payment); [| discriminate].
    unfold cdtr_agt_tree. rewrite Hb, E. cbn [fst snd]. intros [= <-].
    destruct code as [| x r]; [discriminate |].
    destruct (truthy (field Bank.bic (PartnerBank.bank_id bank)));
      split; reflexivity.
  - intros Hf. unfold _get_swedbank_creditor_agent_clearing.
    destruct (PartnerBank.swedbank_account_type bank) as [[] |] eqn:Et;
      try reflexivity; try (now rewrite Hf).
    symmetry in Hs. apply plusgiro_has_code_9960 in Hs.
    rewrite Hs in Hf. discriminate.
Qed.

Lemma clearing_member_is_the_stored_code_witness :
  _get_swedbank_creditor_agent_clearing test_partner_bank_bban =
    (Some (u "SESBA"), Some (u "9900")) /\
  (Payment.partner_bank_id payment_to_bban = Some test_partner_bank_bban ->
   forall e,
     _swedbank_get_cdtr_agt test_journal payment_to_bban = inr (Some e) ->
     texts path_mmb_id e = [Some (u "9900")] /\
     texts path_clr_sys_cd e = [Some (u "SESBA")]).
Proof.
  apply (proj1 (clearing_member_is_the_stored_code test_journal payment_to_bban
                  test_partner_bank_bban eq_refl) (u "9900")); reflexivity.
Defined.

Section ARing.
Variable rt : Runtime.
Hypothesis lower_a_ring :
  forall c, is_a_ring c = true ->
  exists c', unicode_lower rt c = [c'] /\ is_a_ring c' = true.

Lemma a_ring_cases (c : char) : is_a_ring c = true -> c = 229 \/ c = 197.
Proof.
  unfold is_a_ring. intros H. apply orb_true_iff in H as [H | H];
    apply N.eqb_eq in H; auto.
Qed.

Lemma sanitize_char_a_ring (c : char) :
  is_a_ring c = true -> sanitize_char rt false c = [].
Proof.
  intros H. destruct (lower_a_ring c H) as (c' & El & H').
  unfold sanitize_char. cbv zeta.
  assert (L : lower rt c = [c']).
  { apply a_ring_cases in H as [-> | ->]; exact El. }
  rewrite L. cbn [dict_get_str].
  apply a_ring_cases in H as [-> | ->];
    apply a_ring_cases in H' as [-> | ->]; reflexivity.
Qed.

Lemma sanitize_chars_without_a_ring (t : str) :
  flat_map (sanitize_char rt false) t =
  flat_map (sanitize_char rt false) (filter (fun c => negb (is_a_ring c)) t).
Proof.
  induction t as [| c t IH]; [reflexivity |].
  cbn [flat_map filter]. destruct (is_a_ring c) eqn:E; cbn [negb].
  - now rewrite (sanitize_char_a_ring c E).
  - cbn [flat_map]. now rewrite IH.
Qed.

Lemma sanitize_text_without_a_ring (t : str) (n : nat) :
  _swedbank_sanitize_text rt (Some t) n false =
  _swedbank_sanitize_text rt (Some (filter (fun c => negb (is_a_ring c)) t)) n false.
Proof.
  unfold _swedbank_sanitize_text.
  pose proof (sanitize_chars_without_a_ring t) as E.
  destruct t as [| c t']; [reflexivity |].
  rewrite E.
  destruct (filter (fun c0 => negb (is_a_ring c0)) (c :: t')) as [| x r];
    [| reflexivity].
  cbn [flat_map]. now destruct n.
Qed.

End ARing.

(** X21. In Latin mode the letters U+00E5 and U+00C5 (a with ring) have no
    replacement and are dropped, while U+00E4 and U+00F6 become [a] and
    [o]: for a runtime in which the lower case of a letter a with ring is
    a letter a with ring, [_swedbank_sanitize_id] gives for every text the
    same result as for the text with these letters removed. *)
Theorem a_ring_is_dropped_from_identifiers
    (rt : Runtime) (t : str) (max_length : nat) :
  (forall c, is_a_ring c = true ->
     exists c', unicode_lower rt c = [c'] /\ is_a_ring c' = true) ->
  _swedbank_sanitize_id rt (Some t) max_length =
  _swedbank_sanitize_id rt
    (Some (filter (fun c => negb (is_a_ring c)) t)) max_length /\
  sanitize_char rt false 228 = u "a" /\
  sanitize_char rt false 246 = u "o".
Proof.
  intros H. split; [| split; reflexivity].
  rewrite !sanitize_id_strip.
  now rewrite (sanitize_text_without_a_ring rt H t max_length).
Qed.

Lemma a_ring_is_dropped_from_identifiers_witness :
  _swedbank_sanitize_id plain_runtime (Some [197; 107; 101]) 35 =
  _swedbank_sanitize_id plain_runtime
    (Some (filter (fun c => negb (is_a_ring c)) [197; 107; 101])) 35 /\
  sanitize_char plain_runtime false 228 = u "a" /\
  sanitize_char plain_runtime false 246 = u "o".
Proof.
  apply (a_ring_is_dropped_from_identifiers plain_runtime [197; 107; 101] 35).
  intros c Hc. exists c. split; [| exact Hc].
  apply a_ring_cases in Hc as [-> | ->]; reflexivity.
Defined.

(** X22. The validator of the batch accepts the payments of a journal
    exactly when the validator of the document builder accepts them and,
    for a SEPA journal, every payment that names a bank account names an
    IBAN: the IBAN rule is the only difference between the two. *)
Theorem batch_validator_is_journal_validator_with_iban_rule
    (journal : Journal.t) (payments : list Payment.t) :
  validate_batch_payments (Some journal) payments = inr tt <->
  _swedbank_validate_payments journal payments = inr tt /\
  sepa_accounts_are_iban journal payments.
Proof.
  unfold sepa_accounts_are_iban.
  induction payments as [| p l IH].
  - split; [intros _; split; [reflexivity | intros _; constructor] | reflexivity].
  - cbn [validate_batch_payments _swedbank_validate_payments].
    unfold validate_batch_payment, validate_payment. cbn [field].
    destruct (Payment.partner_id p); [| split; [discriminate | intros [K _]; discriminate]].
    destruct (le_zero (Payment.amount p));
      [split; [discriminate | intros [K _]; discriminate] |].
    destruct (is_SEPA (Journal.swedbank_service_level journal)) eqn:Es; cbn [andb].
    + destruct (negb (str_eqb (Currency.name (Payment.currency_id p)) (u "EUR")));
        [split; [discriminate | intros [K _]; discriminate] |].
      destruct (Payment.partner_bank_id p) as [b |] eqn:Eb.
      * destruct (PartnerBank.acc_type b) eqn:Et; cbn [is_iban negb].
        -- split; [discriminate |]. intros [_ K].
           specialize (K eq_refl). inversion K as [| ? ? Hp _]; subst.
           rewrite Eb in Hp. congruence.
        -- rewrite IH. split.
           ++ intros [H1 H2]. split; [exact H1 |]. intros _.
              constructor; [now rewrite Eb | now apply H2].
           ++ intros [H1 H2]. split; [exact H1 |]. intros _.
              specialize (H2 eq_refl). now inversion H2.
      * rewrite IH. split.
        -- intros [H1 H2]. split; [exact H1 |]. intros _.
           constructor; [now rewrite Eb | now apply H2].
        -- intros [H1 H2]. split; [exact H1 |]. intros _.
           specialize (H2 eq_refl). now inversion H2.
    + rewrite IH. split.
      * intros [H1 _]. split; [exact H1 | discriminate].
      * intros [H1 _]. split; [exact H1 | discriminate].
Qed.

(* ================================================================== *)
(** * The Swedbank fields of a payment and the generator *)

Lemma for_each_ext (A B : Type) (f g : A -> M B) (l : list A) :
  (forall a w, f a w = g a w) -> forall w, for_each f l w = for_each g l w.
Proof.
  intros H. induction l as [| a l IH]; intros w; [reflexivity |].
  cbn [for_each]. unfold bind at 1 3. rewrite H.
  destruct (g a w) as [[e | b] w1]; [reflexivity |].
  unfold bind. now rewrite IH.
Qed.

Lemma for_each_map (A B C : Type) (f : A -> B) (g : B -> M C) (l : list A) :
  forall w, for_each g (map f l) w = for_each (fun a => g (f a)) l w.
Proof.
  induction l as [| a l IH]; intros w; [reflexivity |].
  cbn [map for_each]. unfold bind at 1 3.
  destruct (g (f a) w) as [[e | b] w1]; [reflexivity |].
  unfold bind. now rewrite IH.
Qed.

Section UnreadFields.
Variable rt : Runtime.
Variable self : Journal.t.
Variable f : Payment.t -> Payment.t.
Hypothesis f_keeps :
  forall p, exists a b c d e, f p = with_swedbank_fields a b c d e p.

Lemma f_validate (p : Payment.t) : validate_payment self (f p) = validate_payment self p.
Proof. destruct (f_keeps p) as (a & b & c & d & e & ->). reflexivity. Qed.

Lemma f_id (p : Payment.t) : Payment.id (f p) = Payment.id p.
Proof. destruct (f_keeps p) as (a & b & c & d & e & ->). reflexivity. Qed.

Lemma f_amount (p : Payment.t) : Payment.amount (f p) = Payment.amount p.
Proof. destruct (f_keeps p) as (a & b & c & d & e & ->). reflexivity. Qed.

Lemma f_key (p : Payment.t) : payment_key rt self (f p) = payment_key rt self p.
Proof. destruct (f_keeps p) as (a & b & c & d & e & ->). reflexivity. Qed.

Lemma f_tx (p : Payment.t) (w : world) :
  _swedbank_get_cdt_trf_tx_inf rt self (f p) w =
  _swedbank_get_cdt_trf_tx_inf rt self p w.
Proof. destruct (f_keeps p) as (a & b & c & d & e & ->). reflexivity. Qed.

Lemma f_validate_all (l : list Payment.t) :
  _swedbank_validate_payments self (map f l) = _swedbank_validate_payments self l.
Proof.
  induction l as [| p l IH]; [reflexivity |].
  cbn [map _swedbank_validate_payments]. now rewrite f_validate, IH.
Qed.

Lemma f_sum (l : list Payment.t) : sum_amounts (map f l) = sum_amounts l.
Proof.
  unfold sum_amounts. rewrite map_map. f_equal.
  apply map_ext. apply f_amount.
Qed.

Lemma f_mem_id (i : N) (g : list Payment.t) : mem_id i (map f g) = mem_id i g.
Proof.
  unfold mem_id. induction g as [| p g IH]; [reflexivity |].
  cbn [map existsb]. now rewrite f_id, IH.
Qed.

Lemma f_union (g : list Payment.t) (p : Payment.t) :
  recordset_union (map f g) [f p] = map f (recordset_union g [p]).
Proof.
  cbn [recordset_union]. rewrite f_id, f_mem_id.
  destruct (mem_id (Payment.id p) g); [reflexivity |].
  now rewrite map_app.
Qed.

Lemma f_groups_add (k : group_key) (p : Payment.t)
    (groups : list (group_key * list Payment.t)) :
  groups_add k (f p) (map_groups f groups) = map_groups f (groups_add k p groups).
Proof.
  unfold map_groups. induction groups as [| [k0 g] rest IH].
  - cbn [map groups_add fst snd]. now rewrite <- (f_union [] p).
  - cbn [map groups_add fst snd].
    destruct (group_key_eqb k k0).
    + cbn [map fst snd]. now rewrite f_union.
    + cbn [map fst snd]. now rewrite IH.
Qed.

Lemma f_group_payments (l : list Payment.t) :
  _swedbank_group_payments rt self (map f l) =
  map_groups f (_swedbank_group_payments rt self l).
Proof.
  unfold _swedbank_group_payments.
  change (@nil (group_key * list Payment.t)) with (map_groups f []) at 1.
  generalize (@nil (group_key * list Payment.t)) as groups.
  induction l as [| p l IH]; intros groups; [reflexivity |].
  cbn [map fold_left]. rewrite f_key, f_groups_add. apply IH.
Qed.

Lemma f_pmt_inf (g : list Payment.t) (k : group_key) (w : world) :
  _swedbank_get_pmt_inf rt self (map f g) k w = _swedbank_get_pmt_inf rt self g k w.
Proof.
  destruct g as [| p g]; [now destruct k |].
  cbn [map]. rewrite !pmt_inf_built.
  change (f p :: map f g) with (map f (p :: g)).
  rewrite for_each_map, (for_each_ext _ _ _ _ _ f_tx).
  unfold pmt_inf_head. now rewrite f_sum, length_map.
Qed.

Lemma f_grp_hdr (l : list Payment.t) (w : world) :
  _swedbank_get_grp_hdr rt self (map f l) w = _swedbank_get_grp_hdr rt self l w.
Proof.
  unfold _swedbank_get_grp_hdr. now rewrite f_sum, length_map.
Qed.

Lemma f_root (l : list Payment.t) (w : world) :
  swedbank_root rt self (map f l) w = swedbank_root rt self l w.
Proof.
  unfold swedbank_root.
  destruct (negb _); [reflexivity |].
  destruct (Journal.bank_account_id self); [| reflexivity].
  unfold bind at 1 4, lift. rewrite f_validate_all.
  destruct (_swedbank_validate_payments self l); [reflexivity |].
  unfold bind at 1 3. rewrite f_grp_hdr.
  destruct (_swedbank_get_grp_hdr rt self l w) as [[e | h] w1]; [reflexivity |].
  unfold bind, ret.
  rewrite f_group_payments. unfold map_groups.
  rewrite for_each_map.
  rewrite (for_each_ext _ _ _
             (fun '(group_key, group_payments) =>
                _swedbank_get_pmt_inf rt self group_payments group_key)).
  - reflexivity.
  - intros [k g] w0. cbn [fst snd]. apply f_pmt_inf.
Qed.

End UnreadFields.

(** X23. The generator reads none of the five Swedbank fields of a
    payment ([swedbank_end_to_end_id], [swedbank_instruction_id],
    [swedbank_service_level], [swedbank_category_purpose],
    [swedbank_charge_bearer]): with any other values in these fields of
    the payments, [create_swedbank_credit_transfer] and
    [create_swedbank_credit_transfer_validated] return the same bytes or
    raise the same error. *)
Theorem swedbank_fields_of_payments_are_not_read
    (rt : Runtime) (self : Journal.t) (payments : list Payment.t) (w : world)
    (end_to_end_id instruction_id : option str)
    (service : option service_level) (purpose : option category_purpose)
    (bearer : option charge_bearer) :
  let changed :=
    map (with_swedbank_fields end_to_end_id instruction_id service purpose bearer)
        payments in
  create_swedbank_credit_transfer rt self changed w =
    create_swedbank_credit_transfer rt self payments w /\
  create_swedbank_credit_transfer_validated rt self changed w =
    create_swedbank_credit_transfer_validated rt self payments w.
Proof.
  cbv zeta.
  assert (E : create_swedbank_credit_transfer rt self
                (map (with_swedbank_fields end_to_end_id instruction_id service
                        purpose bearer) payments) w =
              create_swedbank_credit_transfer rt self payments w).
  { unfold create_swedbank_credit_transfer, bind.
    rewrite f_root; [reflexivity |].
    intros p. now exists end_to_end_id, instruction_id, service, purpose, bearer. }
  split; [exact E |].
  unfold create_swedbank_credit_transfer_validated, bind at 1 3. now rewrite E.
Qed.

(* ================================================================== *)
(** * What the control sums are, and the texts that lxml always accepts *)






(** X25. lxml accepts every text that comes out of
    [_swedbank_sanitize_text] or [_swedbank_sanitize_id], and every amount
    formatted with ['%.2f']: writing such a text into an element never
    raises. *)
Theorem sanitized_text_is_accepted_by_lxml
    (rt : Runtime) (text : option str) (n : nat) (allow : bool) (x : float)
    (t : string) :
  Text t (_swedbank_sanitize_text rt text n allow) =
    inr (Leaf t (_swedbank_sanitize_text rt text n allow)) /\
  Text t (_swedbank_sanitize_id rt text n) =
    inr (Leaf t (_swedbank_sanitize_id rt text n)) /\
  Text t (fmt2 x) = inr (Leaf t (fmt2 x)).
Proof.
  unfold Text.
  now rewrite sanitize_text_xml_compatible, sanitize_id_xml_compatible,
    fmt2_xml_compatible.
Qed.
